(** * The plugin manager of VincyBot07 ([cogs/plugin.py])

    A shallow embedding of the extension manager: plugin references
    ([Plugina]), the registry catalog, the archive cache, the
    fetcher/extractor, the dependency installer and the load/unload
    lifecycle, together with the commands that compose them.

    Python strings are taken as byte strings ([string]) and paths as the
    tuples of their parts. The network, the installer subprocess, the
    storage device and the Python importer are oracles of an environment
    record; the disk, the host's extensions and the cog's fields are the
    state. Every coroutine runs to completion before the next one starts,
    [wait_for_connected] returns at once, and log records are left out.
    The [vplugins] commands of the same class repeat the [plugins] ones
    with other messages and are not modelled twice. *)

From Stdlib Require Import ZArith Ascii String List Bool Lia.
From stdpp Require Import base decidable countable gmap strings list sorting.

Open Scope string_scope.
Open Scope list_scope.

(** ** Strings *)

Module Str.

Definition slash : ascii := "/"%char.
Definition at_sign : ascii := "@"%char.
Definition newline : ascii := "010"%char.

Definition is_newline (c : ascii) : bool := Ascii.eqb c newline.

(** [s.split(c)]: the fields of [s] between the occurrences of [c]. *)
Fixpoint split (c : ascii) (s : string) : list string :=
  match s with
  | EmptyString => [EmptyString]
  | String a s' =>
      if Ascii.eqb a c then EmptyString :: split c s'
      else match split c s' with
           | [] => [String a EmptyString]
           | w :: ws => String a w :: ws
           end
  end.

(** [s.split(c, maxsplit=1)] unpacked into two names: both sides of the
    first [c], or [None] where Python raises [ValueError]. *)
Fixpoint split_once (c : ascii) (s : string) : option (string * string) :=
  match s with
  | EmptyString => None
  | String a s' =>
      if Ascii.eqb a c then Some (EmptyString, s')
      else match split_once c s' with
           | Some (u, r) => Some (String a u, r)
           | None => None
           end
  end.

Fixpoint contains (c : ascii) (s : string) : bool :=
  match s with
  | EmptyString => false
  | String a s' => Ascii.eqb a c || contains c s'
  end.

(** [str.lower] on the ASCII letters. *)
Definition lower_ascii (c : ascii) : ascii :=
  let n := nat_of_ascii c in
  if (65 <=? n)%nat && (n <=? 90)%nat then ascii_of_nat (n + 32) else c.

Fixpoint lower (s : string) : string :=
  match s with
  | EmptyString => EmptyString
  | String a s' => String (lower_ascii a) (lower s')
  end.

(** [s[-1] == c] for a non-empty [s]. *)
Fixpoint ends_with (c : ascii) (s : string) : bool :=
  match s with
  | EmptyString => false
  | String a EmptyString => Ascii.eqb a c
  | String _ s' => ends_with c s'
  end.

Fixpoint leading (c : ascii) (s : string) : nat :=
  match s with
  | String a s' => if Ascii.eqb a c then S (leading c s') else 0
  | EmptyString => 0
  end.

End Str.

(** ** Regular expressions of [Plugina.from_string]

    The two patterns are built from the lazy group [(.+?)], literals and
    the end anchor; the matcher below tries the splits in the order of
    Python's backtracking engine and returns the first that succeeds. *)

Module Re.

(** [(.+?)] followed by the rest of the pattern [k]: the group takes the
    shortest non-empty text without a newline for which [k] succeeds. *)
Fixpoint lazy_from {A} (pre s : string) (k : string -> string -> option A)
  : option A :=
  match k pre s with
  | Some r => Some r
  | None =>
      match s with
      | EmptyString => None
      | String c s' =>
          if Str.is_newline c then None
          else lazy_from (pre +:+ String c EmptyString) s' k
      end
  end.

Definition lazy_plus {A} (s : string) (k : string -> string -> option A)
  : option A :=
  match s with
  | EmptyString => None
  | String c s' =>
      if Str.is_newline c then None
      else lazy_from (String c EmptyString) s' k
  end.

Definition lit {A} (c : ascii) (s : string) (k : string -> option A)
  : option A :=
  match s with
  | String a s' => if Ascii.eqb a c then k s' else None
  | EmptyString => None
  end.

(** [$]: the end of the string, or just before a final newline. *)
Definition at_end (s : string) : bool :=
  match s with
  | EmptyString => true
  | String c EmptyString => Str.is_newline c
  | _ => false
  end.

Definition groups : Type := string * string * string * option string.

(** [^(.+?)/(.+?)/(.+?)@(.+?)$] *)
Definition match_strict (s : string) : option groups :=
  lazy_plus s (fun user r1 =>
  lit Str.slash r1 (fun r2 =>
  lazy_plus r2 (fun repo r3 =>
  lit Str.slash r3 (fun r4 =>
  lazy_plus r4 (fun name r5 =>
  lit Str.at_sign r5 (fun r6 =>
  lazy_plus r6 (fun branch r7 =>
  if at_end r7 then Some (user, repo, name, Some branch) else None))))))).

(** [^(.+?)/(.+?)/(.+?)(?:@(.+?))?$]: the optional group is tried first. *)
Definition match_lenient (s : string) : option groups :=
  lazy_plus s (fun user r1 =>
  lit Str.slash r1 (fun r2 =>
  lazy_plus r2 (fun repo r3 =>
  lit Str.slash r3 (fun r4 =>
  lazy_plus r4 (fun name r5 =>
  match lit Str.at_sign r5 (fun r6 =>
        lazy_plus r6 (fun branch r7 =>
        if at_end r7 then Some (user, repo, name, Some branch) else None))
  with
  | Some g => Some g
  | None => if at_end r5 then Some (user, repo, name, None) else None
  end))))).

End Re.

(** ** Plugin references: class [Plugina] *)

Record Plugina : Type := mkPlugina {
  user : string;
  repo : string;
  name : string;
  branch : string;
}.

(** [Plugina.__init__]: a missing branch is ["master"]. *)
Definition Plugina_new (u r n : string) (b : option string) : Plugina :=
  {| user := u; repo := r; name := n;
     branch := match b with Some b => b | None => "master" end |}.

Definition fields (p : Plugina) : string * string * string * string :=
  (user p, repo p, name p, branch p).

Global Instance Plugina_eq_dec : EqDecision Plugina.
Proof. solve_decision. Defined.

Global Instance Plugina_countable : Countable Plugina.
Proof.
  refine (inj_countable' fields
            (fun t => match t with (u, r, n, b) => mkPlugina u r n b end) _).
  by intros [].
Defined.

Definition url (p : Plugina) : string :=
  "https://github.com/" +:+ user p +:+ "/" +:+ repo p +:+ "/archive/"
    +:+ branch p +:+ ".zip".

Definition link (p : Plugina) : string :=
  "https://github.com/" +:+ user p +:+ "/" +:+ repo p +:+ "/tree/"
    +:+ branch p +:+ "/" +:+ name p.

Definition ext_string (p : Plugina) : string :=
  "plugins." +:+ user p +:+ "." +:+ repo p +:+ "." +:+ name p +:+ "-"
    +:+ branch p +:+ "." +:+ name p.

(** [Plugina.__str__]: the canonical form [user/repo/name@branch]. *)
Definition Plugina_str (p : Plugina) : string :=
  user p +:+ "/" +:+ repo p +:+ "/" +:+ name p +:+ "@" +:+ branch p.

(** [Plugina.__lt__] *)
Definition Plugina_lt (p q : Plugina) : bool :=
  String.ltb (Str.lower (name p)) (Str.lower (name q)).

(** [Plugina.__eq__] between two [Plugina] objects. *)
Definition Plugina_eq (p q : Plugina) : bool :=
  String.eqb (Plugina_str p) (Plugina_str q).

(** [Plugina.__hash__]: Python's [hash] of the tuple of the four fields;
    [hash] itself is the interpreter's. *)
Definition Plugina_hash (hash : string * string * string * string -> Z)
  (p : Plugina) : Z :=
  hash (user p, repo p, name p, branch p).

(** A hash without collisions, to stand for the interpreter's [hash]
    where two tuples have to be told apart. *)
Definition tuple_code (t : string * string * string * string) : Z :=
  Zpos (encode t).

(** [Plugina.from_string]; [None] stands for [InvalidPluginError]. *)
Definition from_string (s : string) (strict : bool) : option Plugina :=
  match (if negb strict then Re.match_lenient s else Re.match_strict s) with
  | Some (u, r, n, b) => Some (Plugina_new u r n b)
  | None => None
  end.

(** ** Paths: [pathlib.PurePath] on a POSIX host

    A path is the tuple of its [parts]; [".."] is kept as a part and links
    are not followed, as in [PurePath]. *)

Definition path : Type := list string.

Module Path.

Definition clean (x : string) : bool :=
  negb (String.eqb x "") && negb (String.eqb x ".").

(** The root of a path string: ["/"], or ["//"] for exactly two slashes. *)
Definition root (s : string) : option string :=
  match Str.leading Str.slash s with
  | 0 => None
  | 2 => Some "//"
  | _ => Some "/"
  end.

(** [PurePath(s).parts] *)
Definition parts (s : string) : path :=
  let segs := List.filter clean (Str.split Str.slash s) in
  match root s with
  | Some r => r :: segs
  | None => segs
  end.

Definition is_root (x : string) : bool :=
  String.eqb x "/" || String.eqb x "//".

Definition is_absolute (p : path) : bool :=
  match p with
  | r :: _ => is_root r
  | [] => false
  end.

(** [p / q] for two paths: an absolute right operand replaces the left. *)
Definition join (p q : path) : path :=
  if is_absolute q then q else p ++ q.

(** [p / s] for a string [s]. *)
Definition div (p : path) (s : string) : path := join p (parts s).

(** [Path( *segs )] *)
Definition of_parts (segs : list string) : path := fold_left div segs [].

(** [p.parent]: the parent of an anchor is the anchor itself. *)
Definition parent (p : path) : path :=
  match p with
  | [r] => if is_root r then p else []
  | _ => removelast p
  end.

(** [str(p)] *)
Definition to_string (p : path) : string :=
  match p with
  | [] => "."
  | r :: rest =>
      if is_root r then r +:+ String.concat "/" rest
      else String.concat "/" p
  end.

End Path.

(** ** The file system *)

Inductive node : Type :=
| Dir
| File (data : string).

Global Instance node_eq_dec : EqDecision node.
Proof. solve_decision. Defined.

Module FS.

Definition t : Type := gmap path node.

Definition is_anchor (p : path) : bool :=
  match p with
  | [] => true
  | [r] => Path.is_root r
  | _ => false
  end.

(** What is at [p]: the current directory and the roots always exist. *)
Definition node_at (fs : gmap path node) (p : path) : option node :=
  if is_anchor p then Some Dir else fs !! p.

(** [Path.exists] *)
Definition exists_ (fs : gmap path node) (p : path) : bool :=
  match node_at fs p with Some _ => true | None => false end.

Definition is_dir (fs : gmap path node) (p : path) : bool :=
  match node_at fs p with Some Dir => true | _ => false end.

(** Creating the directories [pre/x1], [pre/x1/x2], ... that are missing;
    [None] when one of them is a file. *)
Fixpoint mkdirs (pre : path) (rest : list string) (fs : gmap path node)
  : option (gmap path node) :=
  match rest with
  | [] => Some fs
  | x :: rest' =>
      let q := pre ++ [x] in
      match node_at fs q with
      | Some (File _) => None
      | Some Dir => mkdirs q rest' fs
      | None => mkdirs q rest' (<[q := Dir]> fs)
      end
  end.

(** [Path.mkdir(parents=True, exist_ok=exist_ok)]; [None] is [OSError]. *)
Definition mkdir (exist_ok : bool) (p : path) (fs : gmap path node)
  : option (gmap path node) :=
  if exists_ fs p && negb exist_ok then None else mkdirs [] p fs.

(** [open("rb")] and reading the whole file. *)
Definition read (p : path) (fs : gmap path node) : option string :=
  match node_at fs p with
  | Some (File d) => Some d
  | _ => None
  end.

(** The first [k] bytes of [s]. *)
Fixpoint take_bytes (k : nat) (s : string) : string :=
  match k, s with
  | S k', String a s' => String a (take_bytes k' s')
  | _, _ => EmptyString
  end.

(** [open("wb")] followed by a write of [data]. The file is truncated when
    it is opened; [fault = Some k] is a device that fails once [k] bytes
    have been written. The boolean tells whether the write completed;
    [None] is a failure of [open] itself. *)
Definition write (fault : option nat) (p : path) (data : string)
  (fs : gmap path node) : option (bool * gmap path node) :=
  match node_at fs p with
  | Some Dir => None
  | _ =>
      if is_dir fs (Path.parent p) then
        match fault with
        | Some k =>
            if (k <? String.length data)%nat
            then Some (false, <[p := File (take_bytes k data)]> fs)
            else Some (true, <[p := File data]> fs)
        | None => Some (true, <[p := File data]> fs)
        end
      else None
  end.

(** [shutil.rmtree(p, onerror=...)]: errors are logged, never raised. *)
Definition rmtree (p : path) (fs : gmap path node) : gmap path node :=
  filter (fun kv => ¬ (p `prefix_of` kv.1)) fs.

Definition has_child (p : path) (fs : gmap path node) : bool :=
  existsb (fun kv => bool_decide (p `prefix_of` kv.1 ∧ kv.1 ≠ p))
          (map_to_list fs).

(** [Path.rmdir]: an existing, empty directory. *)
Definition rmdir (p : path) (fs : gmap path node) : option (gmap path node) :=
  match fs !! p with
  | Some Dir => if has_child p fs then None else Some (delete p fs)
  | _ => None
  end.

End FS.

(** ** The environment of the cog *)

(** An entry of [zipf.infolist()] with the bytes [zipf.open(info)] yields. *)
Record ZipInfo : Type := mkZipInfo {
  filename : string;
  content : string;
}.

Global Instance ZipInfo_eq_dec : EqDecision ZipInfo.
Proof. solve_decision. Defined.

(** [ZipInfo.is_dir] *)
Definition ZipInfo_is_dir (info : ZipInfo) : bool :=
  Str.ends_with Str.slash (filename info).

(** A value of the registry document: [details["repository"]],
    [details.get("branch")] and [details.get("bot_version")]. *)
Record Details : Type := mkDetails {
  repository : string;
  d_branch : option string;
  d_bot_version : option string;
}.

(** What [proc.communicate()] returns, and the exit status. *)
Record Process : Type := mkProcess {
  stdout : string;
  stderr : string;
  returncode : Z;
}.

(** The collaborators of the cog: the host's configuration and version,
    the libraries it calls ([pkg_resources.parse_version], [json.loads],
    [zipfile]) and the outside world (network, subprocesses, the storage
    device, the Python importer). *)
Record Env (Version : Type) : Type := mkEnv {
  bot_dir : path;
  enable_plugins : bool;
  bot_version : Version;
  parse_version : string -> Version;
  version_lt : Version -> Version -> bool;
  http_get : string -> option string;
  json_loads : string -> option (gmap string Details);
  zip_infolist : string -> option (list ZipInfo);
  run_shell : string -> Process;
  wfault : path -> option nat;
  import_ok : gmap path node -> string -> bool;
  venv : bool;
  sys_executable : string;
  USER_SITE : string;
}.

Arguments bot_dir {Version} _.
Arguments enable_plugins {Version} _.
Arguments bot_version {Version} _.
Arguments parse_version {Version} _ _.
Arguments version_lt {Version} _ _ _.
Arguments http_get {Version} _ _.
Arguments json_loads {Version} _ _.
Arguments zip_infolist {Version} _ _.
Arguments run_shell {Version} _ _.
Arguments wfault {Version} _ _.
Arguments import_ok {Version} _ _ _.
Arguments venv {Version} _.
Arguments sys_executable {Version} _.
Arguments USER_SITE {Version} _.

(** ** Exceptions, messages and events *)

Inductive ext_error : Type :=
| ExtensionAlreadyLoaded
| ExtensionNotLoaded
| ExtensionFailed.

Inductive invalid_plugin : Type :=
| CannotDecipher (s : string)
| EntryNotFound (file : string)
| RequirementsFailed (stderr_text : string)
| ExtensionInvalid.

Inductive exn : Type :=
| InvalidPluginError (r : invalid_plugin)
| ExtensionError (e : ext_error)
| OSError
| ClientError
| BadZipFile
| JSONDecodeError
| ValueError
| KeyError.

Definition is_ExtensionError (e : exn) : bool :=
  match e with ExtensionError _ => true | _ => false end.

Definition is_OSError (e : exn) : bool :=
  match e with OSError => true | _ => false end.

Definition is_NotLoaded_or_KeyError (e : exn) : bool :=
  match e with
  | ExtensionError ExtensionNotLoaded => true
  | KeyError => true
  | _ => false
  end.

(** The embeds the commands send, by what they report. *)
Inductive Embed : Type :=
| MsgStillLoading
| MsgVersionTooLow (required_version : string)
| MsgInvalidName
| MsgAlreadyInstalled
| MsgDupeCog
| MsgStartDownload (plugin_link : string)
| MsgDownloadFailed
| MsgInstalled
| MsgInstalledDisabled
| MsgNotInstalled
| MsgUninstalled
| MsgUpdated (plugin_name : string)
| MsgPluginsDisabled
| MsgNoneLoaded
| MsgLoaded (plugins : gset Plugina).

Inductive Event : Type :=
| EvHttpGet (u : string)
| EvSpawn (cmd : string)
| EvMkdir (p : path)
| EvOpenRead (p : path)
| EvWrite (p : path) (data : string)
| EvRmtree (p : path)
| EvRmdir (p : path)
| EvSend (e : Embed)
| EvEdit (e : Embed)
| EvConfigUpdate
| EvReadySet.

Global Instance Embed_eq_dec : EqDecision Embed.
Proof. solve_decision. Defined.

Global Instance Event_eq_dec : EqDecision Event.
Proof. solve_decision. Defined.

Inductive Task : Type :=
| TaskPopulateRegistry
| TaskPopulateVRegistry
| TaskInitialLoadPlugins.

Global Instance Task_eq_dec : EqDecision Task.
Proof. solve_decision. Defined.

(** ** The state of the process *)

Record St : Type := mkSt {
  fs : gmap path node;                 (* the disk *)
  registry : gmap string Details;      (* self.registry *)
  loaded_plugins : gset Plugina;       (* self.loaded_plugins *)
  ready : bool;                        (* self._ready_event *)
  config_plugins : list string;        (* self.bot.config["plugins"] *)
  extensions : gset string;            (* the host's loaded extensions *)
  cogs : gset string;                  (* self.bot.cogs, by name *)
  sys_path : list string;              (* sys.path *)
  tasks : list Task;                   (* coroutines scheduled on the loop *)
  trace : list Event;                  (* what the process did, in order *)
}.

Definition set_fs (f : gmap path node) (s : St) : St :=
  mkSt f (registry s) (loaded_plugins s) (ready s) (config_plugins s)
       (extensions s) (cogs s) (sys_path s) (tasks s) (trace s).
Definition set_registry (r : gmap string Details) (s : St) : St :=
  mkSt (fs s) r (loaded_plugins s) (ready s) (config_plugins s)
       (extensions s) (cogs s) (sys_path s) (tasks s) (trace s).
Definition set_loaded_plugins (l : gset Plugina) (s : St) : St :=
  mkSt (fs s) (registry s) l (ready s) (config_plugins s)
       (extensions s) (cogs s) (sys_path s) (tasks s) (trace s).
Definition set_ready (b : bool) (s : St) : St :=
  mkSt (fs s) (registry s) (loaded_plugins s) b (config_plugins s)
       (extensions s) (cogs s) (sys_path s) (tasks s) (trace s).
Definition set_config_plugins (c : list string) (s : St) : St :=
  mkSt (fs s) (registry s) (loaded_plugins s) (ready s) c
       (extensions s) (cogs s) (sys_path s) (tasks s) (trace s).
Definition set_extensions (x : gset string) (s : St) : St :=
  mkSt (fs s) (registry s) (loaded_plugins s) (ready s) (config_plugins s)
       x (cogs s) (sys_path s) (tasks s) (trace s).
Definition set_sys_path (p : list string) (s : St) : St :=
  mkSt (fs s) (registry s) (loaded_plugins s) (ready s) (config_plugins s)
       (extensions s) (cogs s) p (tasks s) (trace s).
Definition set_tasks (t : list Task) (s : St) : St :=
  mkSt (fs s) (registry s) (loaded_plugins s) (ready s) (config_plugins s)
       (extensions s) (cogs s) (sys_path s) t (trace s).
Definition set_trace (t : list Event) (s : St) : St :=
  mkSt (fs s) (registry s) (loaded_plugins s) (ready s) (config_plugins s)
       (extensions s) (cogs s) (sys_path s) (tasks s) t.

(** ** A state and exception monad *)

Inductive outcome (A : Type) : Type :=
| Ok (a : A)
| Raise (e : exn).

Arguments Ok {A} a.
Arguments Raise {A} e.

Definition M (A : Type) : Type := St -> outcome A * St.

Definition ret {A} (a : A) : M A := fun s => (Ok a, s).

Definition bind {A B} (m : M A) (k : A -> M B) : M B :=
  fun s => match m s with
           | (Ok a, s') => k a s'
           | (Raise e, s') => (Raise e, s')
           end.

Definition raise {A} (e : exn) : M A := fun s => (Raise e, s).

Definition get : M St := fun s => (Ok s, s).

Definition modify (f : St -> St) : M unit := fun s => (Ok tt, f s).

(** [try: m except <handles>: h] *)
Definition try_except {A} (m : M A) (handles : exn -> bool) (h : exn -> M A)
  : M A :=
  fun s => match m s with
           | (Raise e, s') => if handles e then h e s' else (Raise e, s')
           | r => r
           end.

(** [try: m except Exception: ...], keeping what happened. *)
Definition attempt {A} (m : M A) : M (outcome A) :=
  fun s => match m s with (r, s') => (Ok r, s') end.

Notation "x <- m ;; k" := (bind m (fun x => k))
  (at level 90, m at level 80, right associativity).
Notation "m ;;; k" := (bind m (fun _ => k))
  (at level 90, right associativity).

(** [for x in l: body x]; an exception leaves the loop. *)
Fixpoint for_each {A} (body : A -> M unit) (l : list A) : M unit :=
  match l with
  | [] => ret tt
  | x :: l' => body x ;;; for_each body l'
  end.

Definition emit (e : Event) : M unit :=
  modify (fun s => set_trace (trace s ++ [e]) s).

Definition send (e : Embed) : M unit := emit (EvSend e).
Definition edit (e : Embed) : M unit := emit (EvEdit e).
Definition config_update : M unit := emit EvConfigUpdate.

(** [list.remove(x)]: the first occurrence goes; [None] is [ValueError]. *)
Fixpoint list_remove (x : string) (l : list string) : option (list string) :=
  match l with
  | [] => None
  | y :: l' =>
      if String.eqb x y then Some l'
      else match list_remove x l' with
           | Some r => Some (y :: r)
           | None => None
           end
  end.

Definition in_list (x : string) (l : list string) : bool :=
  existsb (String.eqb x) l.

(** ** The cog: class [Plugin] *)

Section Cog.

Context {Version : Type} (E : Env Version).

(** *** Derived paths of a reference *)

(** [Plugina.path] *)
Definition Plugina_path (p : Plugina) : path :=
  Path.div (Path.div (Path.div (Path.parts "plugins") (user p)) (repo p))
           (name p +:+ "-" +:+ branch p).

Definition abs_path (p : Plugina) : path :=
  Path.join (bot_dir E) (Plugina_path p).

Definition cache_path (p : Plugina) : path :=
  Path.div (Path.div (Path.div (bot_dir E) "temp") "plugins-cache")
           (user p +:+ "-" +:+ repo p +:+ "-" +:+ branch p +:+ ".zip").

(** *** Input and output *)

Definition path_exists (p : path) : M bool :=
  s <- get ;; ret (FS.exists_ (fs s) p).

Definition mkdir (exist_ok : bool) (p : path) : M unit :=
  emit (EvMkdir p) ;;;
  s <- get ;;
  match FS.mkdir exist_ok p (fs s) with
  | Some f => modify (set_fs f)
  | None => raise OSError
  end.

Definition open_read (p : path) : M string :=
  emit (EvOpenRead p) ;;;
  s <- get ;;
  match FS.read p (fs s) with
  | Some d => ret d
  | None => raise OSError
  end.

Definition write_file (p : path) (data : string) : M unit :=
  emit (EvWrite p data) ;;;
  s <- get ;;
  match FS.write (wfault E p) p data (fs s) with
  | Some (true, f) => modify (set_fs f)
  | Some (false, f) => modify (set_fs f) ;;; raise OSError
  | None => raise OSError
  end.

(** [async with self.bot.session.get(u) as resp: await resp.read()] *)
Definition http_read (u : string) : M string :=
  emit (EvHttpGet u) ;;;
  match http_get E u with
  | Some body => ret body
  | None => raise ClientError
  end.

(** [zipfile.ZipFile(io).infolist()] *)
Definition zip_open (bytes : string) : M (list ZipInfo) :=
  match zip_infolist E bytes with
  | Some infos => ret infos
  | None => raise BadZipFile
  end.

(** [asyncio.create_subprocess_shell(cmd, stderr=PIPE, stdout=PIPE)] and
    [proc.communicate()]. *)
Definition subprocess_shell (cmd : string) : M Process :=
  emit (EvSpawn cmd) ;;; ret (run_shell E cmd).

(** [self.bot.load_extension] *)
Definition load_extension (ext : string) : M unit :=
  s <- get ;;
  if bool_decide (ext ∈ extensions s)
  then raise (ExtensionError ExtensionAlreadyLoaded)
  else if import_ok E (fs s) ext
       then modify (fun s => set_extensions ({[ext]} ∪ extensions s) s)
       else raise (ExtensionError ExtensionFailed).

(** [self.bot.unload_extension] *)
Definition unload_extension (ext : string) : M unit :=
  s <- get ;;
  if bool_decide (ext ∈ extensions s)
  then modify (fun s => set_extensions (extensions s ∖ {[ext]}) s)
  else raise (ExtensionError ExtensionNotLoaded).

(** *** Registry refresh *)

Definition registry_url : string :=
  "https://raw.githubusercontent.com/kyb3r/modmail/master/plugins/registry.json".

Definition vregistry_url : string := "http://vincysuper07.cf/bot/plugin.json".

Definition fetch_registry (u : string) : M unit :=
  body <- http_read u ;;
  match json_loads E body with
  | Some doc => modify (set_registry doc)
  | None => raise JSONDecodeError
  end.

Definition populate_registry : M unit := fetch_registry registry_url.

Definition populate_vregistry : M unit := fetch_registry vregistry_url.

(** *** Fetching and extracting *)

(** The body of the loop over [zipf.infolist()]. *)
Definition extract_entry (p : Plugina) (info : ZipInfo) : M unit :=
  let parts := Path.parts (filename info) in
  if (3 <=? length parts)%nat && String.eqb (nth 1 parts "") (name p) then
    let plugin_path :=
      Path.join (abs_path p) (Path.of_parts (drop 2 parts)) in
    if ZipInfo_is_dir info then mkdir true plugin_path
    else mkdir true (Path.parent plugin_path) ;;;
         write_file plugin_path (content info)
  else ret tt.

(** The bytes of the archive: read from the cache, or downloaded and then
    written to the cache path. *)
Definition fetch_archive (p : Plugina) (force : bool) : M string :=
  cached <- path_exists (cache_path p) ;;
  if cached && negb force then open_read (cache_path p)
  else
    raw <- http_read (url p) ;;
    has_parent <- path_exists (Path.parent (cache_path p)) ;;
    (if negb has_parent
     then mkdir false (Path.parent (cache_path p))
     else ret tt) ;;;
    write_file (cache_path p) raw ;;;
    ret raw.

(** [for info in zipf.infolist(): ...] *)
Definition extract_all (p : Plugina) (infos : list ZipInfo) : M unit :=
  for_each (extract_entry p) infos.

Definition download_plugin (p : Plugina) (force : bool) : M unit :=
  installed <- path_exists (abs_path p) ;;
  if installed && negb force then ret tt
  else
    mkdir true (abs_path p) ;;;
    bytes <- fetch_archive p force ;;
    infos <- zip_open bytes ;;
    extract_all p infos.

(** *** Installing the requirements and loading *)

Definition pip_command (req_txt : path) : string :=
  sys_executable E +:+ " -m pip install --upgrade"
    +:+ (if negb (venv E) then " --user" else "")
    +:+ " -r " +:+ Path.to_string req_txt +:+ " -q -q".

(** The [try: ... except commands.ExtensionError] block of [load_plugin]. *)
Definition load_into_host (p : Plugina) : M unit :=
  try_except
    (load_extension (ext_string p) ;;;
     modify (fun s => set_loaded_plugins ({[p]} ∪ loaded_plugins s) s))
    is_ExtensionError
    (fun _ => raise (InvalidPluginError ExtensionInvalid)).

Definition load_plugin (p : Plugina) : M unit :=
  has_entry <- path_exists (Path.div (abs_path p) (name p +:+ ".py")) ;;
  if negb has_entry
  then raise (InvalidPluginError (EntryNotFound (name p +:+ ".py")))
  else
    let req_txt := Path.div (abs_path p) "requirements.txt" in
    has_req <- path_exists req_txt ;;
    (if has_req then
       proc <- subprocess_shell (pip_command req_txt) ;;
       if negb (String.eqb (stderr proc) "")
       then raise (InvalidPluginError (RequirementsFailed (stderr proc)))
       else
         site <- path_exists (Path.parts (USER_SITE E)) ;;
         if site
         then modify (fun s => set_sys_path (USER_SITE E :: sys_path s) s)
         else ret tt
     else ret tt) ;;;
    load_into_host p.

(** *** Resolving what the user typed *)

Definition parse_user_input (plugin_name : string) (check_version : bool)
  : M (option Plugina) :=
  s <- get ;;
  if negb (ready s) then send MsgStillLoading ;;; ret None
  else
    match registry s !! plugin_name with
    | Some details =>
        match Str.split_once Str.slash (repository details) with
        | None => raise ValueError
        | Some (u, r) =>
            let required_version :=
              match d_bot_version details with
              | Some v => if String.eqb v "" then None else Some v
              | None => None
              end in
            match (if check_version then required_version else None) with
            | Some v =>
                if version_lt E (bot_version E) (parse_version E v)
                then send (MsgVersionTooLow v) ;;; ret None
                else ret (Some (Plugina_new u r plugin_name (d_branch details)))
            | None =>
                ret (Some (Plugina_new u r plugin_name (d_branch details)))
            end
        end
    | None =>
        match from_string plugin_name false with
        | Some p => ret (Some p)
        | None => send MsgInvalidName ;;; ret None
        end
    end.

(** *** Commands *)

Definition config_append (x : string) : M unit :=
  modify (fun s => set_config_plugins (config_plugins s ++ [x]) s).

Definition config_remove (x : string) : M unit :=
  s <- get ;;
  match list_remove x (config_plugins s) with
  | Some l => modify (set_config_plugins l)
  | None => raise ValueError
  end.

(** [self.loaded_plugins.remove(p)] *)
Definition loaded_remove (p : Plugina) : M unit :=
  s <- get ;;
  if bool_decide (p ∈ loaded_plugins s)
  then modify (fun s => set_loaded_plugins (loaded_plugins s ∖ {[p]}) s)
  else raise KeyError.

Definition rmtree (p : path) : M unit :=
  emit (EvRmtree p) ;;; modify (fun s => set_fs (FS.rmtree p (fs s)) s).

Definition rmdir (p : path) : M unit :=
  emit (EvRmdir p) ;;;
  s <- get ;;
  match FS.rmdir p (fs s) with
  | Some f => modify (set_fs f)
  | None => raise OSError
  end.

Definition plugins_add (plugin_name : string) : M unit :=
  plugin <- parse_user_input plugin_name true ;;
  match plugin with
  | None => ret tt
  | Some p =>
      s <- get ;;
      if in_list (Plugina_str p) (config_plugins s)
      then send MsgAlreadyInstalled
      else if bool_decide (name p ∈ cogs s) then send MsgDupeCog
      else
        send (MsgStartDownload (link p)) ;;;
        d <- attempt (download_plugin p true) ;;
        match d with
        | Raise _ => edit MsgDownloadFailed
        | Ok _ =>
            config_append (Plugina_str p) ;;;
            config_update ;;;
            if enable_plugins E then
              l <- attempt (load_plugin p) ;;
              match l with
              | Raise _ => edit MsgDownloadFailed
              | Ok _ => edit MsgInstalled
              end
            else edit MsgInstalledDisabled
        end
  end.

Definition plugins_remove (plugin_name : string) : M unit :=
  plugin <- parse_user_input plugin_name false ;;
  match plugin with
  | None => ret tt
  | Some p =>
      s <- get ;;
      if negb (in_list (Plugina_str p) (config_plugins s))
      then send MsgNotInstalled
      else
        (if enable_plugins E then
           try_except
             (unload_extension (ext_string p) ;;; loaded_remove p)
             is_NotLoaded_or_KeyError
             (fun _ => ret tt)
         else ret tt) ;;;
        config_remove (Plugina_str p) ;;;
        config_update ;;;
        rmtree (abs_path p) ;;;
        try_except
          (rmdir (Path.parent (abs_path p)) ;;;
           rmdir (Path.parent (Path.parent (abs_path p))))
          is_OSError
          (fun _ => ret tt) ;;;
        send MsgUninstalled
  end.

Definition update_plugin (plugin_name : string) : M unit :=
  plugin <- parse_user_input plugin_name true ;;
  match plugin with
  | None => ret tt
  | Some p =>
      s <- get ;;
      if negb (in_list (Plugina_str p) (config_plugins s))
      then send MsgNotInstalled
      else
        download_plugin p true ;;;
        (if enable_plugins E then
           try_except (unload_extension (ext_string p))
                      is_ExtensionError (fun _ => ret tt) ;;;
           load_plugin p
         else ret tt) ;;;
        send (MsgUpdated (name p))
  end.

Definition plugins_update (plugin_name : option string) : M unit :=
  match plugin_name with
  | None => s <- get ;; for_each update_plugin (config_plugins s)
  | Some n => update_plugin n
  end.

Definition plugins_loaded : M unit :=
  if negb (enable_plugins E) then send MsgPluginsDisabled
  else
    s <- get ;;
    if negb (ready s) then send MsgStillLoading
    else if bool_decide (loaded_plugins s = ∅) then send MsgNoneLoaded
    else send (MsgLoaded (loaded_plugins s)).

(** *** Start-up *)

(** The body of the first loop of [initial_load_plugins]. *)
Definition initial_check (plugin_name : string) : M unit :=
  match from_string plugin_name true with
  | Some _ => ret tt
  | None =>
      config_remove plugin_name ;;;
      match from_string plugin_name false with
      | Some _ => ret tt
      | None => ret tt                 (* logged; continue *)
      end
  end.

Definition fetch_and_load (p : Plugina) : M unit :=
  _ <- attempt (download_plugin p false ;;; load_plugin p) ;; ret tt.

(** The body of the second loop. *)
Definition initial_load (vplugin_name : string) : M unit :=
  match from_string vplugin_name true with
  | Some p => fetch_and_load p
  | None =>
      config_remove vplugin_name ;;;
      match from_string vplugin_name false with
      | None => ret tt                 (* logged; continue *)
      | Some p => config_append (Plugina_str p) ;;; fetch_and_load p
      end
  end.

(** The two loops over [list(self.bot.config["plugins"])]. *)
Definition startup_pass : M unit :=
  s <- get ;;
  for_each initial_check (config_plugins s) ;;;
  s <- get ;;
  for_each initial_load (config_plugins s).

Definition initial_load_plugins : M unit :=
  startup_pass ;;;
  emit EvReadySet ;;;
  modify (set_ready true) ;;;
  config_update.

Definition create_task (t : Task) : M unit :=
  modify (fun s => set_tasks (tasks s ++ [t]) s).

(** [Plugin.__init__] *)
Definition Plugin_init : M unit :=
  modify (set_registry ∅) ;;;
  modify (set_loaded_plugins ∅) ;;;
  modify (set_ready false) ;;;
  create_task TaskPopulateRegistry ;;;
  create_task TaskPopulateVRegistry ;;;
  if enable_plugins E then create_task TaskInitialLoadPlugins else ret tt.

Definition run_task (t : Task) : M unit :=
  match t with
  | TaskPopulateRegistry => populate_registry
  | TaskPopulateVRegistry => populate_vregistry
  | TaskInitialLoadPlugins => initial_load_plugins
  end.

End Cog.

(** ** What the properties are stated with *)

Definition is_fetch (e : Event) : bool :=
  match e with EvHttpGet _ => true | _ => false end.

Definition is_spawn (e : Event) : bool :=
  match e with EvSpawn _ => true | _ => false end.

Definition is_ready_set (e : Event) : bool :=
  match e with EvReadySet => true | _ => false end.

(** How many HTTP requests, installer runs and [set()] calls a trace has. *)
Definition fetch_count (t : list Event) : nat := length (List.filter is_fetch t).
Definition spawn_count (t : list Event) : nat := length (List.filter is_spawn t).
Definition ready_set_count (t : list Event) : nat :=
  length (List.filter is_ready_set t).

(** A path segment: no ['/'] in it, and neither empty nor ["."]. *)
Definition segment (w : string) : Prop :=
  Str.contains Str.slash w = false /\ Path.clean w = true.

(** [m] takes every state to one that [R] relates it to, whatever it
    returns or raises. *)
Definition respects {A} (R : relation St) (m : M A) : Prop :=
  forall s r s', m s = (r, s') -> R s s'.

(** No request was made. *)
Definition same_fetches (s s' : St) : Prop :=
  fetch_count (trace s') = fetch_count (trace s).

(** What was on the disk is still there. *)
Definition disk_grows (s s' : St) : Prop :=
  forall q, FS.exists_ (fs s) q = true -> FS.exists_ (fs s') q = true.

Definition quiet_growth (s s' : St) : Prop :=
  same_fetches s s' /\ disk_grows s s'.

(** At most one request was made. *)
Definition one_fetch (s s' : St) : Prop :=
  fetch_count (trace s') <= fetch_count (trace s) + 1 /\ disk_grows s s'.

(** The readiness event, the scheduled coroutines and the number of
    [set()] calls are as they were. *)
Definition gate_kept (s s' : St) : Prop :=
  ready s' = ready s /\ tasks s' = tasks s /\
  ready_set_count (trace s') = ready_set_count (trace s).

(** The same, and the configured list is as it was. *)
Definition quiet_gate (s s' : St) : Prop :=
  gate_kept s s' /\ config_plugins s' = config_plugins s.

(** The messages sent, in order. *)
Definition sent (t : list Event) : list Embed :=
  omap (fun e => match e with EvSend m => Some m | _ => None end) t.

(** Whether a configured name is in the strict form. *)
Definition is_strict (x : string) : bool :=
  match from_string x true with Some _ => true | None => false end.

(** The names of [l] that the start-up pass will remove from the
    configured list are all in [cfg], as often as in [l]. *)
Definition removable (l cfg : list string) : Prop :=
  List.filter (fun x => negb (is_strict x)) l ⊆+ cfg.

(** How many times the start-up coroutine is scheduled. *)
Definition pending_startup (s : St) : nat :=
  length (List.filter (fun t => bool_decide (t = TaskInitialLoadPlugins))
                      (tasks s)).

(** The state of the gate: closed with the start-up pass still scheduled,
    or opened once by the pass that has run. *)
Definition gate_invariant (s : St) : Prop :=
  (ready s = false /\ ready_set_count (trace s) = 0 /\ pending_startup s = 1)
  \/ (ready s = true /\ ready_set_count (trace s) = 1 /\ pending_startup s = 0).

(** The loaded-set invariant: a reference is in [loaded_plugins] exactly
    when the host holds its extension. *)
Definition loaded_invariant (s : St) : Prop :=
  forall p : Plugina, p ∈ loaded_plugins s <-> ext_string p ∈ extensions s.

Section Scoping.

Context {Version : Type} (E : Env Version).

(** The entries the extraction takes: at least three path segments, the
    second being the plugin's name. *)
Definition selected (p : Plugina) (info : ZipInfo) : bool :=
  let parts := Path.parts (filename info) in
  bool_decide (3 <= length parts ∧ parts !! 1 = Some (name p)).

(** Where an entry goes: the install directory followed by the entry's
    path without its first two segments. *)
Definition target (p : Plugina) (info : ZipInfo) : path :=
  abs_path E p ++ drop 2 (Path.parts (filename info)).

(** The entry file and the requirements file of an installed plugin. *)
Definition entry_file (p : Plugina) : path :=
  Path.div (abs_path E p) (name p +:+ ".py").

Definition requirements_txt (p : Plugina) : path :=
  Path.div (abs_path E p) "requirements.txt".

(** What extracting one entry does to the disk. *)
Definition entry_events (p : Plugina) (info : ZipInfo) : list Event :=
  if ZipInfo_is_dir info then [EvMkdir (target p info)]
  else [EvMkdir (Path.parent (target p info));
        EvWrite (target p info) (content info)].

End Scoping.

(** ** The process: commands and scheduled coroutines *)

Inductive Command : Type :=
| CmdAdd (plugin_name : string)
| CmdRemove (plugin_name : string)
| CmdUpdate (plugin_name : option string)
| CmdLoaded
| CmdRegistry
| CmdVRegistry.

Section Process.

Context {Version : Type} (E : Env Version).

(** The registry commands refresh the catalog before they display it. *)
Definition run_command (c : Command) : M unit :=
  match c with
  | CmdAdd n => plugins_add E n
  | CmdRemove n => plugins_remove E n
  | CmdUpdate n => plugins_update E n
  | CmdLoaded => plugins_loaded E
  | CmdRegistry => populate_registry E
  | CmdVRegistry => populate_vregistry E
  end.

(** One step of the process: a command is served (an exception goes to the
    framework's error handler), or a scheduled coroutine runs. *)
Inductive step : St -> St -> Prop :=
| step_command (c : Command) (s : St) :
    step s (run_command c s).2
| step_task (t : Task) (before after : list Task) (s : St) :
    tasks s = before ++ t :: after ->
    step s (run_task E t (set_tasks (before ++ after) s)).2.

(** The host before the cog is constructed. *)
Record Bot : Type := mkBot {
  bot_fs : gmap path node;
  bot_plugins : list string;
  bot_extensions : gset string;
  bot_cogs : gset string;
}.

(** The state once [Plugin(bot)] has been constructed. *)
Definition boot (b : Bot) : St :=
  (Plugin_init E
     (mkSt (bot_fs b) ∅ ∅ false (bot_plugins b) (bot_extensions b)
           (bot_cogs b) [] [] [])).2.

Definition reachable (b : Bot) (s : St) : Prop := rtc step (boot b) s.

End Process.

(** A field [from_string] reads back: not empty and on one line. *)
Definition one_line (s : string) : bool :=
  negb (String.eqb s "") && negb (Str.contains Str.newline s).

(** A reference whose fields can be told apart in its canonical form: the
    owner and the repository without ['/'], the name without ['@'], and
    every field not empty and on one line. *)
Definition Plugina_plain (p : Plugina) : bool :=
  one_line (user p) && negb (Str.contains Str.slash (user p))
  && one_line (repo p) && negb (Str.contains Str.slash (repo p))
  && one_line (name p) && negb (Str.contains Str.at_sign (name p))
  && one_line (branch p).

(** Exactly one request was made. *)
Definition fetched_once (s s' : St) : Prop :=
  fetch_count (trace s') = fetch_count (trace s) + 1.

(** The state once the event [e] has been traced. *)
Definition record (e : Event) (s : St) : St := set_trace (trace s ++ [e]) s.

(** Only the disk and the trace may differ. *)
Definition only_disk (s s' : St) : Prop :=
  registry s' = registry s /\ loaded_plugins s' = loaded_plugins s /\
  ready s' = ready s /\ config_plugins s' = config_plugins s /\
  extensions s' = extensions s /\ cogs s' = cogs s /\
  sys_path s' = sys_path s /\ tasks s' = tasks s.

(** What the resolution of a name looks at is as it was. *)
Definition resolver_kept (s s' : St) : Prop :=
  ready s' = ready s /\ registry s' = registry s /\ cogs s' = cogs s.

(** The state once [plugins_remove] has tried to unload: the extension is
    taken from the host if it is there, and in that case the reference
    from the loaded set if it is there. *)
Definition unloaded (p : Plugina) (s : St) : St :=
  if bool_decide (ext_string p ∈ extensions s) then
    let s1 := set_extensions (extensions s ∖ {[ext_string p]}) s in
    if bool_decide (p ∈ loaded_plugins s)
    then set_loaded_plugins (loaded_plugins s ∖ {[p]}) s1
    else s1
  else s.

(** The disk is as it was. *)
Definition same_disk (s s' : St) : Prop := fs s' = fs s.

(** ** The pages of the loaded list *)

(** [s[k:]] *)
Fixpoint slice_from (k : nat) (s : string) : string :=
  match k, s with
  | S k', String _ s' => slice_from k' s'
  | _, _ => s
  end.

(** [s[-n:]] for a positive [n]: the whole of a shorter [s]. *)
Definition last_chars (n : nat) (s : string) : string :=
  slice_from (String.length s - n) s.

Definition fence : string := "```".
Definition page_open : string := fence +:+ String Str.newline "".

(** [pages[-1]]; the list of pages is never empty. *)
Definition last_page (pages : list string) : string := List.last pages "".

(** [pages[-1] += x] *)
Definition extend_last (x : string) (pages : list string) : list string :=
  removelast pages ++ [last_page pages +:+ x].

(** The body of the loop of [plugins_loaded] over the canonical forms of
    the loaded plugins, in their sorted order. *)
Definition add_line (pages : list string) (plugin : string) : list string :=
  let msg := plugin +:+ String Str.newline "" in
  if (String.length msg + String.length (last_page pages) + 3 <=? 2048)%nat
  then extend_last msg pages
  else extend_last fence pages ++ [page_open +:+ msg].

(** The descriptions of the embeds [plugins_loaded] hands to the
    paginator. *)
Definition loaded_pages (loaded : list string) : list string :=
  let pages := fold_left add_line loaded [page_open] in
  if negb (String.eqb (last_chars 3 (last_page pages)) fence)
  then extend_last fence pages
  else pages.

(** A code block: the given lines, each ended by a newline, between the
    opening and the closing fence. *)
Definition lines (g : list string) : string :=
  fold_right (fun x acc => (x +:+ String Str.newline "") +:+ acc) "" g.

Definition fenced (g : list string) : string :=
  (page_open +:+ lines g) +:+ fence.

(** ** The cache file of a reference *)

Definition hyphen : ascii := "-"%char.

(** A reference whose cache file name can be read back: no ['/'] in the
    owner, the repository and the branch, and no ['-'] in the owner and
    the repository. *)
Definition cache_plain (p : Plugina) : bool :=
  negb (Str.contains Str.slash (user p)) && negb (Str.contains hyphen (user p))
  && negb (Str.contains Str.slash (repo p)) && negb (Str.contains hyphen (repo p))
  && negb (Str.contains Str.slash (branch p)).

(** ** The registry pages *)

(** The argument of [plugins_registry], a [typing.Union[int, str]] that
    defaults to [None]. *)
Inductive registry_arg : Type :=
| ArgNone
| ArgInt (n : Z)
| ArgStr (s : string).

Definition string_le (a b : string) : Prop := String.leb a b = true.

Global Instance string_le_dec (a b : string) : Decision (string_le a b).
Proof. unfold string_le. apply _. Defined.

(** The names of [sorted(self.registry.items(), key=lambda elem: elem[0])]. *)
Definition sorted_names (r : gmap string Details) : list string :=
  merge_sort string_le (map fst (map_to_list r)).

(** The position of the first element equal to [x]. *)
Fixpoint index_of (x : string) (names : list string) : option nat :=
  match names with
  | [] => None
  | n :: rest =>
      if String.eqb x n then Some 0 else option_map S (index_of x rest)
  end.

(** The page [plugins_registry] opens the paginator at. *)
Definition registry_index (arg : registry_arg) (names : list string) : Z :=
  match arg with
  | ArgInt n =>
      let index := n - 1 in
      let index := if index <? 0 then 0 else index in
      if index >=? Z.of_nat (length names)
      then Z.of_nat (length names) - 1
      else index
  | ArgStr x =>
      match index_of x names with
      | Some i => Z.of_nat i
      | None => 0
      end
  | ArgNone => 0
  end%Z.

(** [not index and plugin_name is not None]: the command answers that the
    plugin could not be found. *)
Definition registry_not_found (arg : registry_arg) (names : list string)
  : bool :=
  (registry_index arg names =? 0)%Z
  && match arg with ArgNone => false | _ => true end.

(** The footer of a registry page. *)
Inductive footer : Type :=
| FooterLoaded
| FooterUnable (required_version : string)
| FooterAble.

Section Registry.

Context {Version : Type} (E : Env Version).

(** The footer [plugins_registry] gives the page of [name]; [None] is the
    [ValueError] of unpacking a repository without ['/']. *)
Definition registry_footer (s : St) (name : string) (details : Details)
  : option footer :=
  match Str.split_once Str.slash (repository details) with
  | None => None
  | Some (u, r) =>
      let plugin := Plugina_new u r name (d_branch details) in
      if bool_decide (plugin ∈ loaded_plugins s) then Some FooterLoaded
      else
        let required_version :=
          match d_bot_version details with
          | Some v => if String.eqb v "" then None else Some v
          | None => None
          end in
        match required_version with
        | Some v =>
            if version_lt E (bot_version E) (parse_version E v)
            then Some (FooterUnable v)
            else Some FooterAble
        | None => Some FooterAble
        end
  end.

End Registry.

(** ** A concrete host, for examples *)

Module Demo.

(** Dotted decimal versions, compared field by field. *)
Fixpoint digits (acc : nat) (s : string) : list nat :=
  match s with
  | EmptyString => [acc]
  | String c s' =>
      match Ascii.is_nat c with
      | Some d => digits (10 * acc + d) s'
      | None => acc :: digits 0 s'
      end
  end.

Definition parse (s : string) : list nat := digits 0 s.

Fixpoint lt (v w : list nat) : bool :=
  match v, w with
  | [], [] => false
  | [], _ :: _ => true
  | _ :: _, [] => false
  | a :: v', b :: w' => (a <? b)%nat || ((a =? b)%nat && lt v' w')
  end.

Definition pA : Plugina := mkPlugina "u" "r" "A" "master".
Definition pB : Plugina := mkPlugina "u" "r" "B" "master".
Definition pC : Plugina := mkPlugina "u" "r" "C" "master".

(** The archive of [u/r] at [master]: three plugins, [B] with requirements. *)
Definition archive : list ZipInfo :=
  [ mkZipInfo "r-master/" "";
    mkZipInfo "r-master/README.md" "three plugins";
    mkZipInfo "r-master/A/" "";
    mkZipInfo "r-master/A/A.py" "class A";
    mkZipInfo "r-master/A/data/" "";
    mkZipInfo "r-master/A/data/words.txt" "a b c";
    mkZipInfo "r-master/B/" "";
    mkZipInfo "r-master/B/B.py" "class B";
    mkZipInfo "r-master/B/requirements.txt" "nosuchpackage";
    mkZipInfo "r-master/C/" "";
    mkZipInfo "r-master/C/C.py" "class C" ].

Definition official : gmap string Details :=
  {[ "A" := mkDetails "u/r" None None ]}.

Definition alternate : gmap string Details :=
  {[ "B" := mkDetails "u/r" None None;
     "next" := mkDetails "u/r" (Some "dev") (Some "9.0") ]}.

Definition pip_B : string :=
  "python3 -m pip install --upgrade -r /bot/plugins/u/r/B-master/requirements.txt -q -q".

(** An installer that fails on [B]'s requirements and says why. *)
Definition shell (cmd : string) : Process :=
  if String.eqb cmd pip_B
  then mkProcess "" "ERROR: No matching distribution found" 1
  else mkProcess "" "" 0.

(** An installer that fails on [B]'s requirements without a word. *)
Definition silent_shell (cmd : string) : Process :=
  if String.eqb cmd pip_B then mkProcess "" "" 1 else mkProcess "" "" 0.


Definition env (enabled : bool) (sh : string -> Process)
  (fault : path -> option nat) : Env (list nat) :=
  {| bot_dir := ["/"; "bot"];
     enable_plugins := enabled;
     bot_version := [3; 4; 1];
     parse_version := parse;
     version_lt := lt;
     http_get := fun u =>
       if String.eqb u "https://github.com/u/r/archive/master.zip"
       then Some "PK:u/r@master"
       else if String.eqb u registry_url then Some "official.json"
       else if String.eqb u vregistry_url then Some "alternate.json"
       else None;
     json_loads := fun t =>
       if String.eqb t "official.json" then Some official
       else if String.eqb t "alternate.json" then Some alternate
       else None;
     zip_infolist := fun b =>
       if String.eqb b "PK:u/r@master" then Some archive else None;
     run_shell := sh;
     wfault := fault;
     import_ok := fun _ _ => true;
     venv := true;
     sys_executable := "python3";
     USER_SITE := "/home/bot/.local/site-packages" |}.

Definition no_fault (p : path) : option nat := None.


Definition E : Env (list nat) := env true shell no_fault.

(** A host on which an older [B], without requirements, is installed. *)
Definition disk : gmap path node :=
  list_to_map
    [ (["/"; "bot"], Dir);
      (["/"; "bot"; "plugins"], Dir);
      (["/"; "bot"; "plugins"; "u"], Dir);
      (["/"; "bot"; "plugins"; "u"; "r"], Dir);
      (["/"; "bot"; "plugins"; "u"; "r"; "B-master"], Dir);
      (["/"; "bot"; "plugins"; "u"; "r"; "B-master"; "B.py"], File "class B, old") ].

Definition bot (plugins : list string) : Bot := mkBot disk plugins ∅ ∅.

(** A state in which the start-up pass has run and nothing is installed. *)
Definition idle : St := mkSt ∅ ∅ ∅ true [] ∅ ∅ [] [] [].

Definition E_silent : Env (list nat) := env true silent_shell no_fault.
Definition E_disabled : Env (list nat) := env false shell no_fault.

Definition only_B : list string := ["u/r/B@master"].
Definition three : list string :=
  ["u/r/A@master"; "u/r/B@master"; "u/r/C@master"].

(** The process once the alternate registry has been fetched, the start-up
    pass still to run. *)
Definition loading (e : Env (list nat)) (plugins : list string) : St :=
  (run_task e TaskPopulateVRegistry
     (set_tasks ([TaskPopulateRegistry] ++ [TaskInitialLoadPlugins])
                (boot e (bot plugins)))).2.

(** The process once the start-up coroutine has run. *)
Definition started (e : Env (list nat)) (plugins : list string) : St :=
  (run_task e TaskInitialLoadPlugins
     (set_tasks ([TaskPopulateRegistry; TaskPopulateVRegistry] ++ [])
                (boot e (bot plugins)))).2.

(** ... and once the alternate registry has then been fetched. *)
Definition settled : St :=
  (run_task E TaskPopulateVRegistry
     (set_tasks ([TaskPopulateRegistry] ++ []) (started E only_B))).2.

(** ... and once the owner has then asked for an update of [B], or of all. *)
Definition updated_B : St :=
  (run_command E (CmdUpdate (Some "u/r/B@master")) (started E only_B)).2.

Definition updated_all : St :=
  (run_command E (CmdUpdate None) (started E three)).2.

(** The new [B], with its requirements, on the disk. *)
Definition fetched_B (e : Env (list nat)) : St :=
  (download_plugin e pB true (started e only_B)).2.


(** The same on a sound device. *)
Definition cached : St := (download_plugin E pA true idle).2.

Definition extracted_A : St := (extract_all E pA archive idle).2.

(** The disabled process, its two scheduled coroutines run. *)
Definition disabled_boot : St := boot E_disabled (bot only_B).

Definition disabled_settled : St :=
  (run_task E_disabled TaskPopulateVRegistry
     (set_tasks ([] ++ [])
        (run_task E_disabled TaskPopulateRegistry
           (set_tasks ([] ++ [TaskPopulateVRegistry]) disabled_boot)).2)).2.

(** The disk of [idle] once the install directory of [A] is made. *)
Definition made_A : gmap path node :=
  default ∅ (FS.mkdir true (abs_path E pA) (fs idle)).

End Demo.

(* ================================================================= *)
(** * Properties *)

(** ** Sanity checks of the embedding *)

Example from_string_lenient :
  from_string "a/b/c" false = Some (mkPlugina "a" "b" "c" "master").
Proof. reflexivity. Qed.

Example from_string_branch :
  from_string "a/b/c@dev" false = Some (mkPlugina "a" "b" "c" "dev").
Proof. reflexivity. Qed.

Example from_string_strict_needs_branch : from_string "a/b/c" true = None.
Proof. reflexivity. Qed.

Example from_string_extra_slash :
  from_string "a/b/c/d" false = Some (mkPlugina "a" "b" "c/d" "master").
Proof. reflexivity. Qed.

Example from_string_two_ats :
  from_string "a/b/c@d@e" false = Some (mkPlugina "a" "b" "c" "d@e").
Proof. reflexivity. Qed.

Example parts_entry : Path.parts "repo-master/plug/sub/f.py"
                      = ["repo-master"; "plug"; "sub"; "f.py"].
Proof. reflexivity. Qed.

Example parts_dir_entry : Path.parts "repo-master/plug/" = ["repo-master"; "plug"].
Proof. reflexivity. Qed.

Example parts_rooted : Path.parts "/a/./b//c" = ["/"; "a"; "b"; "c"].
Proof. reflexivity. Qed.

(** ** Plugin references *)

Lemma Plugina_eq_str (p q : Plugina) :
  Plugina_eq p q = true <-> Plugina_str p = Plugina_str q.
Proof. unfold Plugina_eq. apply String.eqb_eq. Qed.

Lemma Plugina_eq_refl (p : Plugina) : Plugina_eq p p = true.
Proof. apply Plugina_eq_str. reflexivity. Qed.

Lemma Plugina_hash_fields (hash : string * string * string * string -> Z)
  (p q : Plugina) :
  fields p = fields q -> Plugina_hash hash p = Plugina_hash hash q.
Proof. unfold Plugina_hash, fields. intros H. by rewrite H. Qed.

Lemma Plugina_hash_separates (hash : string * string * string * string -> Z)
  (p q : Plugina) :
  hash (fields p) <> hash (fields q) ->
  Plugina_hash hash p <> Plugina_hash hash q.
Proof. unfold Plugina_hash, fields. auto. Qed.

(** C8. The specification wants equality of references to be equality of the four
    fields, and equal references to hash alike, also for fields that hold
    ['/'] or ['@']. In the code [__eq__] compares the canonical strings while
    [__hash__] hashes the tuple of fields: the registry entry ["c@d"] of
    repository [a/b] at branch [e] and the text [a/b/c@d@e] give two
    references that compare equal, differ in their fields, and are hashed
    from different tuples. *)
Theorem equal_refs_with_distinct_fields :
  let p := Plugina_new "a" "b" "c@d" (Some "e") in
  let q := mkPlugina "a" "b" "c" "d@e" in
  from_string "a/b/c@d@e" false = Some q /\
  Plugina_str p = "a/b/c@d@e" /\ Plugina_str q = "a/b/c@d@e" /\
  Plugina_eq p q = true /\
  fields p <> fields q /\
  Plugina_hash tuple_code p <> Plugina_hash tuple_code q.
Proof.
  repeat split; try reflexivity.
  - discriminate.
  - vm_compute. discriminate.
Qed.

(** Two references of equal names are not ordered: the order looks at the
    lower-cased name only. *)
Lemma Plugina_lt_name (p q : Plugina) :
  Plugina_lt p q = String.ltb (Str.lower (name p)) (Str.lower (name q)).
Proof. reflexivity. Qed.

Example Plugina_lt_ignores_case :
  Plugina_lt (mkPlugina "u" "r" "alpha" "m") (mkPlugina "u" "r" "Beta" "m") = true
  /\ Plugina_lt (mkPlugina "u" "r" "Beta" "m") (mkPlugina "u" "r" "alpha" "m") = false.
Proof. split; reflexivity. Qed.

(** A text is cut in one way only at a separator its left part is free of. *)
Lemma append_sep_inj (c : ascii) (a a' b b' : string) :
  Str.contains c a = false -> Str.contains c a' = false ->
  a +:+ String c b = a' +:+ String c b' -> a = a' /\ b = b'.
Proof.
  revert a'. induction a as [|x a IH]; intros [|x' a'] Ha Ha' Heq;
    simpl in *.
  - by injection Heq as ->.
  - injection Heq as <- _. by rewrite Ascii.eqb_refl in Ha'.
  - injection Heq as -> _. by rewrite Ascii.eqb_refl in Ha.
  - injection Heq as -> Heq.
    apply orb_false_iff in Ha as [_ Ha]. apply orb_false_iff in Ha' as [_ Ha'].
    destruct (IH a' Ha Ha' Heq) as [-> ->]. done.
Qed.

(** Where no owner or repository holds a ['/'] and no name holds an ['@'],
    the canonical form determines the four fields, so that [__eq__] is
    equality of the fields and agrees with [__hash__]. *)
Lemma Plugina_str_inj (p q : Plugina) :
  Str.contains Str.slash (user p) = false ->
  Str.contains Str.slash (repo p) = false ->
  Str.contains Str.at_sign (name p) = false ->
  Str.contains Str.slash (user q) = false ->
  Str.contains Str.slash (repo q) = false ->
  Str.contains Str.at_sign (name q) = false ->
  Plugina_str p = Plugina_str q -> p = q.
Proof.
  destruct p as [u r n b], q as [u' r' n' b']. unfold Plugina_str. simpl.
  intros Hu Hr Hn Hu' Hr' Hn' H.
  apply (append_sep_inj Str.slash) in H as [-> H]; [|done..].
  apply (append_sep_inj Str.slash) in H as [-> H]; [|done..].
  apply (append_sep_inj Str.at_sign) in H as [-> ->]; done.
Qed.

Lemma Plugina_eq_plain (p q : Plugina) :
  Str.contains Str.slash (user p) = false ->
  Str.contains Str.slash (repo p) = false ->
  Str.contains Str.at_sign (name p) = false ->
  Str.contains Str.slash (user q) = false ->
  Str.contains Str.slash (repo q) = false ->
  Str.contains Str.at_sign (name q) = false ->
  Plugina_eq p q = true <-> fields p = fields q.
Proof.
  intros. rewrite Plugina_eq_str. split.
  - intros Hs. by rewrite (Plugina_str_inj p q).
  - destruct p, q. unfold fields. simpl. by intros [= -> -> -> ->].
Qed.

(** ** The monad *)

Lemma bind_ok {A B} (m : M A) (k : A -> M B) (s s' : St) (a : A) :
  m s = (Ok a, s') -> bind m k s = k a s'.
Proof. unfold bind. by intros ->. Qed.

Lemma bind_raise {A B} (m : M A) (k : A -> M B) (s s' : St) (e : exn) :
  m s = (Raise e, s') -> bind m k s = (Raise e, s').
Proof. unfold bind. by intros ->. Qed.

(** An exception in the body ends a [for] loop: the items after it are
    not visited. *)
Lemma for_each_raise {A} (body : A -> M unit) (done_ rest : list A) (x : A)
  (s s1 s2 : St) (e : exn) :
  for_each body done_ s = (Ok tt, s1) ->
  body x s1 = (Raise e, s2) ->
  for_each body (done_ ++ x :: rest) s = (Raise e, s2).
Proof.
  revert s. induction done_ as [|y l IH]; intros s Hd Hx; simpl in *.
  - injection Hd as <-. by rewrite (bind_raise _ _ _ _ _ Hx).
  - unfold bind in *. destruct (body y s) as [[[]|e'] s'']; [|done].
    by apply IH.
Qed.

Lemma for_each_app {A} (body : A -> M unit) (l1 l2 : list A) (s s1 : St) :
  for_each body l1 s = (Ok tt, s1) ->
  for_each body (l1 ++ l2) s = for_each body l2 s1.
Proof.
  revert s. induction l1 as [|y l IH]; intros s Hd; simpl in *.
  - by injection Hd as <-.
  - unfold bind in *. destruct (body y s) as [[[]|e'] s'']; [|done].
    by apply IH.
Qed.

(** ** Relations every step of a computation respects *)

Section Respects.

Context (R : relation St) `{!PreOrder R}.

Lemma respects_ret {A} (a : A) : respects R (ret a).
Proof. intros s r s' [= <- <-]. reflexivity. Qed.

Lemma respects_raise {A} (e : exn) : respects R (raise (A:=A) e).
Proof. intros s r s' [= <- <-]. reflexivity. Qed.

Lemma respects_get : respects R get.
Proof. intros s r s' [= <- <-]. reflexivity. Qed.

Lemma respects_modify (f : St -> St) :
  (forall s, R s (f s)) -> respects R (modify f).
Proof. intros Hf s r s' [= <- <-]. apply Hf. Qed.

Lemma respects_bind {A B} (m : M A) (k : A -> M B) :
  respects R m -> (forall a, respects R (k a)) -> respects R (bind m k).
Proof.
  intros Hm Hk s r s'. unfold bind.
  destruct (m s) as [[a|e] s1] eqn:Hms.
  - intros Hks. transitivity s1; [by eapply Hm|by eapply Hk].
  - intros [= <- <-]. by eapply Hm.
Qed.

Lemma respects_try_except {A} (m : M A) (handles : exn -> bool)
  (h : exn -> M A) :
  respects R m -> (forall e, respects R (h e)) ->
  respects R (try_except m handles h).
Proof.
  intros Hm Hh s r s'. unfold try_except.
  destruct (m s) as [[a|e] s1] eqn:Hms.
  - intros [= <- <-]. by eapply Hm.
  - destruct (handles e).
    + intros Hhs. transitivity s1; [by eapply Hm|by eapply Hh].
    + intros [= <- <-]. by eapply Hm.
Qed.

Lemma respects_attempt {A} (m : M A) : respects R m -> respects R (attempt m).
Proof.
  intros Hm s r s'. unfold attempt.
  destruct (m s) as [r1 s1] eqn:Hms. intros [= <- <-]. by eapply Hm.
Qed.

Lemma respects_for_each {A} (body : A -> M unit) (l : list A) :
  (forall x, respects R (body x)) -> respects R (for_each body l).
Proof.
  intros Hb. induction l as [|x l IH]; simpl.
  - apply respects_ret.
  - apply respects_bind; auto.
Qed.

End Respects.

(** A computation that respects [R1], followed by one that respects [R2]. *)
Lemma respects_bind_then {A B} (R1 R2 R3 : relation St) (m : M A)
  (k : A -> M B) :
  respects R1 m -> (forall a, respects R2 (k a)) ->
  (forall s, R2 s s) ->
  (forall s s' s'', R1 s s' -> R2 s' s'' -> R3 s s'') ->
  respects R3 (bind m k).
Proof.
  intros Hm Hk Hrefl Hcomp s r s'. unfold bind.
  destruct (m s) as [[a|e] s1] eqn:Hms.
  - intros Hks. eapply Hcomp; [by eapply Hm|by eapply Hk].
  - intros [= <- <-]. eapply Hcomp; [by eapply Hm|apply Hrefl].
Qed.

Global Instance same_fetches_preorder : PreOrder same_fetches.
Proof.
  split; [by intros s|]. unfold same_fetches. intros s1 s2 s3 H1 H2. congruence.
Qed.

Global Instance disk_grows_preorder : PreOrder disk_grows.
Proof. split; [by intros s q|]. intros s1 s2 s3 H1 H2 q Hq. auto. Qed.

Global Instance quiet_growth_preorder : PreOrder quiet_growth.
Proof.
  split; [by split|]. intros s1 s2 s3 [H1 G1] [H2 G2].
  split; etransitivity; eauto.
Qed.

Global Instance quiet_gate_preorder : PreOrder quiet_gate.
Proof.
  split; [by intros s|]. unfold quiet_gate, gate_kept.
  intros s1 s2 s3 ((?&?&?)&?) ((?&?&?)&?). repeat split; congruence.
Qed.

Global Instance gate_kept_preorder : PreOrder gate_kept.
Proof.
  split; [by intros s|]. unfold gate_kept.
  intros s1 s2 s3 (?&?&?) (?&?&?). repeat split; congruence.
Qed.

Section Properties.

Context {Version : Type} (E : Env Version).

(** ** The registry and the resolution of names *)

Lemma fetch_registry_ok (u body : string) (doc : gmap string Details) (s : St) :
  http_get E u = Some body -> json_loads E body = Some doc ->
  fetch_registry E u s
  = (Ok tt, set_registry doc (set_trace (trace s ++ [EvHttpGet u]) s)).
Proof.
  intros Hb Hd. unfold fetch_registry, http_read, bind, emit, modify. simpl.
  rewrite Hb. simpl. by rewrite Hd.
Qed.

(** A refresh that fails leaves the catalog as it was. *)
Lemma fetch_registry_raise (u : string) (s s' : St) (e : exn) :
  fetch_registry E u s = (Raise e, s') -> registry s' = registry s.
Proof.
  unfold fetch_registry, http_read, bind, emit, modify, raise, ret. simpl.
  destruct (http_get E u) as [body|]; [|by intros [= _ <-]].
  destruct (json_loads E body); [done|by intros [= _ <-]].
Qed.

Lemma parse_user_input_free_text (plugin_name : string) (cv : bool) (s : St) :
  ready s = true -> registry s !! plugin_name = None ->
  parse_user_input E plugin_name cv s
  = match from_string plugin_name false with
    | Some p => (Ok (Some p), s)
    | None => (Ok None, set_trace (trace s ++ [EvSend MsgInvalidName]) s)
    end.
Proof.
  intros Hr Hn. unfold parse_user_input, bind, get. rewrite Hr. simpl.
  rewrite Hn. by destruct (from_string plugin_name false).
Qed.

(** C10. A refresh of either registry assigns the fetched document to the
    one catalog field: whatever the catalog held before, after
    [populate_registry] it is the official document and after
    [populate_vregistry] the alternate one, and a short name the fetched
    document lacks (be it in the other registry's document, held until
    then) is no longer found in the catalog: it is read as free text. *)
Theorem refresh_replaces_catalog (s : St) (body vbody : string)
  (doc vdoc : gmap string Details) (plugin_name : string) (d : Details) :
  http_get E registry_url = Some body -> json_loads E body = Some doc ->
  http_get E vregistry_url = Some vbody -> json_loads E vbody = Some vdoc ->
  registry s !! plugin_name = Some d ->
  vdoc !! plugin_name = Some d -> doc !! plugin_name = None ->
  ready s = true ->
  let s1 := (populate_registry E s).2 in
  let s2 := (populate_vregistry E s).2 in
  (populate_registry E s).1 = Ok tt /\ registry s1 = doc /\
  (populate_vregistry E s).1 = Ok tt /\ registry s2 = vdoc /\
  registry s1 !! plugin_name = None /\
  forall cv, parse_user_input E plugin_name cv s1
             = match from_string plugin_name false with
               | Some p => (Ok (Some p), s1)
               | None => (Ok None,
                          set_trace (trace s1 ++ [EvSend MsgInvalidName]) s1)
               end.
Proof.
  intros Hb Hd Hvb Hvd Hs Hv Hn Hr. unfold populate_registry, populate_vregistry.
  rewrite (fetch_registry_ok _ _ _ _ Hb Hd), (fetch_registry_ok _ _ _ _ Hvb Hvd).
  simpl. repeat split; try done.
  intros cv. by apply parse_user_input_free_text.
Qed.

Lemma parse_user_input_too_low (s : St) (plugin_name : string) (d : Details)
  (u r v : string) :
  ready s = true ->
  registry s !! plugin_name = Some d ->
  Str.split_once Str.slash (repository d) = Some (u, r) ->
  d_bot_version d = Some v -> v <> "" ->
  version_lt E (bot_version E) (parse_version E v) = true ->
  parse_user_input E plugin_name true s
  = (Ok None, set_trace (trace s ++ [EvSend (MsgVersionTooLow v)]) s).
Proof.
  intros Hr Hd Hs Hv Hne Hlt. unfold parse_user_input, bind, get.
  rewrite Hr. simpl. rewrite Hd, Hs, Hv.
  destruct (String.eqb_spec v ""); [done|]. by rewrite Hlt.
Qed.

(** C2, amended. Once the start-up pass has opened the readiness gate, a
    short name whose catalog entry (repository [owner/repo]) carries a
    non-empty [bot_version] above the host's version resolves, with the
    version check, to nothing but the version-too-low message: install and
    update send that message and stop, with the disk, the configured list
    and the loaded set as they were and no request or subprocess made. *)
Theorem version_gate (s : St) (plugin_name : string) (d : Details)
  (u r v : string) :
  ready s = true ->
  registry s !! plugin_name = Some d ->
  Str.split_once Str.slash (repository d) = Some (u, r) ->
  d_bot_version d = Some v -> v <> "" ->
  version_lt E (bot_version E) (parse_version E v) = true ->
  let s' := set_trace (trace s ++ [EvSend (MsgVersionTooLow v)]) s in
  parse_user_input E plugin_name true s = (Ok None, s') /\
  plugins_add E plugin_name s = (Ok tt, s') /\
  update_plugin E plugin_name s = (Ok tt, s') /\
  plugins_update E (Some plugin_name) s = (Ok tt, s') /\
  fetch_count (trace s') = fetch_count (trace s) /\
  spawn_count (trace s') = spawn_count (trace s) /\
  fs s' = fs s /\ config_plugins s' = config_plugins s.
Proof.
  intros Hr Hd Hs Hv Hne Hlt s'.
  pose proof (parse_user_input_too_low s plugin_name d u r v Hr Hd Hs Hv Hne Hlt)
    as Hp.
  repeat split; try done.
  - unfold plugins_add. by rewrite (bind_ok _ _ _ _ _ Hp).
  - unfold update_plugin. by rewrite (bind_ok _ _ _ _ _ Hp).
  - unfold plugins_update, update_plugin. by rewrite (bind_ok _ _ _ _ _ Hp).
  - unfold s', fetch_count. simpl. rewrite List.filter_app. simpl.
    by rewrite app_nil_r.
  - unfold s', spawn_count. simpl. rewrite List.filter_app. simpl.
    by rewrite app_nil_r.
Qed.

(** ** The dependency installer *)

(** The last step of [load_plugin]: the extension is loaded and the
    reference recorded, or the loader's error is turned into
    [InvalidPluginError]; nothing is traced. *)
Lemma load_into_host_eq (p : Plugina) (s : St) :
  load_into_host E p s
  = if bool_decide (ext_string p ∈ extensions s)
    then (Raise (InvalidPluginError ExtensionInvalid), s)
    else if import_ok E (fs s) (ext_string p)
         then (Ok tt, set_loaded_plugins ({[p]} ∪ loaded_plugins s)
                        (set_extensions ({[ext_string p]} ∪ extensions s) s))
         else (Raise (InvalidPluginError ExtensionInvalid), s).
Proof.
  unfold load_into_host, try_except, load_extension, bind, get, modify, raise.
  simpl.
  destruct (bool_decide (ext_string p ∈ extensions s)); [done|].
  by destruct (import_ok E (fs s) (ext_string p)).
Qed.

Lemma load_into_host_cases (p : Plugina) (s : St) (r : outcome unit) (s' : St) :
  load_into_host E p s = (r, s') ->
  trace s' = trace s /\ sys_path s' = sys_path s /\ fs s' = fs s /\
  ((r = Ok tt /\ loaded_plugins s' = {[p]} ∪ loaded_plugins s /\
    extensions s' = {[ext_string p]} ∪ extensions s)
   \/ (r = Raise (InvalidPluginError ExtensionInvalid) /\ s' = s)).
Proof.
  rewrite load_into_host_eq.
  destruct (bool_decide (ext_string p ∈ extensions s));
    [|destruct (import_ok E (fs s) (ext_string p))];
    intros [= <- <-]; simpl; auto 10.
Qed.

(** [load_plugin], step by step. *)
Lemma load_plugin_eq (p : Plugina) (s : St) :
  load_plugin E p s
  = if negb (FS.exists_ (fs s) (entry_file E p))
    then (Raise (InvalidPluginError (EntryNotFound (name p +:+ ".py"))), s)
    else if FS.exists_ (fs s) (requirements_txt E p) then
      let cmd := pip_command E (requirements_txt E p) in
      let s1 := set_trace (trace s ++ [EvSpawn cmd]) s in
      if negb (String.eqb (stderr (run_shell E cmd)) "")
      then (Raise (InvalidPluginError
                     (RequirementsFailed (stderr (run_shell E cmd)))), s1)
      else load_into_host E p
             (if FS.exists_ (fs s) (Path.parts (USER_SITE E))
              then set_sys_path (USER_SITE E :: sys_path s) s1 else s1)
    else load_into_host E p s.
Proof.
  unfold load_plugin, entry_file, requirements_txt, bind, path_exists, get,
    ret, subprocess_shell, emit, modify, raise.
  simpl.
  destruct (FS.exists_ (fs s) (Path.div (abs_path E p) (name p +:+ ".py")));
    simpl; [|done].
  destruct (FS.exists_ (fs s) (Path.div (abs_path E p) "requirements.txt"));
    simpl; [|done].
  destruct (String.eqb _ ""); simpl; [|done].
  by destruct (FS.exists_ (fs s) (Path.parts (USER_SITE E))).
Qed.


(** ** The disk only grows while a plugin is fetched *)

Lemma path_exists_respects (R : relation St) `{!PreOrder R} (p : path) :
  respects R (path_exists p).
Proof. intros s r s' [= <- <-]. reflexivity. Qed.

Lemma zip_open_respects (R : relation St) `{!PreOrder R} (bytes : string) :
  respects R (zip_open E bytes).
Proof.
  intros s r s'. unfold zip_open, ret, raise.
  destruct (zip_infolist E bytes); intros [= <- <-]; reflexivity.
Qed.

Ltac respects_step :=
  lazymatch goal with
  | |- respects _ (bind _ _) => refine (respects_bind _ _ _ _ _); [|intros ?]
  | |- respects _ (ret _) => refine (respects_ret _ _)
  | |- respects _ (raise _) => refine (respects_raise _ _)
  | |- respects _ get => refine (respects_get _)
  | |- respects _ (path_exists _) => refine (path_exists_respects _ _)
  | |- respects _ (zip_open _ _) => refine (zip_open_respects _ _)
  | |- respects _ (try_except _ _ _) =>
      refine (respects_try_except _ _ _ _ _ _); [|intros ?]
  | |- respects _ (attempt _) => refine (respects_attempt _ _ _)
  | |- respects _ (for_each _ _) => refine (respects_for_each _ _ _ _); intros ?
  | |- respects _ (modify _) => refine (respects_modify _ _ _); intros ?
  | |- respects _ (if ?b then _ else _) => destruct b
  | |- respects _ (match ?x with _ => _ end) => destruct x
  end.

Lemma fetch_count_snoc (t : list Event) (e : Event) :
  fetch_count (t ++ [e]) = fetch_count t + (if is_fetch e then 1 else 0).
Proof.
  unfold fetch_count. rewrite List.filter_app, length_app. simpl.
  by destruct (is_fetch e).
Qed.

Lemma exists_insert (f : gmap path node) (p q : path) (n : node) :
  FS.exists_ f q = true -> FS.exists_ (<[p := n]> f) q = true.
Proof.
  unfold FS.exists_, FS.node_at. destruct (FS.is_anchor q); [done|].
  destruct (decide (p = q)) as [->|Hne].
  - by rewrite lookup_insert_eq.
  - by rewrite lookup_insert_ne.
Qed.

Lemma exists_insert_eq (f : gmap path node) (p : path) (n : node) :
  FS.exists_ (<[p := n]> f) p = true.
Proof.
  unfold FS.exists_, FS.node_at. destruct (FS.is_anchor p); [done|].
  by rewrite lookup_insert_eq.
Qed.

Lemma mkdirs_grows (rest : list string) (pre : path) (f f' : gmap path node)
  (q : path) :
  FS.mkdirs pre rest f = Some f' ->
  FS.exists_ f q = true -> FS.exists_ f' q = true.
Proof.
  revert pre f. induction rest as [|x rest IH]; intros pre f; simpl.
  - by intros [= <-].
  - destruct (FS.node_at f (pre ++ [x])) as [[|d]|]; [|done|].
    + apply IH.
    + intros Hm Hq. eapply IH; [done|]. by apply exists_insert.
Qed.

Lemma mkdirs_exists (rest : list string) (pre : path) (f f' : gmap path node) :
  FS.mkdirs pre rest f = Some f' ->
  FS.exists_ f pre = true -> FS.exists_ f' (pre ++ rest) = true.
Proof.
  revert pre f. induction rest as [|x rest IH]; intros pre f; simpl.
  - intros [= <-]. by rewrite app_nil_r.
  - rewrite (cons_middle x pre rest), app_assoc.
    destruct (FS.node_at f (pre ++ [x])) as [[|d]|] eqn:Hn; [|done|].
    + intros Hm _. apply (IH _ _ Hm). unfold FS.exists_. by rewrite Hn.
    + intros Hm _. apply (IH _ _ Hm). apply exists_insert_eq.
Qed.

Lemma mkdir_grows (ok : bool) (p : path) (f f' : gmap path node) (q : path) :
  FS.mkdir ok p f = Some f' -> FS.exists_ f q = true -> FS.exists_ f' q = true.
Proof.
  unfold FS.mkdir. destruct (FS.exists_ f p && negb ok); [done|].
  apply mkdirs_grows.
Qed.

Lemma mkdir_exists (ok : bool) (p : path) (f f' : gmap path node) :
  FS.mkdir ok p f = Some f' -> FS.exists_ f' p = true.
Proof.
  unfold FS.mkdir. destruct (FS.exists_ f p && negb ok); [done|].
  intros Hm. by apply (mkdirs_exists p [] f f' Hm).
Qed.

Lemma write_grows (fault : option nat) (p : path) (data : string)
  (f f' : gmap path node) (b : bool) (q : path) :
  FS.write fault p data f = Some (b, f') ->
  FS.exists_ f q = true -> FS.exists_ f' q = true.
Proof.
  unfold FS.write.
  destruct (FS.node_at f p) as [[|d]|]; [done|..];
    (destruct (FS.is_dir f (Path.parent p)); [|done]);
    (destruct fault as [k|]; [destruct (k <? String.length data)%nat|]);
    intros [= <- <-]; apply exists_insert.
Qed.

(** [mkdir], step by step. *)
Lemma mkdir_eq (ok : bool) (p : path) (s : St) :
  mkdir ok p s
  = let s1 := set_trace (trace s ++ [EvMkdir p]) s in
    match FS.mkdir ok p (fs s) with
    | Some f => (Ok tt, set_fs f s1)
    | None => (Raise OSError, s1)
    end.
Proof.
  unfold mkdir, bind, emit, modify, get, raise. simpl.
  by destruct (FS.mkdir ok p (fs s)).
Qed.

Lemma write_file_eq (p : path) (data : string) (s : St) :
  write_file E p data s
  = let s1 := set_trace (trace s ++ [EvWrite p data]) s in
    match FS.write (wfault E p) p data (fs s) with
    | Some (true, f) => (Ok tt, set_fs f s1)
    | Some (false, f) => (Raise OSError, set_fs f s1)
    | None => (Raise OSError, s1)
    end.
Proof.
  unfold write_file, bind, emit, modify, get, raise. simpl.
  by destruct (FS.write (wfault E p) p data (fs s)) as [[[] f]|].
Qed.

Lemma mkdir_quiet (ok : bool) (p : path) : respects quiet_growth (mkdir ok p).
Proof.
  intros s r s'. rewrite mkdir_eq. simpl.
  destruct (FS.mkdir ok p (fs s)) as [f|] eqn:Hm; intros [= <- <-];
    split; unfold same_fetches, disk_grows; simpl;
    rewrite ?fetch_count_snoc; simpl; try lia; try done.
  intros q. by apply mkdir_grows with (ok := ok) (p := p).
Qed.

Lemma write_file_quiet (p : path) (data : string) :
  respects quiet_growth (write_file E p data).
Proof.
  intros s r s'. rewrite write_file_eq. simpl.
  destruct (FS.write (wfault E p) p data (fs s)) as [[[] f]|] eqn:Hw;
    intros [= <- <-];
    split; unfold same_fetches, disk_grows; simpl;
    rewrite ?fetch_count_snoc; simpl; try lia; try done;
    intros q; by eapply write_grows.
Qed.

Lemma open_read_quiet (p : path) : respects quiet_growth (open_read p).
Proof.
  intros s r s'. unfold open_read, bind, emit, modify, get, raise, ret. simpl.
  destruct (FS.read p (fs s)); intros [= <- <-];
    split; unfold same_fetches, disk_grows; simpl;
    rewrite ?fetch_count_snoc; simpl; try lia; done.
Qed.

Lemma extract_entry_quiet (p : Plugina) (info : ZipInfo) :
  respects quiet_growth (extract_entry E p info).
Proof.
  unfold extract_entry.
  repeat first [apply mkdir_quiet | apply write_file_quiet | respects_step].
Qed.

Lemma extract_all_quiet (p : Plugina) (infos : list ZipInfo) :
  respects quiet_growth (extract_all E p infos).
Proof. unfold extract_all. respects_step. apply extract_entry_quiet. Qed.

Lemma quiet_one_fetch (s s' : St) : quiet_growth s s' -> one_fetch s s'.
Proof. intros [H1 H2]. split; [|done]. unfold same_fetches in H1. lia. Qed.

Lemma one_fetch_quiet (s s' s'' : St) :
  one_fetch s s' -> quiet_growth s' s'' -> one_fetch s s''.
Proof.
  intros [H1 G1] [H2 G2]. unfold same_fetches in H2.
  split; [lia|]. by etransitivity.
Qed.

Lemma quiet_then_one_fetch (s s' s'' : St) :
  quiet_growth s s' -> one_fetch s' s'' -> one_fetch s s''.
Proof.
  intros [H1 G1] [H2 G2]. unfold same_fetches in H1.
  split; [lia|]. by etransitivity.
Qed.

Lemma one_fetch_refl (s : St) : one_fetch s s.
Proof. split; [lia|done]. Qed.

Lemma http_read_one_fetch (u : string) : respects one_fetch (http_read E u).
Proof.
  intros s r s'. unfold http_read, bind, emit, modify, ret, raise. simpl.
  destruct (http_get E u); intros [= <- <-]; split; simpl;
    rewrite ?fetch_count_snoc; simpl; try lia; by intros q.
Qed.

Lemma fetch_archive_one_fetch (p : Plugina) (force : bool) :
  respects one_fetch (fetch_archive E p force).
Proof.
  unfold fetch_archive.
  apply (respects_bind_then quiet_growth one_fetch one_fetch);
    [respects_step| |apply one_fetch_refl
    |apply quiet_then_one_fetch].
  intros cached. destruct (cached && negb force).
  { intros s r s' H. apply quiet_one_fetch. by eapply open_read_quiet. }
  apply (respects_bind_then one_fetch quiet_growth one_fetch);
    [apply http_read_one_fetch| |reflexivity|apply one_fetch_quiet].
  intros raw.
  repeat first [apply mkdir_quiet | apply write_file_quiet | respects_step].
Qed.

Lemma download_rest_one_fetch (p : Plugina) (force : bool) :
  respects one_fetch
    (bytes <- fetch_archive E p force ;;
     infos <- zip_open E bytes ;;
     extract_all E p infos).
Proof.
  apply (respects_bind_then one_fetch quiet_growth one_fetch);
    [apply fetch_archive_one_fetch| |reflexivity|apply one_fetch_quiet].
  intros bytes. respects_step; [respects_step|].
  apply extract_all_quiet.
Qed.

(** [download_plugin], step by step. *)
Lemma download_plugin_eq (p : Plugina) (force : bool) (s : St) :
  download_plugin E p force s
  = if FS.exists_ (fs s) (abs_path E p) && negb force then (Ok tt, s)
    else
      let s1 := set_trace (trace s ++ [EvMkdir (abs_path E p)]) s in
      match FS.mkdir true (abs_path E p) (fs s) with
      | None => (Raise OSError, s1)
      | Some f => (bytes <- fetch_archive E p force ;;
                   infos <- zip_open E bytes ;;
                   extract_all E p infos) (set_fs f s1)
      end.
Proof.
  unfold download_plugin. unfold bind at 1. unfold path_exists at 1.
  unfold bind at 1, get at 1, ret at 1.
  destruct (FS.exists_ (fs s) (abs_path E p) && negb force); [done|].
  unfold bind at 1. rewrite mkdir_eq. simpl.
  by destruct (FS.mkdir true (abs_path E p) (fs s)).
Qed.

Lemma download_plugin_one_fetch (p : Plugina) (force : bool) :
  respects one_fetch (download_plugin E p force).
Proof.
  intros s r s'. rewrite download_plugin_eq.
  destruct (FS.exists_ (fs s) (abs_path E p) && negb force).
  { intros [= <- <-]. apply one_fetch_refl. }
  simpl. destruct (FS.mkdir true (abs_path E p) (fs s)) as [f|] eqn:Hm.
  - intros H. apply download_rest_one_fetch in H. destruct H as [H1 H2].
    simpl in H1. rewrite fetch_count_snoc in H1. simpl in H1.
    split; [lia|]. intros q Hq. apply H2. simpl. by eapply mkdir_grows.
  - intros [= <- <-]. split; simpl; [rewrite fetch_count_snoc; simpl; lia|].
    by intros q.
Qed.

Lemma download_plugin_noop (p : Plugina) (s : St) :
  FS.exists_ (fs s) (abs_path E p) = true ->
  download_plugin E p false s = (Ok tt, s).
Proof. intros H. rewrite download_plugin_eq, H. done. Qed.

(** Once the install directory has been made, it is there whatever
    happens to the rest of the call. *)
Lemma download_plugin_leaves_dir (p : Plugina) (force : bool) (s s' : St)
  (r : outcome unit) (f : gmap path node) :
  FS.mkdir true (abs_path E p) (fs s) = Some f ->
  download_plugin E p force s = (r, s') ->
  FS.exists_ (fs s') (abs_path E p) = true.
Proof.
  intros Hm. rewrite download_plugin_eq, Hm.
  destruct (FS.exists_ (fs s) (abs_path E p) && negb force) eqn:Hx.
  - intros [= <- <-]. by apply andb_true_iff in Hx as [-> _].
  - intros H. apply download_rest_one_fetch in H as [_ H]. apply H.
    simpl. by eapply mkdir_exists.
Qed.

(** C3. Two calls of [download_plugin] without [force], one after the
    other, make at most one request between them; a call that finds the
    install directory returns at once and leaves the whole state (disk,
    trace of requests, reads and writes) as it was; and after a call that
    returned, the next is such a call. *)
Theorem download_twice_fetches_once (p : Plugina) (s : St) :
  let s1 := (download_plugin E p false s).2 in
  let s2 := (download_plugin E p false s1).2 in
  fetch_count (trace s2) <= fetch_count (trace s) + 1 /\
  (FS.exists_ (fs s) (abs_path E p) = true ->
   download_plugin E p false s = (Ok tt, s)) /\
  ((download_plugin E p false s).1 = Ok tt ->
   download_plugin E p false s1 = (Ok tt, s1)).
Proof.
  intros s1 s2. split; [|split].
  - destruct (download_plugin E p false s) as [r1 s1'] eqn:H1.
    destruct (download_plugin E p false s1') as [r2 s2'] eqn:H2.
    subst s1 s2. simpl. rewrite H2. simpl.
    destruct (FS.exists_ (fs s) (abs_path E p)) eqn:Hx.
    + rewrite (download_plugin_noop p s Hx) in H1. injection H1 as <- <-.
      rewrite (download_plugin_noop p s Hx) in H2. injection H2 as <- <-. lia.
    + destruct (FS.mkdir true (abs_path E p) (fs s)) as [f|] eqn:Hm.
      * pose proof (download_plugin_leaves_dir _ _ _ _ _ _ Hm H1) as Hx1.
        rewrite (download_plugin_noop p s1' Hx1) in H2. injection H2 as <- <-.
        by apply download_plugin_one_fetch in H1 as [H1 _].
      * rewrite download_plugin_eq, Hx, Hm in H1. injection H1 as <- <-.
        apply download_plugin_one_fetch in H2 as [H2 _]. simpl in H2.
        rewrite fetch_count_snoc in H2. simpl in H2. lia.
  - apply download_plugin_noop.
  - destruct (download_plugin E p false s) as [r1 s1'] eqn:H1. subst s1.
    simpl. intros ->. apply download_plugin_noop.
    destruct (FS.exists_ (fs s) (abs_path E p)) eqn:Hx.
    + rewrite (download_plugin_noop p s Hx) in H1. by injection H1 as <-.
    + destruct (FS.mkdir true (abs_path E p) (fs s)) as [f|] eqn:Hm.
      * by eapply download_plugin_leaves_dir.
      * by rewrite download_plugin_eq, Hx, Hm in H1.
Qed.

(** ** The cache *)





(** ** Paths of archive entries *)

Lemma split_fields_free (c : ascii) (s : string) :
  Forall (fun w => Str.contains c w = false) (Str.split c s).
Proof.
  induction s as [|a s IH]; simpl.
  - by constructor.
  - destruct (Ascii.eqb a c) eqn:Hac.
    + by constructor.
    + destruct (Str.split c s) as [|w ws].
      * constructor; [|done]. simpl. by rewrite Hac.
      * inversion IH as [|? ? Hw Hws]; subst. constructor; [|done].
        simpl. by rewrite Hac.
Qed.

Lemma split_no_sep (c : ascii) (w : string) :
  Str.contains c w = false -> Str.split c w = [w].
Proof.
  induction w as [|a w IH]; simpl; [done|].
  intros H. apply orb_false_iff in H as [Ha Hw]. rewrite Ha, (IH Hw). done.
Qed.

Lemma leading_no_sep (c : ascii) (w : string) :
  Str.contains c w = false -> Str.leading c w = 0.
Proof.
  destruct w as [|a w]; simpl; [done|].
  intros H. apply orb_false_iff in H as [Ha _]. by rewrite Ha.
Qed.

Lemma segment_not_root (w : string) : segment w -> Path.is_root w = false.
Proof.
  intros [Hs _]. unfold Path.is_root.
  destruct (String.eqb_spec w "/") as [->|_]; [done|].
  destruct (String.eqb_spec w "//") as [->|_]; done.
Qed.

Lemma parts_segment (w : string) : segment w -> Path.parts w = [w].
Proof.
  intros [Hs Hc]. unfold Path.parts, Path.root.
  rewrite (leading_no_sep _ _ Hs), (split_no_sep _ _ Hs). simpl.
  by rewrite Hc.
Qed.

Lemma filter_clean_segments (s : string) :
  Forall segment (List.filter Path.clean (Str.split Str.slash s)).
Proof.
  pose proof (split_fields_free Str.slash s) as H.
  induction H as [|w ws Hw Hws IH]; simpl; [done|].
  destruct (Path.clean w) eqn:Hc; [|done]. by constructor.
Qed.

(** Past its first part, a path is made of segments. *)
Lemma parts_tail_segments (s : string) (n : nat) :
  Forall segment (drop (S n) (Path.parts s)).
Proof.
  unfold Path.parts. pose proof (filter_clean_segments s) as H.
  destruct (Path.root s); simpl; by apply Forall_drop.
Qed.

Lemma join_segments (p : path) (segs : list string) :
  Forall segment segs -> Path.join p segs = p ++ segs.
Proof.
  unfold Path.join. intros [|w ws Hw _]; simpl; [done|].
  by rewrite (segment_not_root w Hw).
Qed.

Lemma fold_div_segments (segs : list string) (acc : path) :
  Forall segment segs -> fold_left Path.div segs acc = acc ++ segs.
Proof.
  intros H. revert acc. induction H as [|w ws Hw _ IH]; intros acc; simpl.
  - by rewrite app_nil_r.
  - rewrite IH. unfold Path.div. rewrite (parts_segment w Hw).
    rewrite (join_segments acc [w]) by (by constructor).
    by rewrite <- app_assoc.
Qed.

Lemma of_parts_segments (segs : list string) :
  Forall segment segs -> Path.of_parts segs = segs.
Proof. intros H. unfold Path.of_parts. by rewrite fold_div_segments. Qed.

(** The path [extract_entry] computes is the install directory followed by
    the entry's path without its first two segments. *)
Lemma plugin_path_target (p : Plugina) (info : ZipInfo) :
  Path.join (abs_path E p)
            (Path.of_parts (drop 2 (Path.parts (filename info))))
  = target E p info.
Proof.
  pose proof (parts_tail_segments (filename info) 1) as H.
  unfold target. by rewrite (of_parts_segments _ H), (join_segments _ _ H).
Qed.

(** The test of [extract_entry] is the selection of the specification. *)
Lemma selected_test (p : Plugina) (info : ZipInfo) :
  (3 <=? length (Path.parts (filename info)))%nat
  && String.eqb (nth 1 (Path.parts (filename info)) "") (name p)
  = selected p info.
Proof.
  unfold selected. set (parts := Path.parts (filename info)).
  destruct (3 <=? length parts)%nat eqn:Hl; simpl.
  - apply Nat.leb_le in Hl.
    destruct parts as [|a [|b parts']]; simpl in *; try lia.
    destruct (String.eqb_spec b (name p)) as [->|Hne].
    + symmetry. apply bool_decide_eq_true. split; [lia|done].
    + symmetry. apply bool_decide_eq_false. intros [_ [= ?]]. done.
  - apply Nat.leb_gt in Hl. symmetry. apply bool_decide_eq_false. lia.
Qed.

Lemma extract_entry_eq (p : Plugina) (info : ZipInfo) :
  extract_entry E p info
  = if selected p info then
      if ZipInfo_is_dir info then mkdir true (target E p info)
      else mkdir true (Path.parent (target E p info)) ;;;
           write_file E (target E p info) (content info)
    else ret tt.
Proof.
  unfold extract_entry. by rewrite selected_test, plugin_path_target.
Qed.

(** ** Extraction *)

(** What one entry adds to the trace: its events when it is selected,
    nothing otherwise. *)
Lemma extract_entry_trace (p : Plugina) (info : ZipInfo) (s s' : St)
  (r : outcome unit) :
  extract_entry E p info s = (r, s') ->
  exists evs,
    trace s' = trace s ++ evs /\
    evs `prefix_of` (if selected p info then entry_events E p info else []) /\
    (r = Ok tt -> evs = if selected p info then entry_events E p info else []).
Proof.
  rewrite extract_entry_eq. unfold entry_events.
  destruct (selected p info).
  - destruct (ZipInfo_is_dir info).
    + rewrite mkdir_eq. simpl.
      destruct (FS.mkdir true (target E p info) (fs s));
        intros [= <- <-]; eexists; simpl; split; done.
    + unfold bind. rewrite mkdir_eq. simpl.
      destruct (FS.mkdir true (Path.parent (target E p info)) (fs s)).
      * rewrite write_file_eq. simpl.
        destruct (FS.write _ _ _ _) as [[[] f]|]; intros [= <- <-];
          eexists; simpl; rewrite <- app_assoc; simpl; split; done.
      * intros [= <- <-]. eexists. simpl. split; [done|]. split; [|done].
        by eexists [_].
  - intros [= <- <-]. exists []. by rewrite app_nil_r.
Qed.

Lemma extract_all_trace (p : Plugina) (infos : list ZipInfo) (s s' : St)
  (r : outcome unit) :
  extract_all E p infos s = (r, s') ->
  exists evs,
    trace s' = trace s ++ evs /\
    evs `prefix_of`
      flat_map (entry_events E p) (List.filter (selected p) infos) /\
    (r = Ok tt ->
     evs = flat_map (entry_events E p) (List.filter (selected p) infos)).
Proof.
  unfold extract_all. revert s. induction infos as [|x l IH]; intros s; simpl.
  - intros [= <- <-]. exists []. by rewrite app_nil_r.
  - unfold bind. destruct (extract_entry E p x s) as [[[]|e] s1] eqn:Hx.
    + destruct (extract_entry_trace _ _ _ _ _ Hx) as (ev1 & Ht1 & _ & Hf1).
      specialize (Hf1 eq_refl). intros Hl.
      destruct (IH _ Hl) as (ev2 & Ht2 & Hp2 & Hf2).
      exists (ev1 ++ ev2). rewrite Ht2, Ht1, <- app_assoc. split; [done|].
      subst ev1. destruct (selected p x); simpl.
      * split; [by apply prefix_app|]. intros Hr. by rewrite (Hf2 Hr).
      * done.
    + intros [= <- <-].
      destruct (extract_entry_trace _ _ _ _ _ Hx) as (ev1 & Ht1 & Hp1 & _).
      exists ev1. split; [done|]. split; [|done].
      etransitivity; [exact Hp1|].
      destruct (selected p x); simpl; [by apply prefix_app_r|apply prefix_nil].
Qed.


(** What [download_plugin] walks is the list of entries of the archive
    bytes it fetched: a call that does its work and returns has fetched
    some bytes and carried out the events of their selected entries. *)
Lemma download_plugin_extracts (p : Plugina) (force : bool) (s s' : St) :
  FS.exists_ (fs s) (abs_path E p) && negb force = false ->
  download_plugin E p force s = (Ok tt, s') ->
  exists (f : gmap path node) (bytes : string) (s2 : St) (infos : list ZipInfo),
    FS.mkdir true (abs_path E p) (fs s) = Some f /\
    fetch_archive E p force
      (set_fs f (set_trace (trace s ++ [EvMkdir (abs_path E p)]) s))
    = (Ok bytes, s2) /\
    zip_infolist E bytes = Some infos /\
    trace s' = trace s2 ++ flat_map (entry_events E p)
                             (List.filter (selected p) infos).
Proof.
  intros Hx. rewrite download_plugin_eq, Hx. simpl.
  destruct (FS.mkdir true (abs_path E p) (fs s)) as [f|]; [|done].
  unfold bind at 1.
  destruct (fetch_archive E p force _) as [[bytes|e] s2] eqn:Hf; [|done].
  unfold bind, zip_open.
  destruct (zip_infolist E bytes) as [infos|] eqn:Hz; [|done].
  unfold ret. intros Hl. exists f, bytes, s2, infos.
  destruct (extract_all_trace _ _ _ _ _ Hl) as (evs & Ht & _ & Hfull).
  by rewrite Ht, (Hfull eq_refl).
Qed.

(** ** The loaded set *)

(** A load that fails, for a missing entry file, a failed installation of
    the requirements or an error of the extension loader, leaves the loaded
    set and the host's extensions as they were. *)
Lemma load_plugin_raise_keeps_loaded (p : Plugina) (s s' : St) (e : exn) :
  load_plugin E p s = (Raise e, s') ->
  loaded_plugins s' = loaded_plugins s /\ extensions s' = extensions s.
Proof.
  rewrite load_plugin_eq.
  destruct (negb (FS.exists_ (fs s) (entry_file E p))); [by intros [= _ <-]|].
  destruct (FS.exists_ (fs s) (requirements_txt E p)).
  - simpl. destruct (negb (String.eqb _ "")); [by intros [= _ <-]|].
    intros H. apply load_into_host_cases in H as (_ & _ & _ & [[? _]|[_ ->]]);
      [done|]. by destruct (FS.exists_ (fs s) (Path.parts (USER_SITE E))).
  - intros H. by apply load_into_host_cases in H as (_ & _ & _ & [[? _]|[_ ->]]).
Qed.

(** A load that succeeds adds the reference to the loaded set and its
    extension to the host. *)
Lemma load_plugin_ok_adds (p : Plugina) (s s' : St) :
  load_plugin E p s = (Ok tt, s') ->
  loaded_plugins s' = {[p]} ∪ loaded_plugins s /\
  extensions s' = {[ext_string p]} ∪ extensions s.
Proof.
  rewrite load_plugin_eq.
  destruct (negb (FS.exists_ (fs s) (entry_file E p))); [done|].
  destruct (FS.exists_ (fs s) (requirements_txt E p)).
  - simpl. destruct (negb (String.eqb _ "")); [done|].
    intros H. apply load_into_host_cases in H as (_ & _ & _ & [(_ & -> & ->)|[? _]]);
      [|done]. by destruct (FS.exists_ (fs s) (Path.parts (USER_SITE E))).
  - intros H.
    by apply load_into_host_cases in H as (_ & _ & _ & [(_ & -> & ->)|[? _]]).
Qed.

(** In a bulk update the first plugin whose update raises ends the loop:
    the exception leaves [plugins_update] and the plugins configured after
    it are not visited. *)
Lemma plugins_update_stops (done_ rest : list string) (n : string)
  (s s1 s2 : St) (e : exn) :
  config_plugins s = done_ ++ n :: rest ->
  for_each (update_plugin E) done_ s = (Ok tt, s1) ->
  update_plugin E n s1 = (Raise e, s2) ->
  plugins_update E None s = (Raise e, s2).
Proof.
  intros Hc Hd Hn. unfold plugins_update, bind, get. rewrite Hc.
  by eapply for_each_raise.
Qed.

(** ** The readiness gate *)

Lemma ready_set_count_snoc (t : list Event) (e : Event) :
  ready_set_count (t ++ [e])
  = ready_set_count t + (if is_ready_set e then 1 else 0).
Proof.
  unfold ready_set_count. rewrite List.filter_app, length_app. simpl.
  by destruct (is_ready_set e).
Qed.

Lemma ready_set_count_app (t1 t2 : list Event) :
  ready_set_count (t1 ++ t2) = ready_set_count t1 + ready_set_count t2.
Proof. unfold ready_set_count. by rewrite List.filter_app, length_app. Qed.

Lemma respects_weaken {A} (R1 R2 : relation St) (m : M A) :
  (forall s s', R1 s s' -> R2 s s') -> respects R1 m -> respects R2 m.
Proof. intros HR Hm s r s' H. apply HR. by eapply Hm. Qed.

Lemma quiet_gate_kept {A} (m : M A) :
  respects quiet_gate m -> respects gate_kept m.
Proof. apply respects_weaken. by intros s s' [H _]. Qed.

Create HintDb gate discriminated.
Create HintDb gate_ops.

#[local] Hint Unfold emit send edit config_update : gate_ops.
#[local] Hint Unfold mkdir open_read write_file http_read subprocess_shell
  load_extension unload_extension loaded_remove rmtree rmdir
  config_append config_remove : gate_ops.

(** The state after a primitive update is related to the one before. *)
Ltac gate_prim :=
  unfold quiet_gate, gate_kept; simpl;
  rewrite ?ready_set_count_snoc; simpl;
  repeat split; first [lia | done].

Ltac gate_step :=
  first [ solve [auto with gate nocore]
        | respects_step
        | progress autounfold with gate_ops
        | solve [gate_prim] ].

Ltac gate_go := repeat gate_step.

Lemma fetch_registry_gate (u : string) : respects quiet_gate (fetch_registry E u).
Proof. unfold fetch_registry. gate_go. Qed.

Lemma extract_entry_gate (p : Plugina) (info : ZipInfo) :
  respects quiet_gate (extract_entry E p info).
Proof. unfold extract_entry. gate_go. Qed.

#[local] Hint Resolve fetch_registry_gate extract_entry_gate : gate.

Lemma fetch_archive_gate (p : Plugina) (force : bool) :
  respects quiet_gate (fetch_archive E p force).
Proof. unfold fetch_archive. gate_go. Qed.

#[local] Hint Resolve fetch_archive_gate : gate.

Lemma download_plugin_gate (p : Plugina) (force : bool) :
  respects quiet_gate (download_plugin E p force).
Proof. unfold download_plugin, extract_all. gate_go. Qed.

Lemma load_into_host_gate (p : Plugina) : respects quiet_gate (load_into_host E p).
Proof. unfold load_into_host. gate_go. Qed.

#[local] Hint Resolve download_plugin_gate load_into_host_gate : gate.

Lemma load_plugin_gate (p : Plugina) : respects quiet_gate (load_plugin E p).
Proof. unfold load_plugin. gate_go. Qed.

Lemma parse_user_input_gate (plugin_name : string) (cv : bool) :
  respects quiet_gate (parse_user_input E plugin_name cv).
Proof. unfold parse_user_input. gate_go. Qed.

#[local] Hint Resolve load_plugin_gate parse_user_input_gate : gate.
#[local] Hint Resolve quiet_gate_kept : gate.

Lemma plugins_add_gate (plugin_name : string) :
  respects gate_kept (plugins_add E plugin_name).
Proof. unfold plugins_add. gate_go. Qed.

Lemma plugins_remove_gate (plugin_name : string) :
  respects gate_kept (plugins_remove E plugin_name).
Proof. unfold plugins_remove. gate_go. Qed.

Lemma update_plugin_gate (plugin_name : string) :
  respects quiet_gate (update_plugin E plugin_name).
Proof. unfold update_plugin. gate_go. Qed.

#[local] Hint Resolve update_plugin_gate : gate.

Lemma plugins_update_gate (plugin_name : option string) :
  respects quiet_gate (plugins_update E plugin_name).
Proof. unfold plugins_update. gate_go. Qed.

Lemma plugins_loaded_gate : respects quiet_gate (plugins_loaded E).
Proof. unfold plugins_loaded. gate_go. Qed.

(** No command touches the readiness event. *)
Lemma run_command_gate (c : Command) : respects gate_kept (run_command E c).
Proof.
  destruct c; simpl; unfold populate_registry, populate_vregistry;
    auto using plugins_add_gate, plugins_remove_gate, quiet_gate_kept,
      plugins_update_gate, plugins_loaded_gate, fetch_registry_gate.
Qed.

(** *** The start-up pass always completes *)

Lemma list_remove_perm (x : string) (l l' : list string) :
  list_remove x l = Some l' -> l ≡ₚ x :: l'.
Proof.
  revert l'. induction l as [|y l IH]; intros l'; simpl; [done|].
  destruct (String.eqb_spec x y) as [->|Hne].
  - by intros [= ->].
  - destruct (list_remove x l) as [r|]; [|done]. intros [= <-].
    rewrite (IH r eq_refl). apply perm_swap.
Qed.

Lemma list_remove_elem (x : string) (l : list string) :
  x ∈ l -> is_Some (list_remove x l).
Proof.
  induction l as [|y l IH]; simpl; [by intros ?%elem_of_nil|].
  intros Hin. destruct (String.eqb_spec x y) as [->|Hne]; [by eexists|].
  apply elem_of_cons in Hin as [?|Hin]; [done|].
  destruct (IH Hin) as [r ->]. by eexists.
Qed.

Lemma removable_self (l : list string) : removable l l.
Proof.
  unfold removable. induction l as [|x l IH]; simpl; [done|].
  destruct (negb (is_strict x)).
  - by apply submseteq_skip.
  - by apply submseteq_cons.
Qed.

Lemma removable_strict (x : string) (l cfg : list string) :
  is_strict x = true -> removable (x :: l) cfg -> removable l cfg.
Proof. unfold removable. simpl. by intros ->. Qed.

(** A name that is not strict can be removed, and the names after it can
    be removed from what remains. *)
Lemma removable_remove (x : string) (l cfg : list string) :
  is_strict x = false -> removable (x :: l) cfg ->
  exists cfg', list_remove x cfg = Some cfg' /\ removable l cfg'.
Proof.
  unfold removable. simpl. intros -> Hsub. simpl in Hsub.
  assert (x ∈ cfg) as Hin.
  { eapply elem_of_submseteq; [|exact Hsub]. apply elem_of_cons. by left. }
  destruct (list_remove_elem x cfg Hin) as [cfg' Hr].
  exists cfg'. split; [done|].
  rewrite (list_remove_perm _ _ _ Hr) in Hsub.
  by apply (submseteq_app_inv_l _ _ [x]) in Hsub.
Qed.

Lemma removable_app (l cfg extra : list string) :
  removable l cfg -> removable l (cfg ++ extra).
Proof.
  unfold removable. intros H. etransitivity; [exact H|].
  by apply submseteq_inserts_r.
Qed.

Lemma config_remove_eq (x : string) (s : St) :
  config_remove x s
  = match list_remove x (config_plugins s) with
    | Some l => (Ok tt, set_config_plugins l s)
    | None => (Raise ValueError, s)
    end.
Proof.
  unfold config_remove, bind, get, modify, raise.
  by destruct (list_remove x (config_plugins s)).
Qed.

Lemma initial_check_eq (x : string) (s : St) :
  initial_check x s
  = if is_strict x then (Ok tt, s)
    else match list_remove x (config_plugins s) with
         | Some l => (Ok tt, set_config_plugins l s)
         | None => (Raise ValueError, s)
         end.
Proof.
  unfold initial_check, is_strict. destruct (from_string x true); [done|].
  unfold bind. rewrite config_remove_eq.
  destruct (list_remove x (config_plugins s)); [|done].
  by destruct (from_string x false).
Qed.

Lemma initial_check_loop (l : list string) (s : St) :
  removable l (config_plugins s) ->
  exists s', for_each initial_check l s = (Ok tt, s') /\ gate_kept s s'.
Proof.
  revert s. induction l as [|x l IH]; intros s Hr; simpl.
  - by exists s.
  - unfold bind. rewrite initial_check_eq.
    destruct (is_strict x) eqn:Hx.
    + apply removable_strict in Hr; [|done]. by apply IH.
    + apply removable_remove in Hr as (cfg' & Hrem & Hr'); [|done].
      rewrite Hrem.
      destruct (IH (set_config_plugins cfg' s) Hr') as (s' & -> & Hg).
      by exists s'.
Qed.

Lemma fetch_and_load_ok (p : Plugina) (s : St) :
  exists s', fetch_and_load E p s = (Ok tt, s') /\ quiet_gate s s'.
Proof.
  assert (respects quiet_gate (download_plugin E p false ;;; load_plugin E p))
    as Hq by gate_go.
  unfold fetch_and_load. unfold bind at 1. unfold attempt.
  destruct ((download_plugin E p false ;;; load_plugin E p) s) as [r s'] eqn:H.
  exists s'. split; [done|]. by eapply Hq.
Qed.

Lemma initial_load_eq (x : string) (s : St) :
  initial_load E x s
  = match from_string x true with
    | Some p => fetch_and_load E p s
    | None =>
        match list_remove x (config_plugins s) with
        | None => (Raise ValueError, s)
        | Some l =>
            match from_string x false with
            | None => (Ok tt, set_config_plugins l s)
            | Some p =>
                fetch_and_load E p
                  (set_config_plugins (l ++ [Plugina_str p])
                                      (set_config_plugins l s))
            end
        end
    end.
Proof.
  unfold initial_load. destruct (from_string x true); [done|].
  unfold bind. rewrite config_remove_eq.
  destruct (list_remove x (config_plugins s)); [|done].
  by destruct (from_string x false).
Qed.

Lemma initial_load_loop (l : list string) (s : St) :
  removable l (config_plugins s) ->
  exists s', for_each (initial_load E) l s = (Ok tt, s') /\ gate_kept s s'.
Proof.
  revert s. induction l as [|x l IH]; intros s Hr; simpl.
  - by exists s.
  - unfold bind. rewrite initial_load_eq.
    destruct (from_string x true) as [p|] eqn:Hx.
    + apply removable_strict in Hr; [|unfold is_strict; by rewrite Hx].
      destruct (fetch_and_load_ok p s) as (s1 & -> & [Hg Hc]).
      rewrite <- Hc in Hr. destruct (IH s1 Hr) as (s' & -> & Hg').
      exists s'. split; [done|]. by transitivity s1.
    + apply removable_remove in Hr as (cfg' & Hrem & Hr');
        [|unfold is_strict; by rewrite Hx].
      rewrite Hrem.
      destruct (from_string x false) as [p|].
      * destruct (fetch_and_load_ok p
          (set_config_plugins (cfg' ++ [Plugina_str p])
                              (set_config_plugins cfg' s)))
          as (s1 & -> & [Hg Hc]).
        simpl in Hc.
        apply (removable_app _ _ [Plugina_str p]) in Hr'. rewrite <- Hc in Hr'.
        destruct (IH s1 Hr') as (s' & -> & Hg').
        exists s'. split; [done|]. etransitivity; [|exact Hg'].
        etransitivity; [|exact Hg]. done.
      * destruct (IH (set_config_plugins cfg' s) Hr') as (s' & -> & Hg).
        by exists s'.
Qed.

(** No exception leaves the two loops, and they leave the gate alone. *)
Lemma startup_pass_ok (s : St) :
  exists s', startup_pass E s = (Ok tt, s') /\ gate_kept s s'.
Proof.
  unfold startup_pass, bind, get.
  destruct (initial_check_loop (config_plugins s) s (removable_self _))
    as (s1 & -> & Hg1).
  destruct (initial_load_loop (config_plugins s1) s1 (removable_self _))
    as (s2 & -> & Hg2).
  exists s2. split; [done|]. by transitivity s1.
Qed.

(** The event is set once, right after the pass. *)
Lemma initial_load_plugins_ok (s : St) :
  exists s1,
    startup_pass E s = (Ok tt, s1) /\ gate_kept s s1 /\
    initial_load_plugins E s
    = (Ok tt, set_trace (trace s1 ++ [EvReadySet; EvConfigUpdate])
                        (set_ready true s1)).
Proof.
  destruct (startup_pass_ok s) as (s1 & Hp & Hg). exists s1.
  split; [done|]. split; [done|].
  unfold initial_load_plugins, bind. rewrite Hp.
  unfold config_update, emit, modify. simpl. by rewrite <- app_assoc.
Qed.

(** *** The gate over the life of the process *)

Lemma boot_not_ready (b : Bot) : ready (boot E b) = false.
Proof.
  unfold boot, Plugin_init, bind, modify, create_task, ret. simpl.
  by destruct (enable_plugins E).
Qed.

Lemma boot_gate (b : Bot) :
  enable_plugins E = true -> gate_invariant (boot E b).
Proof.
  intros He. left. unfold boot, Plugin_init, bind, modify, create_task, ret.
  simpl. by rewrite He.
Qed.

Lemma gate_kept_invariant (s s' : St) :
  gate_kept s s' -> gate_invariant s -> gate_invariant s'.
Proof.
  unfold gate_kept, gate_invariant, pending_startup.
  intros (-> & -> & ->). done.
Qed.

Lemma pending_startup_without (t : Task) (before after : list Task) (s : St) :
  tasks s = before ++ t :: after ->
  pending_startup s
  = pending_startup (set_tasks (before ++ after) s)
    + (if bool_decide (t = TaskInitialLoadPlugins) then 1 else 0).
Proof.
  unfold pending_startup. simpl. intros ->.
  rewrite !List.filter_app, !length_app. simpl.
  destruct (bool_decide (t = TaskInitialLoadPlugins)); simpl; lia.
Qed.

Lemma gate_invariant_without (t : Task) (before after : list Task) (s : St) :
  tasks s = before ++ t :: after -> t <> TaskInitialLoadPlugins ->
  gate_invariant s -> gate_invariant (set_tasks (before ++ after) s).
Proof.
  intros Ht Hne. pose proof (pending_startup_without t before after s Ht) as Hp.
  rewrite bool_decide_eq_false_2 in Hp by done.
  unfold gate_invariant. simpl. by rewrite Hp, Nat.add_0_r.
Qed.

Lemma step_gate (s s' : St) :
  step E s s' -> gate_invariant s -> gate_invariant s'.
Proof.
  intros [c s0|t before after s0 Ht] Hinv.
  - destruct (run_command E c s0) as [r s1] eqn:Hc. simpl.
    eapply gate_kept_invariant; [|done]. by eapply run_command_gate.
  - destruct t; simpl.
    + destruct (populate_registry E _) as [r s2] eqn:Hc. simpl.
      apply fetch_registry_gate in Hc as [Hg _].
      eapply gate_kept_invariant; [exact Hg|].
      by eapply gate_invariant_without.
    + destruct (populate_vregistry E _) as [r s2] eqn:Hc. simpl.
      apply fetch_registry_gate in Hc as [Hg _].
      eapply gate_kept_invariant; [exact Hg|].
      by eapply gate_invariant_without.
    + pose proof (pending_startup_without _ before after s0 Ht) as Hp.
      rewrite bool_decide_eq_true_2 in Hp by done.
      destruct (initial_load_plugins_ok (set_tasks (before ++ after) s0))
        as (s2 & _ & (Hr2 & Ht2 & Hc2) & ->).
      simpl in *. right. simpl.
      rewrite ready_set_count_app.
      destruct Hinv as [(_ & Hz & Hone)|(_ & _ & Hzero)];
        unfold pending_startup in *; simpl in *; rewrite Ht2; [|lia].
      rewrite Hc2, Hz. split; [done|]. split; [done|lia].
Qed.

Lemma reachable_gate (b : Bot) (s : St) :
  enable_plugins E = true -> reachable E b s -> gate_invariant s.
Proof.
  intros He Hr.
  apply (rtc_ind_r (R := step E) gate_invariant (boot E b));
    [|intros s1 s2 _ Hs IH|exact Hr].
  - by apply boot_gate.
  - by eapply step_gate.
Qed.

(** With plugins disabled no start-up pass is scheduled, and the event is
    never set. *)
Lemma disabled_never_ready (b : Bot) (s : St) :
  enable_plugins E = false -> reachable E b s ->
  ready s = false /\ ready_set_count (trace s) = 0 /\ pending_startup s = 0.
Proof.
  intros He Hr.
  apply (rtc_ind_r (R := step E)
           (fun s => ready s = false /\ ready_set_count (trace s) = 0 /\
                     pending_startup s = 0) (boot E b));
    [|intros s1 s2 _ Hs IH|exact Hr].
  - unfold boot, Plugin_init, bind, modify, create_task, ret. simpl.
    by rewrite He.
  - destruct IH as (Hr1 & Hc1 & Hp1).
    destruct Hs as [c s0|t before after s0 Ht].
    + destruct (run_command E c s0) as [r s1] eqn:Hc. simpl.
      apply run_command_gate in Hc as (-> & Htk & ->).
      unfold pending_startup in *. by rewrite Htk.
    + pose proof (pending_startup_without t before after s0 Ht) as Hp.
      destruct t; simpl in *; [| |lia].
      * destruct (populate_registry E _) as [r s2] eqn:Hc. simpl.
        apply fetch_registry_gate in Hc as [(-> & Htk & ->) _].
        unfold pending_startup in *. rewrite Htk. simpl in *. split; [done|].
        split; [done|lia].
      * destruct (populate_vregistry E _) as [r s2] eqn:Hc. simpl.
        apply fetch_registry_gate in Hc as [(-> & Htk & ->) _].
        unfold pending_startup in *. rewrite Htk. simpl in *. split; [done|].
        split; [done|lia].
Qed.

Lemma plugins_loaded_eq (s : St) :
  plugins_loaded E s
  = (Ok tt,
     set_trace
       (trace s ++
        [EvSend (if negb (enable_plugins E) then MsgPluginsDisabled
                 else if negb (ready s) then MsgStillLoading
                 else if bool_decide (loaded_plugins s = ∅) then MsgNoneLoaded
                 else MsgLoaded (loaded_plugins s))]) s).
Proof.
  unfold plugins_loaded, bind, get, send, emit, modify.
  destruct (enable_plugins E); simpl; [|done].
  destruct (ready s); simpl; [|done].
  by destruct (bool_decide (loaded_plugins s = ∅)).
Qed.

(** C9, amended. The readiness event is unset when the cog is built. With
    plugin loading enabled: in every state the process reaches, the event
    has been set once if the start-up coroutine has run and never if it is
    still scheduled; the one [set()] comes right after the pass over the
    configured plugins, which always completes; and while the event is
    unset the list of loaded plugins is answered by the still-loading
    message. With plugin loading disabled, that command answers with the
    plugins-disabled message. *)
Theorem readiness_gate (b : Bot) (s : St) :
  reachable E b s ->
  ready (boot E b) = false /\
  (enable_plugins E = true ->
   ready_set_count (trace s) = (if ready s then 1 else 0) /\
   pending_startup s = (if ready s then 0 else 1) /\
   (ready s = false ->
    plugins_loaded E s
    = (Ok tt, set_trace (trace s ++ [EvSend MsgStillLoading]) s))) /\
  (enable_plugins E = false ->
   plugins_loaded E s
   = (Ok tt, set_trace (trace s ++ [EvSend MsgPluginsDisabled]) s)) /\
  (forall s0, exists s1,
     startup_pass E s0 = (Ok tt, s1) /\ gate_kept s0 s1 /\
     initial_load_plugins E s0
     = (Ok tt, set_trace (trace s1 ++ [EvReadySet; EvConfigUpdate])
                         (set_ready true s1))).
Proof.
  intros Hr. split; [apply boot_not_ready|]. split; [|split].
  - intros He. pose proof (reachable_gate b s He Hr) as Hg.
    split; [|split].
    + by destruct Hg as [(-> & -> & _)|(-> & -> & _)].
    + by destruct Hg as [(-> & _ & ->)|(-> & _ & ->)].
    + intros Hn. by rewrite plugins_loaded_eq, He, Hn.
  - intros He. by rewrite plugins_loaded_eq, He.
  - apply initial_load_plugins_ok.
Qed.

(** ** Reading references back from text *)

Lemma append_nil_l (a : string) : "" +:+ a = a.
Proof. reflexivity. Qed.

Lemma append_cons (c : ascii) (a b : string) :
  String c a +:+ b = String c (a +:+ b).
Proof. reflexivity. Qed.

Lemma append_nil_r (a : string) : a +:+ "" = a.
Proof.
  induction a as [|c a IH]; [done|]. by rewrite append_cons, IH.
Qed.

Lemma append_assoc (a b c : string) : (a +:+ b) +:+ c = a +:+ (b +:+ c).
Proof.
  induction a as [|x a IH]; [done|]. by rewrite !append_cons, IH.
Qed.

Lemma contains_append (c : ascii) (a b : string) :
  Str.contains c (a +:+ b) = Str.contains c a || Str.contains c b.
Proof.
  induction a as [|x a IH]; [done|]. rewrite append_cons. simpl.
  by rewrite IH, orb_assoc.
Qed.

Lemma lazy_from_eq {A} (pre s : string) (k : string -> string -> option A) :
  Re.lazy_from pre s k
  = match k pre s with
    | Some r => Some r
    | None =>
        match s with
        | EmptyString => None
        | String c s' =>
            if Str.is_newline c then None
            else Re.lazy_from (pre +:+ String c EmptyString) s' k
        end
    end.
Proof. by destruct s. Qed.

(** The lazy group stops at the first split its continuation accepts. *)
Lemma lazy_from_hit {A} (a : string) :
  forall (pre rest : string) (k : string -> string -> option A) (r : A),
    Str.contains Str.newline a = false ->
    (forall a1 a2, a = a1 +:+ a2 -> a2 <> "" ->
                   k (pre +:+ a1) (a2 +:+ rest) = None) ->
    k (pre +:+ a) rest = Some r ->
    Re.lazy_from pre (a +:+ rest) k = Some r.
Proof.
  induction a as [|c a IH]; intros pre rest k r Hn Hfail Hk;
    rewrite lazy_from_eq.
  - rewrite append_nil_r in Hk. rewrite append_nil_l. by rewrite Hk.
  - pose proof (Hfail "" (String c a) eq_refl) as H0.
    rewrite append_nil_r in H0. rewrite H0 by done.
    rewrite append_cons. simpl in Hn.
    apply orb_false_iff in Hn as [Hc Hn]. unfold Str.is_newline. rewrite Hc.
    apply IH; [done| |].
    + intros a1 a2 -> Ha2. rewrite append_assoc, append_cons, append_nil_l.
      by apply (Hfail (String c a1) a2).
    + by rewrite append_assoc, append_cons, append_nil_l.
Qed.

Lemma lazy_plus_hit {A} (a rest : string) (k : string -> string -> option A)
  (r : A) :
  a <> "" -> Str.contains Str.newline a = false ->
  (forall a1 a2, a = a1 +:+ a2 -> a1 <> "" -> a2 <> "" ->
                 k a1 (a2 +:+ rest) = None) ->
  k a rest = Some r ->
  Re.lazy_plus (a +:+ rest) k = Some r.
Proof.
  destruct a as [|c a]; [done|]. intros _ Hn Hfail Hk.
  rewrite append_cons. simpl in *.
  apply orb_false_iff in Hn as [Hc Hn]. unfold Str.is_newline. rewrite Hc.
  apply lazy_from_hit; [done| |done].
  intros a1 a2 -> Ha2. by apply (Hfail (String c a1) a2).
Qed.

(** Where the continuation refuses every rest with property [P], and [P]
    passes to the tail of a text, the lazy group finds no match. *)
Lemma lazy_from_none {A} (P : string -> Prop) (s : string) :
  forall (pre : string) (k : string -> string -> option A),
    (forall c t, P (String c t) -> P t) ->
    (forall pre' t, P t -> k pre' t = None) ->
    P s -> Re.lazy_from pre s k = None.
Proof.
  induction s as [|c s IH]; intros pre k Htail Hk Hs; rewrite lazy_from_eq;
    rewrite (Hk _ _ Hs); [done|].
  destruct (Str.is_newline c); [done|]. apply IH; eauto.
Qed.

Lemma lazy_plus_none {A} (P : string -> Prop) (s : string)
  (k : string -> string -> option A) :
  (forall c t, P (String c t) -> P t) ->
  (forall pre' t, P t -> k pre' t = None) ->
  P s -> Re.lazy_plus s k = None.
Proof.
  intros Htail Hk Hs. destruct s as [|c s]; simpl; [done|].
  destruct (Str.is_newline c); [done|]. apply lazy_from_none with (P := P); eauto.
Qed.

Lemma lit_miss {A} (c : ascii) (a rest : string) (k : string -> option A) :
  a <> "" -> Str.contains c a = false -> Re.lit c (a +:+ rest) k = None.
Proof.
  destruct a as [|x a]; [done|]. rewrite append_cons. simpl. intros _ H.
  apply orb_false_iff in H as [Hx _]. by rewrite Hx.
Qed.

Lemma lit_absent {A} (c : ascii) (s : string) (k : string -> option A) :
  Str.contains c s = false -> Re.lit c s k = None.
Proof.
  destruct s as [|x s]; simpl; [done|]. intros H.
  apply orb_false_iff in H as [Hx _]. by rewrite Hx.
Qed.

Lemma at_end_false (a : string) :
  a <> "" -> Str.contains Str.newline a = false -> Re.at_end a = false.
Proof.
  destruct a as [|x [|y a]]; [done| |done]. simpl. intros _ H.
  apply orb_false_iff in H as [Hx _]. done.
Qed.

Lemma at_end_longer (a b : string) :
  a <> "" -> b <> "" -> Re.at_end (a +:+ b) = false.
Proof. destruct a as [|x [|y a]], b as [|z b]; done. Qed.

Lemma one_line_spec (s : string) :
  one_line s = true <-> s <> "" /\ Str.contains Str.newline s = false.
Proof.
  unfold one_line. rewrite andb_true_iff, !negb_true_iff.
  destruct (String.eqb_spec s ""); intuition congruence.
Qed.

Lemma Plugina_plain_spec (p : Plugina) :
  Plugina_plain p = true <->
  (user p <> "" /\ Str.contains Str.newline (user p) = false /\
   Str.contains Str.slash (user p) = false) /\
  (repo p <> "" /\ Str.contains Str.newline (repo p) = false /\
   Str.contains Str.slash (repo p) = false) /\
  (name p <> "" /\ Str.contains Str.newline (name p) = false /\
   Str.contains Str.at_sign (name p) = false) /\
  (branch p <> "" /\ Str.contains Str.newline (branch p) = false).
Proof.
  unfold Plugina_plain. rewrite !andb_true_iff, !negb_true_iff, !one_line_spec.
  tauto.
Qed.

Lemma lit_hit {A} (c : ascii) (s : string) (k : string -> option A) :
  Re.lit c (String c s) k = k s.
Proof. unfold Re.lit. by rewrite Ascii.eqb_refl. Qed.

Lemma contains_suffix (c : ascii) (a1 a2 : string) :
  Str.contains c (a1 +:+ a2) = false -> Str.contains c a2 = false.
Proof. rewrite contains_append. by intros [_ ?]%orb_false_iff. Qed.

Lemma match_strict_str (u r n b : string) :
  u <> "" -> Str.contains Str.newline u = false ->
  Str.contains Str.slash u = false ->
  r <> "" -> Str.contains Str.newline r = false ->
  Str.contains Str.slash r = false ->
  n <> "" -> Str.contains Str.newline n = false ->
  Str.contains Str.at_sign n = false ->
  b <> "" -> Str.contains Str.newline b = false ->
  Re.match_strict
    (u +:+ String Str.slash (r +:+ String Str.slash (n +:+ String Str.at_sign b)))
  = Some (u, r, n, Some b).
Proof.
  intros Hu0 Hun Hus Hr0 Hrn Hrs Hn0 Hnn Hna Hb0 Hbn. unfold Re.match_strict.
  apply lazy_plus_hit; [done|done| |].
  { intros a1 a2 -> _ Ha2. apply lit_miss; [done|]. by eapply contains_suffix. }
  rewrite lit_hit. apply lazy_plus_hit; [done|done| |].
  { intros a1 a2 -> _ Ha2. apply lit_miss; [done|]. by eapply contains_suffix. }
  rewrite lit_hit. apply lazy_plus_hit; [done|done| |].
  { intros a1 a2 -> _ Ha2. apply lit_miss; [done|]. by eapply contains_suffix. }
  rewrite lit_hit. rewrite <- (append_nil_r b) at 1.
  apply lazy_plus_hit; [done|done| |].
  { intros a1 a2 -> _ Ha2. rewrite append_nil_r.
    rewrite at_end_false; [done|done|]. by eapply contains_suffix. }
  done.
Qed.

Lemma match_lenient_str (u r n b : string) :
  u <> "" -> Str.contains Str.newline u = false ->
  Str.contains Str.slash u = false ->
  r <> "" -> Str.contains Str.newline r = false ->
  Str.contains Str.slash r = false ->
  n <> "" -> Str.contains Str.newline n = false ->
  Str.contains Str.at_sign n = false ->
  b <> "" -> Str.contains Str.newline b = false ->
  Re.match_lenient
    (u +:+ String Str.slash (r +:+ String Str.slash (n +:+ String Str.at_sign b)))
  = Some (u, r, n, Some b).
Proof.
  intros Hu0 Hun Hus Hr0 Hrn Hrs Hn0 Hnn Hna Hb0 Hbn. unfold Re.match_lenient.
  apply lazy_plus_hit; [done|done| |].
  { intros a1 a2 -> _ Ha2. apply lit_miss; [done|]. by eapply contains_suffix. }
  rewrite lit_hit. apply lazy_plus_hit; [done|done| |].
  { intros a1 a2 -> _ Ha2. apply lit_miss; [done|]. by eapply contains_suffix. }
  rewrite lit_hit. apply lazy_plus_hit; [done|done| |].
  { intros a1 a2 -> _ Ha2. rewrite lit_miss; [|done|by eapply contains_suffix].
    by rewrite at_end_longer. }
  rewrite lit_hit. rewrite <- (append_nil_r b) at 1.
  rewrite (lazy_plus_hit b "" _ (u, r, n, Some b)); [done|done|done| |done].
  intros a1 a2 -> _ Ha2. rewrite append_nil_r.
  rewrite at_end_false; [done|done|]. by eapply contains_suffix.
Qed.

(** The legacy form, without a branch. *)
Lemma match_lenient_legacy (u r n : string) :
  u <> "" -> Str.contains Str.newline u = false ->
  Str.contains Str.slash u = false ->
  r <> "" -> Str.contains Str.newline r = false ->
  Str.contains Str.slash r = false ->
  n <> "" -> Str.contains Str.newline n = false ->
  Str.contains Str.at_sign n = false ->
  Re.match_lenient (u +:+ String Str.slash (r +:+ String Str.slash n))
  = Some (u, r, n, None).
Proof.
  intros Hu0 Hun Hus Hr0 Hrn Hrs Hn0 Hnn Hna. unfold Re.match_lenient.
  apply lazy_plus_hit; [done|done| |].
  { intros a1 a2 -> _ Ha2. apply lit_miss; [done|]. by eapply contains_suffix. }
  rewrite lit_hit. apply lazy_plus_hit; [done|done| |].
  { intros a1 a2 -> _ Ha2. apply lit_miss; [done|]. by eapply contains_suffix. }
  rewrite lit_hit. rewrite <- (append_nil_r n) at 1.
  apply lazy_plus_hit; [done|done| |].
  { intros a1 a2 -> _ Ha2. rewrite append_nil_r.
    rewrite lit_absent by (by eapply contains_suffix).
    rewrite at_end_false; [done|done|]. by eapply contains_suffix. }
  done.
Qed.

(** Without an ['@'] nothing matches the strict pattern. *)
Lemma match_strict_needs_at (s : string) :
  Str.contains Str.at_sign s = false -> Re.match_strict s = None.
Proof.
  assert (forall c t, Str.contains Str.at_sign (String c t) = false ->
                      Str.contains Str.at_sign t = false) as Htail.
  { intros c t H. simpl in H. by apply orb_false_iff in H as [_ ?]. }
  intros Hs. unfold Re.match_strict.
  apply (lazy_plus_none (fun t => Str.contains Str.at_sign t = false));
    [done| |done].
  intros ? [|c1 r1] H1; [done|]. unfold Re.lit.
  destruct (Ascii.eqb c1 Str.slash); [|done].
  apply (lazy_plus_none (fun t => Str.contains Str.at_sign t = false));
    [done| |by eapply Htail].
  intros ? [|c2 r2] H2; [done|]. unfold Re.lit.
  destruct (Ascii.eqb c2 Str.slash); [|done].
  apply (lazy_plus_none (fun t => Str.contains Str.at_sign t = false));
    [done| |by eapply Htail].
  intros ? r5 H5. by apply lit_absent.
Qed.

(** Without a ['/'] nothing matches either pattern. *)
Lemma match_needs_slash (s : string) :
  Str.contains Str.slash s = false ->
  Re.match_strict s = None /\ Re.match_lenient s = None.
Proof.
  assert (forall c t, Str.contains Str.slash (String c t) = false ->
                      Str.contains Str.slash t = false) as Htail.
  { intros c t H. simpl in H. by apply orb_false_iff in H as [_ ?]. }
  intros Hs. split.
  - apply (lazy_plus_none (fun t => Str.contains Str.slash t = false));
      [done| |done].
    intros ? t Ht. by apply lit_absent.
  - apply (lazy_plus_none (fun t => Str.contains Str.slash t = false));
      [done| |done].
    intros ? t Ht. by apply lit_absent.
Qed.

Lemma Plugina_str_shape (p : Plugina) :
  Plugina_str p
  = user p +:+ String Str.slash
      (repo p +:+ String Str.slash (name p +:+ String Str.at_sign (branch p))).
Proof. reflexivity. Qed.

(** X1. The canonical form of a reference is read back as the reference,
    by the strict and by the lenient pattern alike, when its fields can be
    told apart: owner and repository without ['/'], name without ['@'],
    every field non-empty and without a newline. *)
Theorem from_string_of_str (p : Plugina) (strict : bool) :
  Plugina_plain p = true -> from_string (Plugina_str p) strict = Some p.
Proof.
  intros Hp.
  apply Plugina_plain_spec in Hp
    as ((Hu0 & Hun & Hus) & (Hr0 & Hrn & Hrs) & (Hn0 & Hnn & Hna) & Hb0 & Hbn).
  unfold from_string. rewrite Plugina_str_shape.
  rewrite match_strict_str, match_lenient_str by done.
  destruct p. by destruct strict.
Qed.

(** X2. The legacy form [owner/repo/name], without a branch, is read by the
    lenient pattern as the reference at branch ["master"], and refused by
    the strict pattern when it holds no ['@'] at all. *)
Theorem from_string_legacy (u r n : string) :
  one_line u = true -> Str.contains Str.slash u = false ->
  one_line r = true -> Str.contains Str.slash r = false ->
  one_line n = true -> Str.contains Str.at_sign n = false ->
  from_string (u +:+ "/" +:+ r +:+ "/" +:+ n) false
  = Some (mkPlugina u r n "master") /\
  (Str.contains Str.at_sign u = false -> Str.contains Str.at_sign r = false ->
   from_string (u +:+ "/" +:+ r +:+ "/" +:+ n) true = None).
Proof.
  intros [Hu0 Hun]%one_line_spec Hus [Hr0 Hrn]%one_line_spec Hrs
         [Hn0 Hnn]%one_line_spec Hna.
  change (u +:+ "/" +:+ r +:+ "/" +:+ n)
    with (u +:+ String Str.slash (r +:+ String Str.slash n)).
  unfold from_string. split.
  - simpl. by rewrite match_lenient_legacy.
  - intros Hua Hra. simpl. rewrite match_strict_needs_at; [done|].
    rewrite contains_append. simpl. rewrite contains_append. simpl.
    by rewrite Hua, Hra, Hna.
Qed.

(** X3. A text without any ['/'] is no reference under either pattern; a
    name of that kind that the catalog does not list is answered with the
    invalid-name message, and nothing else happens. *)
Theorem name_without_slash_is_invalid (plugin_name : string) (strict cv : bool)
  (s : St) :
  Str.contains Str.slash plugin_name = false ->
  from_string plugin_name strict = None /\
  (ready s = true -> registry s !! plugin_name = None ->
   parse_user_input E plugin_name cv s
   = (Ok None, set_trace (trace s ++ [EvSend MsgInvalidName]) s)).
Proof.
  intros Hs. destruct (match_needs_slash plugin_name Hs) as [Hst Hle].
  assert (forall b, from_string plugin_name b = None) as Hnone.
  { intros b. unfold from_string. destruct b; simpl; by rewrite ?Hst, ?Hle. }
  split; [done|]. intros Hr Hn.
  rewrite parse_user_input_free_text by done. by rewrite Hnone.
Qed.

(** ** The configured list across the start-up pass *)

Lemma list_remove_after (x : string) (pre l : list string) :
  x ∉ pre -> list_remove x (pre ++ x :: l) = Some (pre ++ l).
Proof.
  induction pre as [|y pre IH]; intros Hx; simpl.
  - by rewrite String.eqb_refl.
  - apply not_elem_of_cons in Hx as [Hne Hx].
    destruct (String.eqb_spec x y) as [->|_]; [done|]. by rewrite IH.
Qed.

(** The first loop removes the names that are not in the strict form, one
    after the other, and keeps the others in their order. *)
Lemma initial_check_loop_config (l : list string) :
  forall (kept : list string) (s : St),
    config_plugins s = kept ++ l ->
    Forall (fun x => is_strict x = true) kept ->
    for_each initial_check l s
    = (Ok tt, set_config_plugins (kept ++ List.filter is_strict l) s).
Proof.
  induction l as [|x l IH]; intros kept s Hc Hk; simpl.
  - rewrite app_nil_r in *. rewrite <- Hc. by destruct s.
  - unfold bind. rewrite initial_check_eq.
    destruct (is_strict x) eqn:Hx.
    + rewrite (IH (kept ++ [x]) s).
      * by rewrite <- app_assoc.
      * by rewrite <- app_assoc.
      * apply Forall_app. split; [done|]. by constructor.
    + rewrite Hc, list_remove_after.
      * by rewrite (IH kept (set_config_plugins (kept ++ l) s)).
      * intros Hin. rewrite Forall_forall in Hk. apply Hk in Hin. congruence.
Qed.

Lemma initial_load_loop_config (l : list string) :
  forall s : St,
    Forall (fun x => is_strict x = true) l ->
    exists s', for_each (initial_load E) l s = (Ok tt, s') /\
               config_plugins s' = config_plugins s.
Proof.
  induction l as [|x l IH]; intros s Hl; simpl.
  - by exists s.
  - inversion Hl as [|? ? Hx Hl']; subst. unfold bind.
    rewrite initial_load_eq. unfold is_strict in Hx.
    destruct (from_string x true) as [p|]; [|done].
    destruct (fetch_and_load_ok p s) as (s1 & -> & [_ Hc]).
    destruct (IH s1 Hl') as (s' & -> & Hc').
    exists s'. split; [done|]. congruence.
Qed.

Lemma filter_strict_all (l : list string) :
  Forall (fun x => is_strict x = true) (List.filter is_strict l).
Proof.
  apply Forall_forall. intros x Hx. apply list_elem_of_In in Hx.
  by apply List.filter_In in Hx as [_ ?].
Qed.

(** X4. The start-up pass never fails, and the configured list it leaves
    is the one it found without the names that are not in the strict form
    [owner/repo/name@branch]: such names (legacy ones included) are
    removed, and nothing is put in their place. *)
Theorem startup_keeps_strict_names (s : St) :
  (startup_pass E s).1 = Ok tt /\
  config_plugins (startup_pass E s).2
  = List.filter is_strict (config_plugins s) /\
  (initial_load_plugins E s).1 = Ok tt /\
  config_plugins (initial_load_plugins E s).2
  = List.filter is_strict (config_plugins s).
Proof.
  assert (exists s', startup_pass E s = (Ok tt, s') /\
            config_plugins s' = List.filter is_strict (config_plugins s))
    as (s' & Hp & Hc).
  { unfold startup_pass, bind, get.
    rewrite (initial_check_loop_config (config_plugins s) [] s eq_refl)
      by constructor.
    simpl.
    destruct (initial_load_loop_config (List.filter is_strict (config_plugins s))
                (set_config_plugins (List.filter is_strict (config_plugins s)) s)
                (filter_strict_all _)) as (s' & -> & Hc).
    by exists s'. }
  rewrite Hp. simpl. split; [done|]. split; [done|].
  unfold initial_load_plugins, bind. rewrite Hp.
  unfold config_update, emit, modify. simpl. done.
Qed.

(** ** The cache and the network *)

Lemma fetch_archive_cached (p : Plugina) (s : St) :
  FS.exists_ (fs s) (cache_path E p) = true ->
  fetch_archive E p false s = open_read (cache_path E p) s.
Proof.
  intros Hc. unfold fetch_archive. unfold bind at 1. unfold path_exists at 1.
  unfold bind at 1, get at 1, ret at 1. by rewrite Hc.
Qed.

Lemma after_fetch_quiet (p : Plugina) (bytes : string) :
  respects quiet_growth (infos <- zip_open E bytes ;; extract_all E p infos).
Proof. respects_step; [respects_step|]. apply extract_all_quiet. Qed.

(** X5. A fetch without [force] that finds the archive in the cache makes
    no request: with the install directory missing it reads the cache
    file instead. *)
Theorem cache_hit_makes_no_request (p : Plugina) (s s' : St)
  (r : outcome unit) :
  FS.exists_ (fs s) (cache_path E p) = true ->
  download_plugin E p false s = (r, s') ->
  fetch_count (trace s') = fetch_count (trace s) /\
  (FS.exists_ (fs s) (abs_path E p) = false ->
   forall f, FS.mkdir true (abs_path E p) (fs s) = Some f ->
   exists evs, trace s' = trace s ++ [EvMkdir (abs_path E p);
                                      EvOpenRead (cache_path E p)] ++ evs).
Proof.
  intros Hc. rewrite download_plugin_eq.
  destruct (FS.exists_ (fs s) (abs_path E p)) eqn:Hx; simpl.
  { intros [= <- <-]. split; [done|]. done. }
  destruct (FS.mkdir true (abs_path E p) (fs s)) as [f|] eqn:Hm.
  - unfold bind at 1. rewrite fetch_archive_cached
      by (simpl; by eapply mkdir_grows).
    destruct (open_read (cache_path E p) _) as [[bytes|e] s1] eqn:Hr.
    + intros Hrest.
      pose proof (open_read_quiet _ _ _ _ Hr) as [Hq1 _].
      pose proof (after_fetch_quiet p bytes _ _ _ Hrest) as [Hq2 _].
      unfold same_fetches in *. simpl in Hq1.
      rewrite fetch_count_snoc in Hq1. simpl in Hq1. split; [lia|].
      intros _ f' [= <-].
      assert (trace s1 = (trace s ++ [EvMkdir (abs_path E p)])
                           ++ [EvOpenRead (cache_path E p)]) as Ht1.
      { revert Hr. unfold open_read, bind, emit, modify, get, raise, ret. simpl.
        destruct (FS.read _ _); by intros [= _ <-]. }
      assert (exists evs, trace s' = trace s1 ++ evs) as [evs Ht].
      { revert Hrest. unfold bind, zip_open, ret, raise.
        destruct (zip_infolist E bytes) as [infos|].
        - intros Hx2. destruct (extract_all_trace _ _ _ _ _ Hx2) as (evs & ? & _).
          by exists evs.
        - intros [= _ <-]. exists []. by rewrite app_nil_r. }
      exists evs. rewrite Ht, Ht1, <- !app_assoc. done.
    + intros [= <- <-].
      pose proof (open_read_quiet _ _ _ _ Hr) as [Hq1 _].
      unfold same_fetches in *. simpl in Hq1.
      rewrite fetch_count_snoc in Hq1. simpl in Hq1. split; [lia|].
      intros _ f' [= <-]. exists [].
      revert Hr. unfold open_read, bind, emit, modify, get, raise, ret. simpl.
      destruct (FS.read _ _); intros [= <- <-]. simpl.
      by rewrite <- app_assoc.
  - intros [= <- <-]. simpl. rewrite fetch_count_snoc. simpl. split; [lia|].
    by intros _ f.
Qed.

Lemma http_read_fetched_once (u : string) (s s' : St) (r : outcome string) :
  http_read E u s = (r, s') ->
  fetched_once s s' /\ trace s' = trace s ++ [EvHttpGet u] /\ fs s' = fs s.
Proof.
  unfold http_read, bind, emit, modify, ret, raise, fetched_once. simpl.
  destruct (http_get E u); intros [= <- <-]; simpl;
    rewrite fetch_count_snoc; simpl; done.
Qed.

Lemma fetch_archive_download_once (p : Plugina) (force : bool) (s s' : St)
  (r : outcome string) :
  FS.exists_ (fs s) (cache_path E p) && negb force = false ->
  fetch_archive E p force s = (r, s') ->
  fetched_once s s' /\
  exists evs, trace s' = trace s ++ [EvHttpGet (url p)] ++ evs.
Proof.
  intros Hc. unfold fetch_archive. unfold bind at 1. unfold path_exists at 1.
  unfold bind at 1, get at 1, ret at 1. rewrite Hc. unfold bind at 1.
  destruct (http_read E (url p) s) as [[raw|e] s1] eqn:Hh;
    destruct (http_read_fetched_once _ _ _ _ Hh) as (H1 & Ht1 & _).
  - intros Hrest.
    assert (respects quiet_growth
              (has_parent <- path_exists (Path.parent (cache_path E p)) ;;
               (if negb has_parent
                then mkdir false (Path.parent (cache_path E p))
                else ret tt) ;;;
               write_file E (cache_path E p) raw ;;; ret raw)) as Hq.
    { repeat first [apply mkdir_quiet | apply write_file_quiet | respects_step]. }
    destruct (Hq _ _ _ Hrest) as [Hq1 _].
    unfold fetched_once, same_fetches in *. split; [lia|].
    assert (exists evs, trace s' = trace s1 ++ evs) as [evs Ht].
    { revert Hrest. unfold bind, path_exists, get, ret. simpl.
      destruct (negb (FS.exists_ (fs s1) (Path.parent (cache_path E p)))).
      - rewrite mkdir_eq. simpl.
        destruct (FS.mkdir false _ (fs s1)).
        + rewrite write_file_eq. simpl.
          destruct (FS.write _ _ _ _) as [[[] f']|]; intros [= _ <-]; simpl;
            eexists; by rewrite <- app_assoc.
        + intros [= _ <-]. simpl. by eexists.
      - rewrite write_file_eq. simpl.
        destruct (FS.write _ _ _ _) as [[[] f']|]; intros [= _ <-]; simpl;
          by eexists. }
    exists evs. by rewrite Ht, Ht1, <- app_assoc.
  - intros [= <- <-]. split; [done|]. exists []. by rewrite Ht1.
Qed.

(** X6. A fetch that cannot use the cache, because [force] is set or the
    cache file is missing, makes exactly one request, to the archive URL
    of the reference, once the install directory is made. *)
Theorem download_requests_once (p : Plugina) (force : bool) (s s' : St)
  (f : gmap path node) (r : outcome unit) :
  FS.exists_ (fs s) (abs_path E p) && negb force = false ->
  FS.mkdir true (abs_path E p) (fs s) = Some f ->
  FS.exists_ f (cache_path E p) && negb force = false ->
  download_plugin E p force s = (r, s') ->
  fetch_count (trace s') = fetch_count (trace s) + 1 /\
  EvHttpGet (url p) ∈ trace s'.
Proof.
  intros Hx Hm Hc. rewrite download_plugin_eq, Hx, Hm. simpl.
  unfold bind at 1.
  destruct (fetch_archive E p force _) as [[bytes|e] s1] eqn:Hf;
    destruct (fetch_archive_download_once p force
                (set_fs f (set_trace (trace s ++ [EvMkdir (abs_path E p)]) s))
                _ _ Hc Hf) as (H1 & evs & Ht1);
    unfold fetched_once in H1; simpl in H1, Ht1;
    rewrite fetch_count_snoc in H1; simpl in H1.
  - intros Hrest.
    pose proof (after_fetch_quiet p bytes _ _ _ Hrest) as [Hq2 _].
    unfold same_fetches in Hq2. split; [lia|].
    assert (exists evs', trace s' = trace s1 ++ evs') as [evs' Ht].
    { revert Hrest. unfold bind, zip_open, ret, raise.
      destruct (zip_infolist E bytes) as [infos|].
      - intros Hx2. destruct (extract_all_trace _ _ _ _ _ Hx2) as (ev & ? & _).
        by exists ev.
      - intros [= _ <-]. exists []. by rewrite app_nil_r. }
    rewrite Ht, Ht1. set_solver.
  - intros [= <- <-]. split; [lia|]. rewrite Ht1. set_solver.
Qed.

(** ** What a completed extraction leaves on the disk *)

Lemma write_exists (fault : option nat) (p : path) (data : string)
  (f f' : gmap path node) (b : bool) :
  FS.write fault p data f = Some (b, f') -> FS.exists_ f' p = true.
Proof.
  unfold FS.write.
  destruct (FS.node_at f p) as [[|d]|]; [done|..];
    (destruct (FS.is_dir f (Path.parent p)); [|done]);
    (destruct fault as [k|]; [destruct (k <? String.length data)%nat|]);
    intros [= <- <-]; apply exists_insert_eq.
Qed.

Lemma extract_entry_exists (p : Plugina) (info : ZipInfo) (s s' : St) :
  extract_entry E p info s = (Ok tt, s') ->
  selected p info = true ->
  FS.exists_ (fs s') (target E p info) = true.
Proof.
  rewrite extract_entry_eq. intros H Hsel. rewrite Hsel in H. revert H.
  destruct (ZipInfo_is_dir info).
  - rewrite mkdir_eq. simpl.
    destruct (FS.mkdir true (target E p info) (fs s)) eqn:Hm; [|done].
    intros [= <-]. simpl. by eapply mkdir_exists.
  - unfold bind. rewrite mkdir_eq. simpl.
    destruct (FS.mkdir true (Path.parent (target E p info)) (fs s)); [|done].
    rewrite write_file_eq. simpl.
    destruct (FS.write _ _ _ _) as [[[] f']|] eqn:Hw; [|done..].
    intros [= <-]. simpl. by eapply write_exists.
Qed.

Lemma extract_all_exists (p : Plugina) (infos : list ZipInfo)
  (s s' : St) (info : ZipInfo) :
  extract_all E p infos s = (Ok tt, s') ->
  info ∈ infos -> selected p info = true ->
  FS.exists_ (fs s') (target E p info) = true.
Proof.
  unfold extract_all. revert s. induction infos as [|x l IH]; intros s.
  - by intros _ ?%elem_of_nil.
  - simpl. unfold bind.
    destruct (extract_entry E p x s) as [[[]|e] s1] eqn:Hx; [|done].
    intros Hl Hin Hsel. apply elem_of_cons in Hin as [->|Hin].
    + assert (respects quiet_growth (extract_all E p l)) as Hq
        by apply extract_all_quiet.
      destruct (Hq _ _ _ Hl) as [_ Hg]. apply Hg.
      by eapply extract_entry_exists.
    + by eapply IH.
Qed.

(** X7. When the walk over the archive completes, every selected entry is
    on the disk at its place under the install directory. *)
Theorem extracted_entries_exist (p : Plugina) (infos : list ZipInfo)
  (s s' : St) (info : ZipInfo) :
  extract_all E p infos s = (Ok tt, s') ->
  info ∈ infos -> selected p info = true ->
  FS.exists_ (fs s') (target E p info) = true.
Proof. apply extract_all_exists. Qed.

Lemma entry_file_target (p : Plugina) (info : ZipInfo) (top : string) :
  Path.parts (filename info) = [top; name p; name p +:+ ".py"] ->
  selected p info = true /\ target E p info = entry_file E p.
Proof.
  intros Hp. split.
  - unfold selected. rewrite Hp. by apply bool_decide_eq_true.
  - pose proof (parts_tail_segments (filename info) 1) as Hseg.
    unfold target, entry_file, Path.div. rewrite Hp in *. simpl in *.
    inversion Hseg as [|? ? Hs _]; subst.
    rewrite (parts_segment _ Hs). by rewrite join_segments by (by constructor).
Qed.

(** X8. After a fetch that did its work on an archive holding the file
    [<top>/<name>/<name>.py], the entry file of the plugin is in the install
    directory, and [load_plugin] does not fail for a missing entry file. *)
Theorem fetched_plugin_has_entry_file (p : Plugina) (infos : list ZipInfo)
  (s s' s'' : St) (info : ZipInfo) (top : string) (r : outcome unit) :
  extract_all E p infos s = (Ok tt, s') ->
  info ∈ infos ->
  Path.parts (filename info) = [top; name p; name p +:+ ".py"] ->
  load_plugin E p s' = (r, s'') ->
  FS.exists_ (fs s') (entry_file E p) = true /\
  r <> Raise (InvalidPluginError (EntryNotFound (name p +:+ ".py"))).
Proof.
  intros Hx Hin Hp Hl. destruct (entry_file_target p info top Hp) as [Hsel Ht].
  assert (FS.exists_ (fs s') (entry_file E p) = true) as He.
  { rewrite <- Ht. by eapply extract_all_exists. }
  split; [done|]. rewrite load_plugin_eq, He in Hl. simpl in Hl. revert Hl.
  destruct (FS.exists_ (fs s') (requirements_txt E p)).
  - destruct (negb (String.eqb _ "")); [by intros [= <- _]|].
    intros H. apply load_into_host_cases in H as (_ & _ & _ & [[-> _]|[-> _]]);
      done.
  - intros H. apply load_into_host_cases in H as (_ & _ & _ & [[-> _]|[-> _]]);
      done.
Qed.

(** ** Loading, all or nothing *)

(** X9. [load_plugin] either returns, having added the reference to the
    loaded set and its extension (which the host did not hold) to the host,
    or raises, having left both as they were. *)
Theorem load_plugin_all_or_nothing (p : Plugina) (s s' : St)
  (r : outcome unit) :
  load_plugin E p s = (r, s') ->
  (r = Ok tt /\
   loaded_plugins s' = {[p]} ∪ loaded_plugins s /\
   extensions s' = {[ext_string p]} ∪ extensions s /\
   ext_string p ∉ extensions s)
  \/ (exists e, r = Raise e /\
                loaded_plugins s' = loaded_plugins s /\
                extensions s' = extensions s).
Proof.
  rewrite load_plugin_eq.
  assert (forall s0 : St,
            loaded_plugins s0 = loaded_plugins s ->
            extensions s0 = extensions s ->
            load_into_host E p s0 = (r, s') ->
            (r = Ok tt /\
             loaded_plugins s' = {[p]} ∪ loaded_plugins s /\
             extensions s' = {[ext_string p]} ∪ extensions s /\
             ext_string p ∉ extensions s)
            \/ (exists e, r = Raise e /\
                          loaded_plugins s' = loaded_plugins s /\
                          extensions s' = extensions s)) as Hhost.
  { intros s0 Hl0 He0. rewrite load_into_host_eq.
    destruct (bool_decide (ext_string p ∈ extensions s0)) eqn:Hin.
    - intros [= <- <-]. right. by eexists.
    - apply bool_decide_eq_false in Hin.
      destruct (import_ok E (fs s0) (ext_string p)); intros [= <- <-].
      + left. simpl. rewrite Hl0, He0 in *. done.
      + right. by eexists. }
  destruct (negb (FS.exists_ (fs s) (entry_file E p))).
  { intros [= <- <-]. right. by eexists. }
  destruct (FS.exists_ (fs s) (requirements_txt E p)); [|by apply Hhost].
  simpl. destruct (negb (String.eqb _ "")).
  { intros [= <- <-]. right. by eexists. }
  apply Hhost; by destruct (FS.exists_ (fs s) (Path.parts (USER_SITE E))).
Qed.

(** X10. A refresh of the catalog that fails, at the request or at the
    decoding of the answer, leaves the catalog as it was. *)
Theorem failed_refresh_keeps_catalog (s : St) :
  let official := populate_registry E s in
  let alternate := populate_vregistry E s in
  (official.1 <> Ok tt -> registry official.2 = registry s) /\
  (alternate.1 <> Ok tt -> registry alternate.2 = registry s) /\
  (http_get E registry_url = None -> official.1 = Raise ClientError) /\
  (forall body, http_get E registry_url = Some body ->
                json_loads E body = None ->
                official.1 = Raise JSONDecodeError).
Proof.
  unfold populate_registry, populate_vregistry.
  assert (forall u, (fetch_registry E u s).1 <> Ok tt ->
                    registry (fetch_registry E u s).2 = registry s) as Hkeep.
  { intros u. destruct (fetch_registry E u s) as [[[]|e] s'] eqn:Hf; [done|].
    intros _. by eapply fetch_registry_raise. }
  split; [apply Hkeep|]. split; [apply Hkeep|].
  unfold fetch_registry, http_read, bind, emit, modify, raise, ret. simpl.
  split.
  - by intros ->.
  - intros body -> Hj. simpl. by rewrite Hj.
Qed.

(** ** What the commands touch *)

Global Instance only_disk_preorder : PreOrder only_disk.
Proof.
  split; [by intros s|]. unfold only_disk.
  intros s1 s2 s3 (?&?&?&?&?&?&?&?) (?&?&?&?&?&?&?&?).
  repeat split; congruence.
Qed.

Global Instance resolver_kept_preorder : PreOrder resolver_kept.
Proof.
  split; [by intros s|]. unfold resolver_kept.
  intros s1 s2 s3 (?&?&?) (?&?&?). repeat split; congruence.
Qed.

Ltac kept_go :=
  repeat first
    [ respects_step
    | progress autounfold with gate_ops
    | solve [unfold only_disk, resolver_kept; simpl; repeat split; done] ].

Lemma download_plugin_only_disk (p : Plugina) (force : bool) :
  respects only_disk (download_plugin E p force).
Proof.
  unfold download_plugin, extract_all, extract_entry, fetch_archive. kept_go.
Qed.

Lemma load_plugin_resolver (p : Plugina) :
  respects resolver_kept (load_plugin E p).
Proof. unfold load_plugin, load_into_host. kept_go. Qed.

Lemma only_disk_resolver (s s' : St) : only_disk s s' -> resolver_kept s s'.
Proof. intros (?&?&?&?&?&?&?&?). by repeat split. Qed.

Lemma download_plugin_resolver (p : Plugina) (force : bool) :
  respects resolver_kept (download_plugin E p force).
Proof.
  eapply respects_weaken; [apply only_disk_resolver|].
  apply download_plugin_only_disk.
Qed.

(** The resolution of a name depends on the readiness event and on the
    catalog alone, and changes the state only by the message it sends. *)
Lemma parse_user_input_found (n : string) (cv : bool) (s s' : St)
  (p : Plugina) :
  parse_user_input E n cv s = (Ok (Some p), s') -> s' = s /\ ready s = true.
Proof.
  unfold parse_user_input, bind, get, send, emit, modify, ret, raise.
  destruct (ready s); simpl; [|done].
  destruct (registry s !! n) as [d|].
  - destruct (Str.split_once Str.slash (repository d)) as [[u r]|]; [|done].
    destruct (if cv then _ else _) as [v|].
    + destruct (version_lt E _ _); simpl; [done|]. by intros [= _ <-].
    + by intros [= _ <-].
  - destruct (from_string n false); simpl; [|done]. by intros [= _ <-].
Qed.

Lemma parse_user_input_again (n : string) (cv : bool) (s s1 : St)
  (p : Plugina) :
  resolver_kept s s1 ->
  parse_user_input E n cv s = (Ok (Some p), s) ->
  parse_user_input E n cv s1 = (Ok (Some p), s1).
Proof.
  intros (Hr & Hg & _).
  unfold parse_user_input, bind, get, send, emit, modify, ret, raise.
  rewrite Hr, Hg. destruct (ready s); simpl; [|done].
  destruct (registry s !! n) as [d|].
  - destruct (Str.split_once Str.slash (repository d)) as [[u r]|]; [|done].
    destruct (if cv then _ else _) as [v|].
    + destruct (version_lt E _ _); simpl; [done|]. by intros [= ->].
    + by intros [= ->].
  - destruct (from_string n false); simpl; [|done]. by intros [= ->].
Qed.

(** [plugins_add], step by step, for a name that resolves. *)
Lemma plugins_add_eq (n : string) (p : Plugina) (s : St) :
  parse_user_input E n true s = (Ok (Some p), s) ->
  plugins_add E n s
  = if in_list (Plugina_str p) (config_plugins s)
    then (Ok tt, record (EvSend MsgAlreadyInstalled) s)
    else if bool_decide (name p ∈ cogs s)
    then (Ok tt, record (EvSend MsgDupeCog) s)
    else
      match download_plugin E p true
              (record (EvSend (MsgStartDownload (link p))) s) with
      | (Raise _, s2) => (Ok tt, record (EvEdit MsgDownloadFailed) s2)
      | (Ok _, s2) =>
          let s3 := record EvConfigUpdate
                      (set_config_plugins
                         (config_plugins s2 ++ [Plugina_str p]) s2) in
          if enable_plugins E then
            match load_plugin E p s3 with
            | (Raise _, s4) => (Ok tt, record (EvEdit MsgDownloadFailed) s4)
            | (Ok _, s4) => (Ok tt, record (EvEdit MsgInstalled) s4)
            end
          else (Ok tt, record (EvEdit MsgInstalledDisabled) s3)
      end.
Proof.
  intros Hp. unfold plugins_add. rewrite (bind_ok _ _ _ _ _ Hp).
  unfold bind at 1, get at 1.
  destruct (in_list (Plugina_str p) (config_plugins s)); [done|].
  destruct (bool_decide (name p ∈ cogs s)); [done|].
  unfold bind at 1. unfold send at 1, emit at 1, modify at 1.
  fold (record (EvSend (MsgStartDownload (link p))) s).
  unfold bind at 1, attempt at 1.
  destruct (download_plugin E p true _) as [[[]|e] s2]; [|done].
  unfold bind at 1, config_append, modify at 1.
  unfold bind at 1, config_update, emit, modify at 1. simpl.
  destruct (enable_plugins E); [|done].
  unfold bind, attempt.
  by destruct (load_plugin E p _) as [[[]|e] s4].
Qed.

Lemma plugins_add_resolver (n : string) :
  respects resolver_kept (plugins_add E n).
Proof.
  unfold plugins_add, parse_user_input, config_append.
  repeat first [ apply download_plugin_resolver | apply load_plugin_resolver
               | respects_step | progress autounfold with gate_ops
               | solve [unfold resolver_kept; simpl; repeat split; done] ].
Qed.

Lemma in_list_snoc (x : string) (l : list string) : in_list x (l ++ [x]) = true.
Proof.
  unfold in_list. rewrite existsb_app. simpl.
  by rewrite String.eqb_refl, orb_true_r.
Qed.

Lemma last_record (e : Event) (s : St) : last (trace (record e s)) = Some e.
Proof. unfold record. simpl. by rewrite last_snoc. Qed.

(** What [plugins_add] leaves for a new name that resolves: the configured
    list, the loaded set and the host's extensions. *)
Lemma plugins_add_outcome (n : string) (p : Plugina) (s : St) :
  parse_user_input E n true s = (Ok (Some p), s) ->
  in_list (Plugina_str p) (config_plugins s) = false ->
  name p ∉ cogs s ->
  let d := download_plugin E p true
             (record (EvSend (MsgStartDownload (link p))) s) in
  let s' := (plugins_add E n s).2 in
  (plugins_add E n s).1 = Ok tt /\
  (d.1 = Ok tt ->
   config_plugins s' = config_plugins s ++ [Plugina_str p] /\
   (last (trace s') = Some (EvEdit MsgInstalled) ->
    p ∈ loaded_plugins s' /\ ext_string p ∈ extensions s')) /\
  (d.1 <> Ok tt ->
   config_plugins s' = config_plugins s /\
   loaded_plugins s' = loaded_plugins s /\
   extensions s' = extensions s /\
   last (trace s') = Some (EvEdit MsgDownloadFailed)).
Proof.
  intros Hp Hc Hg d s'. subst d s'. rewrite (plugins_add_eq n p s Hp), Hc.
  rewrite bool_decide_eq_false_2 by done.
  destruct (download_plugin E p true _) as [[[]|e] s2] eqn:Hd;
    apply download_plugin_only_disk in Hd as (_ & Hl2 & _ & Hc2 & He2 & _);
    unfold record in Hl2, Hc2, He2; simpl in Hl2, Hc2, He2.
  - cbv zeta. destruct (enable_plugins E).
    + destruct (load_plugin E p _) as [[[]|e] s4] eqn:Hl;
        pose proof (load_plugin_gate _ _ _ _ Hl) as [_ Hc4];
        unfold record in Hc4 |- *; simpl in Hc4 |- *; rewrite last_snoc.
      * apply load_plugin_ok_adds in Hl as [Hl4 He4].
        split; [done|]. split; [|done]. intros _.
        split; [by rewrite Hc4, Hc2|]. intros _. rewrite Hl4, He4.
        split; apply elem_of_union_l; by apply elem_of_singleton.
      * split; [done|]. split; [|done]. intros _.
        split; [by rewrite Hc4, Hc2|]. done.
    + unfold record. simpl. rewrite last_snoc.
      split; [done|]. split; [|done]. intros _.
      split; [by rewrite Hc2|]. done.
  - unfold record. simpl. rewrite last_snoc.
    split; [done|]. split; [done|]. intros _. done.
Qed.

(** X11. An install records the plugin before it loads it. For a name
    that resolves to a reference that is neither configured nor the name
    of a cog: if the download fails the command answers with the failure
    message and leaves the configured list, the loaded set and the host's
    extensions as they were; if the download succeeds the canonical form
    is appended to the configured list whatever becomes of the load; and
    where the last message is that of success, the reference is in the
    loaded set and its extension in the host. *)
Theorem install_records_before_loading (n : string) (p : Plugina) (s : St) :
  parse_user_input E n true s = (Ok (Some p), s) ->
  in_list (Plugina_str p) (config_plugins s) = false ->
  name p ∉ cogs s ->
  let d := download_plugin E p true
             (record (EvSend (MsgStartDownload (link p))) s) in
  let s' := (plugins_add E n s).2 in
  (plugins_add E n s).1 = Ok tt /\
  (d.1 = Ok tt ->
   config_plugins s' = config_plugins s ++ [Plugina_str p] /\
   (last (trace s') = Some (EvEdit MsgInstalled) ->
    p ∈ loaded_plugins s' /\ ext_string p ∈ extensions s')) /\
  (d.1 <> Ok tt ->
   config_plugins s' = config_plugins s /\
   loaded_plugins s' = loaded_plugins s /\
   extensions s' = extensions s /\
   last (trace s') = Some (EvEdit MsgDownloadFailed)).
Proof. apply plugins_add_outcome. Qed.

(** X12. Installing twice: once an install has downloaded the plugin, the
    same install again is answered with the already-installed message and
    changes nothing else; the configured list holds the canonical form
    once. *)
Theorem second_install_is_rejected (n : string) (p : Plugina) (s : St) :
  parse_user_input E n true s = (Ok (Some p), s) ->
  in_list (Plugina_str p) (config_plugins s) = false ->
  name p ∉ cogs s ->
  (download_plugin E p true
     (record (EvSend (MsgStartDownload (link p))) s)).1 = Ok tt ->
  let s1 := (plugins_add E n s).2 in
  plugins_add E n s1 = (Ok tt, record (EvSend MsgAlreadyInstalled) s1) /\
  config_plugins (plugins_add E n s1).2 = config_plugins s ++ [Plugina_str p].
Proof.
  intros Hp Hc Hg Hd s1.
  destruct (plugins_add_outcome n p s Hp Hc Hg) as (_ & Hok & _).
  destruct (Hok Hd) as [Hc1 _]. fold s1 in Hc1.
  assert (resolver_kept s s1) as Hk.
  { subst s1. destruct (plugins_add E n s) as [r s1] eqn:Ha.
    by eapply plugins_add_resolver. }
  pose proof (parse_user_input_again n true s s1 p Hk Hp) as Hp1.
  rewrite (plugins_add_eq n p s1 Hp1), Hc1, in_list_snoc. done.
Qed.

(** ** Removing a plugin *)

Lemma unload_block_eq (p : Plugina) (s : St) :
  try_except (unload_extension (ext_string p) ;;; loaded_remove p)
             is_NotLoaded_or_KeyError (fun _ => ret tt) s
  = (Ok tt, unloaded p s).
Proof.
  unfold try_except, unload_extension, loaded_remove, unloaded, bind, get,
    modify, raise, ret.
  destruct (bool_decide (ext_string p ∈ extensions s)); simpl; [|done].
  by destruct (bool_decide (p ∈ loaded_plugins s)).
Qed.

Lemma in_list_elem (x : string) (l : list string) :
  in_list x l = true <-> x ∈ l.
Proof.
  unfold in_list. rewrite existsb_exists, list_elem_of_In. split.
  - by intros (y & Hy & ->%String.eqb_eq).
  - intros Hx. exists x. by rewrite String.eqb_refl.
Qed.

Lemma rmtree_gone (p q : path) (f : gmap path node) :
  p `prefix_of` q -> FS.is_anchor q = false ->
  FS.exists_ (FS.rmtree p f) q = false.
Proof.
  intros Hpq Ha. unfold FS.exists_, FS.node_at, FS.rmtree. rewrite Ha.
  rewrite (proj2 (map_lookup_filter_None _ f q)); [done|].
  right. intros x _ Hn. by apply Hn.
Qed.

Lemma rmdir_absent (p q : path) (f f' : gmap path node) :
  FS.rmdir p f = Some f' -> FS.is_anchor q = false ->
  FS.exists_ f q = false -> FS.exists_ f' q = false.
Proof.
  unfold FS.rmdir, FS.exists_, FS.node_at. intros Hr ->.
  destruct (f !! p) as [[|d]|]; [|done..].
  destruct (FS.has_child p f); [done|]. injection Hr as <-.
  destruct (f !! q) eqn:Hq; [done|]. intros _.
  destruct (decide (p = q)) as [->|Hne].
  - by rewrite lookup_delete_eq.
  - by rewrite lookup_delete_ne, Hq.
Qed.

(** Removing directories that have become empty takes nothing back. *)
Lemma tidy_parents (a b : path) (s : St) :
  exists s',
    try_except (rmdir a ;;; rmdir b) is_OSError (fun _ => ret tt) s
    = (Ok tt, s') /\
    only_disk s s' /\
    (forall q, FS.is_anchor q = false -> FS.exists_ (fs s) q = false ->
               FS.exists_ (fs s') q = false).
Proof.
  unfold try_except, rmdir, bind, emit, modify, get, raise, ret. simpl.
  destruct (FS.rmdir a (fs s)) as [f1|] eqn:H1; simpl.
  - destruct (FS.rmdir b f1) as [f2|] eqn:H2; simpl; eexists;
      (split; [done|]); (split; [by repeat split|]); simpl; intros q Ha Hq.
    + eapply rmdir_absent; [exact H2|done|]. by eapply rmdir_absent.
    + by eapply rmdir_absent.
  - eexists. split; [done|]. split; [by repeat split|]. done.
Qed.

(** [plugins_remove], step by step, for a configured name that resolves. *)
Lemma plugins_remove_run (n : string) (p : Plugina) (s : St) :
  parse_user_input E n false s = (Ok (Some p), s) ->
  in_list (Plugina_str p) (config_plugins s) = true ->
  exists (l : list string) (s4 : St),
    list_remove (Plugina_str p) (config_plugins s) = Some l /\
    plugins_remove E n s = (Ok tt, record (EvSend MsgUninstalled) s4) /\
    only_disk
      (set_config_plugins l (if enable_plugins E then unloaded p s else s)) s4 /\
    (forall q, abs_path E p `prefix_of` q -> FS.is_anchor q = false ->
               FS.exists_ (fs s4) q = false).
Proof.
  intros Hp Hc. unfold plugins_remove.
  rewrite (bind_ok _ _ _ _ _ Hp). unfold bind at 1, get at 1. rewrite Hc.
  change (negb true) with false. cbv beta iota. unfold bind at 1.
  assert ((if enable_plugins E
           then try_except (unload_extension (ext_string p) ;;; loaded_remove p)
                           is_NotLoaded_or_KeyError (fun _ => ret tt)
           else ret tt) s
          = (Ok tt, if enable_plugins E then unloaded p s else s)) as ->.
  { destruct (enable_plugins E); [apply unload_block_eq|done]. }
  set (s1 := if enable_plugins E then unloaded p s else s).
  assert (config_plugins s1 = config_plugins s) as Hc1.
  { subst s1. destruct (enable_plugins E); [|done]. unfold unloaded.
    destruct (bool_decide (ext_string p ∈ extensions s)); [|done].
    by destruct (bool_decide (p ∈ loaded_plugins s)). }
  apply in_list_elem, list_remove_elem in Hc as [l Hl].
  exists l.
  unfold bind at 1. rewrite config_remove_eq, Hc1, Hl.
  unfold bind at 1, config_update, emit at 1, modify at 1.
  unfold bind at 1, rmtree, bind at 1, emit at 1, modify at 1, modify at 1.
  unfold bind at 1.
  match goal with
  | |- context [try_except ?m ?h ?k ?s0] =>
      destruct (tidy_parents (Path.parent (abs_path E p))
                  (Path.parent (Path.parent (abs_path E p))) s0)
        as (s4 & -> & Hd4 & Hgone)
  end.
  exists s4. split; [done|]. split; [done|]. split.
  - etransitivity; [|exact Hd4]. by repeat split.
  - intros q Hq Ha. apply Hgone; [done|]. simpl. by apply rmtree_gone.
Qed.

Lemma unloaded_fields (p : Plugina) (s : St) :
  (ext_string p ∉ extensions (unloaded p s)) /\
  (ext_string p ∈ extensions s \/ (p ∉ loaded_plugins s) ->
   p ∉ loaded_plugins (unloaded p s)) /\
  config_plugins (unloaded p s) = config_plugins s /\
  resolver_kept s (unloaded p s).
Proof.
  unfold unloaded.
  destruct (bool_decide (ext_string p ∈ extensions s)) eqn:He.
  - assert (ext_string p ∉ extensions s ∖ {[ext_string p]}) as Hx.
    { intros [_ Hn]%elem_of_difference. apply Hn. by apply elem_of_singleton. }
    destruct (bool_decide (p ∈ loaded_plugins s)) eqn:Hl; simpl.
    + repeat split; [done|]. intros _ [_ Hn]%elem_of_difference.
      apply Hn. by apply elem_of_singleton.
    + apply bool_decide_eq_false in Hl. by repeat split.
  - apply bool_decide_eq_false in He. repeat split; [done|]. by intros [?|?].
Qed.

(** X13. Removing a configured plugin never fails. It takes the first
    occurrence of the canonical form off the configured list, deletes the
    install directory with all that is under it, and ends with the
    uninstalled message; with plugin loading enabled the extension is no
    longer in the host, and the reference no longer in the loaded set
    provided the host held its extension (or the set did not hold it). *)
Theorem remove_uninstalls (n : string) (p : Plugina) (s : St) :
  parse_user_input E n false s = (Ok (Some p), s) ->
  in_list (Plugina_str p) (config_plugins s) = true ->
  let s' := (plugins_remove E n s).2 in
  (plugins_remove E n s).1 = Ok tt /\
  list_remove (Plugina_str p) (config_plugins s) = Some (config_plugins s') /\
  last (trace s') = Some (EvSend MsgUninstalled) /\
  (forall q, abs_path E p `prefix_of` q -> FS.is_anchor q = false ->
             FS.exists_ (fs s') q = false) /\
  (enable_plugins E = true ->
   (ext_string p ∉ extensions s') /\
   (ext_string p ∈ extensions s \/ (p ∉ loaded_plugins s) ->
    p ∉ loaded_plugins s')).
Proof.
  intros Hp Hc s'. subst s'.
  destruct (plugins_remove_run n p s Hp Hc) as (l & s4 & Hl & -> & Hd & Hgone).
  destruct Hd as (_ & Hl4 & _ & Hc4 & He4 & _). unfold record. simpl in *.
  split; [done|]. split; [by rewrite Hc4|]. split; [by rewrite last_snoc|].
  split; [done|]. intros Hen. rewrite Hen in *. rewrite Hl4, He4.
  destruct (unloaded_fields p s) as (H1 & H2 & _). done.
Qed.

(** ** A host with plugin loading disabled *)

Lemma parse_user_input_loading (n : string) (cv : bool) (s : St) :
  ready s = false ->
  parse_user_input E n cv s = (Ok None, record (EvSend MsgStillLoading) s).
Proof.
  intros Hr.
  unfold parse_user_input, bind, get, send, emit, modify, ret. by rewrite Hr.
Qed.

Lemma bulk_update_loading (l : list string) (s : St) :
  ready s = false ->
  for_each (update_plugin E) l s
  = (Ok tt, set_trace (trace s ++ map (fun _ => EvSend MsgStillLoading) l) s).
Proof.
  revert s. induction l as [|n l IH]; intros s Hr; simpl.
  - unfold ret. rewrite app_nil_r. by destruct s.
  - unfold bind at 1, update_plugin at 1.
    rewrite (bind_ok _ _ _ _ _ (parse_user_input_loading n true s Hr)).
    unfold ret at 1. rewrite IH by done. unfold record. simpl.
    by rewrite <- app_assoc.
Qed.

(** X14. With plugin loading disabled the owner commands never get past
    the readiness test, in any state the process can reach: install, remove
    and update answer with the still-loading message and change nothing
    else, and the bulk update sends that message once per configured
    plugin. *)
Theorem disabled_host_only_answers_loading (b : Bot) (n : string) (s : St) :
  enable_plugins E = false -> reachable E b s ->
  plugins_add E n s = (Ok tt, record (EvSend MsgStillLoading) s) /\
  plugins_remove E n s = (Ok tt, record (EvSend MsgStillLoading) s) /\
  plugins_update E (Some n) s = (Ok tt, record (EvSend MsgStillLoading) s) /\
  plugins_update E None s
  = (Ok tt, set_trace (trace s ++ map (fun _ => EvSend MsgStillLoading)
                                      (config_plugins s)) s).
Proof.
  intros He Hs. destruct (disabled_never_ready b s He Hs) as (Hr & _).
  repeat split.
  - unfold plugins_add.
    by rewrite (bind_ok _ _ _ _ _ (parse_user_input_loading n true s Hr)).
  - unfold plugins_remove.
    by rewrite (bind_ok _ _ _ _ _ (parse_user_input_loading n false s Hr)).
  - unfold plugins_update, update_plugin.
    by rewrite (bind_ok _ _ _ _ _ (parse_user_input_loading n true s Hr)).
  - unfold plugins_update, bind at 1, get at 1. by apply bulk_update_loading.
Qed.

(** ** Updating a plugin *)

Lemma load_plugin_same_fetches (p : Plugina) :
  respects same_fetches (load_plugin E p).
Proof.
  unfold load_plugin, load_into_host.
  repeat first
    [ respects_step
    | progress autounfold with gate_ops
    | solve [unfold same_fetches; simpl; rewrite ?fetch_count_snoc; simpl;
             first [lia | done]] ].
Qed.

Global Instance same_disk_preorder : PreOrder same_disk.
Proof.
  split; [by intros s|]. intros s1 s2 s3 H1 H2. unfold same_disk in *.
  congruence.
Qed.

Lemma load_plugin_same_disk (p : Plugina) :
  respects same_disk (load_plugin E p).
Proof.
  unfold load_plugin, load_into_host.
  repeat first
    [ respects_step
    | progress autounfold with gate_ops
    | solve [unfold same_disk; done] ].
Qed.

(** A forced download that returns has made exactly one request, and the
    install directory is on the disk. *)
Lemma download_forced_ok (p : Plugina) (s s' : St) :
  download_plugin E p true s = (Ok tt, s') ->
  fetched_once s s' /\ FS.exists_ (fs s') (abs_path E p) = true.
Proof.
  intros Hd. split.
  - revert Hd. rewrite download_plugin_eq, andb_false_r. simpl.
    destruct (FS.mkdir true (abs_path E p) (fs s)) as [f|] eqn:Hm; [|done].
    unfold bind at 1.
    destruct (fetch_archive E p true _) as [[bytes|e] s1] eqn:Hf; [|done].
    destruct (fetch_archive_download_once p true
                (set_fs f (set_trace (trace s ++ [EvMkdir (abs_path E p)]) s))
                _ _ (andb_false_r _) Hf) as (H1 & _).
    unfold fetched_once in H1 |- *. simpl in H1.
    rewrite fetch_count_snoc in H1. simpl in H1.
    intros Hrest. pose proof (after_fetch_quiet p bytes _ _ _ Hrest) as [Hq _].
    unfold same_fetches in Hq. lia.
  - revert Hd. rewrite download_plugin_eq, andb_false_r. simpl.
    destruct (FS.mkdir true (abs_path E p) (fs s)) as [f|] eqn:Hm; [|done].
    intros H. apply download_rest_one_fetch in H as [_ H]. apply H.
    simpl. by eapply mkdir_exists.
Qed.

Lemma update_plugin_eq (n : string) (p : Plugina) (s : St) :
  parse_user_input E n true s = (Ok (Some p), s) ->
  in_list (Plugina_str p) (config_plugins s) = true ->
  update_plugin E n s
  = match download_plugin E p true s with
    | (Raise e, s1) => (Raise e, s1)
    | (Ok _, s1) =>
        if enable_plugins E then
          match load_plugin E p
                  (if bool_decide (ext_string p ∈ extensions s1)
                   then set_extensions (extensions s1 ∖ {[ext_string p]}) s1
                   else s1) with
          | (Raise e, s2) => (Raise e, s2)
          | (Ok _, s2) => (Ok tt, record (EvSend (MsgUpdated (name p))) s2)
          end
        else (Ok tt, record (EvSend (MsgUpdated (name p))) s1)
    end.
Proof.
  intros Hp Hc. unfold update_plugin.
  rewrite (bind_ok _ _ _ _ _ Hp). unfold bind at 1, get at 1. rewrite Hc.
  change (negb true) with false. cbv beta iota. unfold bind at 1.
  destruct (download_plugin E p true s) as [[[]|e] s1]; [|done].
  unfold bind at 1. destruct (enable_plugins E); [|done].
  unfold bind at 1.
  assert (try_except (unload_extension (ext_string p)) is_ExtensionError
            (fun _ => ret tt) s1
          = (Ok tt, if bool_decide (ext_string p ∈ extensions s1)
                    then set_extensions (extensions s1 ∖ {[ext_string p]}) s1
                    else s1)) as ->.
  { unfold try_except, unload_extension, bind, get, modify, raise, ret.
    by destruct (bool_decide (ext_string p ∈ extensions s1)). }
  by destruct (load_plugin E p _) as [[[]|e] s2].
Qed.

(** X15. An update that returns has refreshed the plugin: it made exactly
    one request for the archive, left the configured list as it was and the
    install directory on the disk, and ended with the updated message; with
    plugin loading enabled the reference is in the loaded set and its
    extension in the host. *)
Theorem update_reloads (n : string) (p : Plugina) (s s' : St) :
  parse_user_input E n true s = (Ok (Some p), s) ->
  in_list (Plugina_str p) (config_plugins s) = true ->
  update_plugin E n s = (Ok tt, s') ->
  fetch_count (trace s') = fetch_count (trace s) + 1 /\
  config_plugins s' = config_plugins s /\
  FS.exists_ (fs s') (abs_path E p) = true /\
  last (trace s') = Some (EvSend (MsgUpdated (name p))) /\
  (enable_plugins E = true ->
   p ∈ loaded_plugins s' /\ ext_string p ∈ extensions s').
Proof.
  intros Hp Hc. rewrite (update_plugin_eq n p s Hp Hc).
  destruct (download_plugin E p true s) as [[[]|e] s1] eqn:Hd; [|done].
  destruct (download_forced_ok p s s1 Hd) as [Hf1 Hx1].
  apply download_plugin_only_disk in Hd as (_ & _ & _ & Hc1 & _).
  unfold fetched_once in Hf1.
  destruct (enable_plugins E).
  - destruct (load_plugin E p _) as [[[]|e] s2] eqn:Hl; [|done].
    intros [= <-]. unfold record. simpl. rewrite last_snoc, fetch_count_snoc.
    simpl.
    pose proof (load_plugin_same_fetches p _ _ _ Hl) as Hf2.
    pose proof (load_plugin_gate p _ _ _ Hl) as [_ Hc2].
    pose proof (load_plugin_same_disk p _ _ _ Hl) as Hd2.
    apply load_plugin_ok_adds in Hl as [Hl2 He2].
    unfold same_fetches in Hf2. unfold same_disk in Hd2.
    split.
    { rewrite Hf2. by destruct (bool_decide _); simpl; lia. }
    split.
    { rewrite Hc2. by destruct (bool_decide _). }
    split.
    { rewrite Hd2. by destruct (bool_decide _). }
    split; [done|]. intros _. rewrite Hl2, He2.
    split; apply elem_of_union_l; by apply elem_of_singleton.
  - intros [= <-]. unfold record. simpl. rewrite last_snoc, fetch_count_snoc.
    simpl. split; [lia|]. by repeat split.
Qed.

(** ** Installing, then removing *)

(** What the version check lets through, the resolver without the check
    reads the same way. *)
Lemma parse_user_input_unchecked (n : string) (p : Plugina) (s : St) :
  parse_user_input E n true s = (Ok (Some p), s) ->
  parse_user_input E n false s = (Ok (Some p), s).
Proof.
  unfold parse_user_input, bind, get, send, emit, modify, ret, raise.
  destruct (ready s); simpl; [|done].
  destruct (registry s !! n) as [d|]; [|done].
  destruct (Str.split_once Str.slash (repository d)) as [[u r]|]; [|done].
  destruct (match d_bot_version d with
            | Some v => if String.eqb v "" then None else Some v
            | None => None
            end) as [v|]; [|done].
  by destruct (version_lt E _ _).
Qed.

(** After an install the loaded set and the host's extensions either both
    hold the plugin or are both as they were. *)
Lemma plugins_add_loaded (n : string) (p : Plugina) (s : St) :
  parse_user_input E n true s = (Ok (Some p), s) ->
  let s' := (plugins_add E n s).2 in
  (p ∈ loaded_plugins s' /\ ext_string p ∈ extensions s') \/
  (loaded_plugins s' = loaded_plugins s /\ extensions s' = extensions s).
Proof.
  intros Hp s'. subst s'. rewrite (plugins_add_eq n p s Hp).
  destruct (in_list _ _); [by right|].
  destruct (bool_decide _); [by right|].
  destruct (download_plugin E p true _) as [[[]|e] s2] eqn:Hd;
    apply download_plugin_only_disk in Hd as (_ & Hl2 & _ & _ & He2 & _);
    unfold record in Hl2, He2; simpl in Hl2, He2; [|by right].
  cbv zeta. destruct (enable_plugins E); [|by right].
  destruct (load_plugin E p _) as [[[]|e] s4] eqn:Hl.
  - apply load_plugin_ok_adds in Hl as [Hl4 He4]. left. unfold record. simpl.
    rewrite Hl4, He4. split; apply elem_of_union_l; by apply elem_of_singleton.
  - apply load_plugin_raise_keeps_loaded in Hl as [Hl4 He4]. right.
    unfold record. simpl. by rewrite Hl4, He4.
Qed.

(** X16. Install, then remove: for a plugin that was neither configured
    nor loaded, once an install has recorded it, removing it by the same
    name succeeds and undoes the install: the configured list is the one
    before the install, nothing is left at or under the install directory,
    and with plugin loading enabled the reference is not in the loaded set
    and its extension not in the host. *)
Theorem remove_undoes_install (n : string) (p : Plugina) (s : St) :
  parse_user_input E n true s = (Ok (Some p), s) ->
  in_list (Plugina_str p) (config_plugins s) = false ->
  (p ∉ loaded_plugins s) ->
  let s1 := (plugins_add E n s).2 in
  config_plugins s1 = config_plugins s ++ [Plugina_str p] ->
  let s2 := (plugins_remove E n s1).2 in
  (plugins_remove E n s1).1 = Ok tt /\
  config_plugins s2 = config_plugins s /\
  (forall q, abs_path E p `prefix_of` q -> FS.is_anchor q = false ->
             FS.exists_ (fs s2) q = false) /\
  (enable_plugins E = true ->
   (p ∉ loaded_plugins s2) /\ (ext_string p ∉ extensions s2)).
Proof.
  intros Hp Hc Hn s1 Hc1 s2.
  assert (resolver_kept s s1) as Hk.
  { subst s1. destruct (plugins_add E n s) as [r s1] eqn:Ha.
    by eapply plugins_add_resolver. }
  pose proof (parse_user_input_again n false s s1 p Hk
                (parse_user_input_unchecked n p s Hp)) as Hp1.
  assert (in_list (Plugina_str p) (config_plugins s1) = true) as Hin
    by (rewrite Hc1; apply in_list_snoc).
  destruct (plugins_remove_run n p s1 Hp1 Hin)
    as (l & s4 & Hl & Hrun & Hd & Hgone).
  assert (l = config_plugins s) as ->.
  { rewrite Hc1 in Hl.
    rewrite (list_remove_after (Plugina_str p) (config_plugins s) []) in Hl.
    - rewrite app_nil_r in Hl. congruence.
    - intros Hx%in_list_elem. congruence. }
  subst s2. rewrite Hrun. destruct Hd as (_ & Hl4 & _ & Hc4 & He4 & _).
  unfold record. simpl in *.
  split; [done|]. split; [done|]. split; [done|].
  intros Hen. rewrite Hen in *. rewrite Hl4, He4.
  destruct (unloaded_fields p s1) as (H1 & H2 & _). split; [|done].
  apply H2. destruct (plugins_add_loaded n p s Hp) as [[_ He]|[Hl1 _]].
  - by left.
  - right. fold s1 in Hl1. by rewrite Hl1.
Qed.

(** ** The pages of the loaded list *)

Lemma length_append (a b : string) :
  String.length (a +:+ b) = String.length a + String.length b.
Proof. induction a as [|c a IH]; simpl; [done|]. by rewrite IH. Qed.

Lemma ends_with_append (c : ascii) (a b : string) :
  b <> "" -> Str.ends_with c (a +:+ b) = Str.ends_with c b.
Proof.
  intros Hb. induction a as [|x a IH]; [done|].
  rewrite append_cons. simpl. rewrite IH.
  destruct (a +:+ b) eqn:Hab; [|done].
  destruct a; [by simpl in Hab|by simpl in Hab].
Qed.

Lemma slice_from_suffix (k : nat) (s : string) :
  exists pre, s = pre +:+ slice_from k s.
Proof.
  revert s. induction k as [|k IH]; intros s.
  - exists "". by destruct s.
  - destruct s as [|c s]; [by exists ""|].
    destruct (IH s) as [pre Hpre]. exists (String c pre).
    change (String c s = String c (pre +:+ slice_from k s)). by f_equal.
Qed.

(** A string that ends with a newline does not end with the fence. *)
Lemma last_chars_newline (s : string) :
  Str.ends_with Str.newline s = true ->
  String.eqb (last_chars 3 s) fence = false.
Proof.
  intros Hs. apply String.eqb_neq. intros Hf. unfold last_chars in Hf.
  destruct (slice_from_suffix (String.length s - 3) s) as [pre Hpre].
  rewrite Hf in Hpre. rewrite Hpre, ends_with_append in Hs; done.
Qed.

Lemma lines_snoc (g : list string) (x : string) :
  lines (g ++ [x]) = lines g +:+ (x +:+ String Str.newline "").
Proof.
  induction g as [|y g IH]; simpl.
  - by rewrite append_nil_r.
  - by rewrite IH, !append_assoc.
Qed.

Lemma open_page_newline (g : list string) :
  Str.ends_with Str.newline (page_open +:+ lines g) = true.
Proof.
  destruct g as [|x g _] using rev_ind.
  - done.
  - rewrite lines_snoc, <- !append_assoc. by rewrite ends_with_append.
Qed.

Lemma last_page_snoc (init : list string) (cur : string) :
  last_page (init ++ [cur]) = cur.
Proof. unfold last_page. apply last_last. Qed.

Lemma extend_last_snoc (x : string) (init : list string) (cur : string) :
  extend_last x (init ++ [cur]) = init ++ [cur +:+ x].
Proof. unfold extend_last. by rewrite removelast_last, last_page_snoc. Qed.

(** The loop keeps the pages in this shape: closed pages, then one open
    page; each holds whole lines, no line is lost and none changes place;
    and the pages stay within the limit as long as the lines do. *)
Lemma add_line_loop (l : list string) :
  forall (closed : list (list string)) (cur : list string),
  exists (closed' : list (list string)) (cur' : list string),
    concat (closed' ++ [cur']) = concat (closed ++ [cur]) ++ l /\
    fold_left add_line l (map fenced closed ++ [page_open +:+ lines cur])
    = map fenced closed' ++ [page_open +:+ lines cur'] /\
    ((forall x, x ∈ l -> String.length x <= 2040) ->
     (forall g, g ∈ closed -> String.length (fenced g) <= 2048) ->
     String.length (page_open +:+ lines cur) + 3 <= 2048 ->
     (forall g, g ∈ closed' -> String.length (fenced g) <= 2048) /\
     String.length (page_open +:+ lines cur') + 3 <= 2048).
Proof.
  induction l as [|x l IH]; intros closed cur.
  - exists closed, cur. simpl. by rewrite app_nil_r.
  - cbn [fold_left]. unfold add_line at 2.
    rewrite last_page_snoc, !extend_last_snoc.
    destruct (_ <=? 2048)%nat eqn:Hfit.
    + destruct (IH closed (cur ++ [x])) as (closed' & cur' & Hc & Hf & Hb).
      exists closed', cur'. split; [|split].
      * rewrite Hc, !concat_app. cbn [concat].
        by rewrite !app_nil_r, <- !app_assoc.
      * rewrite <- Hf. by rewrite lines_snoc, append_assoc.
      * intros Hx Hcl Hcur. apply Hb; [|done|].
        -- intros y Hy. apply Hx. by right.
        -- apply Nat.leb_le in Hfit.
           rewrite lines_snoc, <- append_assoc, length_append. lia.
    + destruct (IH (closed ++ [cur]) [x]) as (closed' & cur' & Hc & Hf & Hb).
      exists closed', cur'. split; [|split].
      * rewrite Hc, !concat_app. cbn [concat].
        by rewrite !app_nil_r, <- !app_assoc.
      * rewrite <- Hf, map_app. cbn [map lines fold_right].
        by rewrite append_nil_r.
      * intros Hx Hcl Hcur. apply Hb.
        -- intros y Hy. apply Hx. by right.
        -- intros g [Hg| ->%list_elem_of_singleton]%elem_of_app; [by apply Hcl|].
           unfold fenced. rewrite length_append.
           change (String.length fence) with 3. lia.
        -- cbn [lines fold_right]. rewrite append_nil_r, !length_append.
           change (String.length page_open) with 4.
           change (String.length (String Str.newline "")) with 1.
           specialize (Hx x (list_elem_of_here _ _)). lia.
Qed.

(** X17. The pages of the loaded list are code blocks that share out the
    lines: each page is an opening fence on a line of its own, some of the
    canonical forms one per line, and the closing fence; read page after
    page the lines are the loaded plugins in the order given, none lost
    and none split between two pages. *)
Theorem loaded_pages_share_out_lines (loaded : list string) :
  exists groups : list (list string),
    concat groups = loaded /\ loaded_pages loaded = map fenced groups.
Proof.
  destruct (add_line_loop loaded [] []) as (closed & cur & Hc & Hf & _).
  exists (closed ++ [cur]). split; [done|].
  unfold loaded_pages. cbn [map app lines fold_right] in Hf.
  rewrite append_nil_r in Hf.
  rewrite Hf, last_page_snoc, last_chars_newline by apply open_page_newline.
  cbn [negb]. by rewrite extend_last_snoc, map_app.
Qed.

(** X18. The pages fit the embed description: if every canonical form has
    at most 2040 characters, every page has at most 2048. *)
Theorem loaded_pages_fit (loaded : list string) (page : string) :
  (forall x, x ∈ loaded -> String.length x <= 2040) ->
  page ∈ loaded_pages loaded ->
  String.length page <= 2048.
Proof.
  intros Hx.
  destruct (add_line_loop loaded [] []) as (closed & cur & _ & Hf & Hb).
  destruct Hb as [Hcl Hcur];
    [done|by intros g ?%elem_of_nil|by vm_compute; lia|].
  unfold loaded_pages. cbn [map app lines fold_right] in Hf.
  rewrite append_nil_r in Hf.
  rewrite Hf, last_page_snoc, last_chars_newline by apply open_page_newline.
  cbn [negb]. rewrite extend_last_snoc.
  intros [Hp| ->%list_elem_of_singleton]%elem_of_app.
  - apply list_elem_of_fmap in Hp as (g & -> & Hg). by apply Hcl.
  - rewrite length_append. change (String.length fence) with 3. lia.
Qed.

(** ** The cache file of a reference *)

Lemma append_inv_r (a b z : string) : a +:+ z = b +:+ z -> a = b.
Proof.
  revert b. induction a as [|x a IH]; intros [|y b] H.
  - done.
  - apply (f_equal String.length) in H.
    rewrite append_nil_l, append_cons in H. simpl in H.
    rewrite length_append in H. lia.
  - apply (f_equal String.length) in H.
    rewrite append_nil_l, append_cons in H. simpl in H.
    rewrite length_append in H. lia.
  - rewrite !append_cons in H. injection H as -> H. by rewrite (IH b H).
Qed.

Lemma cache_path_plain (p : Plugina) :
  Str.contains Str.slash (user p) = false ->
  Str.contains Str.slash (repo p) = false ->
  Str.contains Str.slash (branch p) = false ->
  cache_path E p
  = Path.div (Path.div (bot_dir E) "temp") "plugins-cache"
    ++ [user p +:+ "-" +:+ repo p +:+ "-" +:+ branch p +:+ ".zip"].
Proof.
  intros Hu Hr Hb. unfold cache_path.
  set (nm := user p +:+ "-" +:+ repo p +:+ "-" +:+ branch p +:+ ".zip").
  assert (segment nm) as Hs.
  { split.
    - subst nm. rewrite !contains_append, Hu, Hr, Hb. done.
    - assert (Str.contains hyphen nm = true) as Hh.
      { subst nm. rewrite !contains_append. simpl. by rewrite orb_true_r. }
      unfold Path.clean.
      destruct (String.eqb_spec nm "") as [He|_]; [by rewrite He in Hh|].
      destruct (String.eqb_spec nm ".") as [He|_]; [by rewrite He in Hh|].
      done. }
  unfold Path.div at 1. rewrite (parts_segment nm Hs).
  apply join_segments. by constructor.
Qed.

(** X19. One cache file, one archive: for two references without ['/']
    in owner, repository and branch and without ['-'] in owner and
    repository, the cache paths are the same exactly when owner,
    repository and branch are, and then the archive URLs are the same. *)
Theorem cache_file_identifies_archive (p q : Plugina) :
  cache_plain p = true -> cache_plain q = true ->
  (cache_path E p = cache_path E q <->
   user p = user q /\ repo p = repo q /\ branch p = branch q) /\
  (cache_path E p = cache_path E q -> url p = url q).
Proof.
  unfold cache_plain. rewrite !andb_true_iff, !negb_true_iff.
  intros ((((Hu & Hu') & Hr) & Hr') & Hb) ((((Hv & Hv') & Hs) & Hs') & Hc).
  assert (cache_path E p = cache_path E q ->
          user p = user q /\ repo p = repo q /\ branch p = branch q) as Hinj.
  { rewrite !cache_path_plain by done. intros H%app_inv_head.
    injection H as H.
    apply (append_sep_inj hyphen) in H as [Hx H]; [|done..].
    apply (append_sep_inj hyphen) in H as [Hy H]; [|done..].
    apply append_inv_r in H. done. }
  split; [split; [done|]|].
  - intros (Hx & Hy & Hz). unfold cache_path. by rewrite Hx, Hy, Hz.
  - intros (Hx & Hy & Hz)%Hinj. unfold url. by rewrite Hx, Hy, Hz.
Qed.

(** ** The registry pages *)

Lemma index_of_lookup (x : string) (names : list string) (i : nat) :
  index_of x names = Some i -> names !! i = Some x.
Proof.
  revert i. induction names as [|n names IH]; intros i; simpl; [done|].
  destruct (String.eqb_spec x n) as [->|_].
  - by intros [= <-].
  - destruct (index_of x names) as [j|]; simpl; [|done].
    intros [= <-]. simpl. by apply IH.
Qed.

Lemma index_of_none (x : string) (names : list string) :
  index_of x names = None <-> x ∉ names.
Proof.
  induction names as [|n names IH]; simpl.
  - split; [intros _; apply not_elem_of_nil|done].
  - rewrite not_elem_of_cons. destruct (String.eqb_spec x n) as [->|Hne].
    + split; [done|]. by intros [? _].
    + destruct (index_of x names) as [j|]; simpl.
      * split; [done|]. intros [_ Hx]. by apply IH in Hx.
      * split; [|done]. intros _. split; [done|]. by apply IH.
Qed.

Lemma index_of_first (x : string) (names : list string) :
  index_of x names = Some 0 <-> head names = Some x.
Proof.
  destruct names as [|n names]; simpl; [done|].
  destruct (String.eqb_spec x n) as [->|Hne].
  - done.
  - destruct (index_of x names); simpl; split; try done; intros [= ->]; done.
Qed.

Lemma sorted_names_elem (r : gmap string Details) (x : string) :
  x ∈ sorted_names r <-> is_Some (r !! x).
Proof.
  unfold sorted_names. rewrite merge_sort_Permutation.
  change (map fst (map_to_list r)) with ((map_to_list r).*1).
  rewrite list_elem_of_fmap. split.
  - intros ([k d] & -> & Hk). apply elem_of_map_to_list in Hk. by exists d.
  - intros [d Hd]. exists (x, d). split; [done|]. by apply elem_of_map_to_list.
Qed.

(** X20. Looking a plugin up by name in the registry: the command answers
    that the plugin could not be found exactly when the name is not in the
    catalog or is the first name of the sorted catalog; otherwise the
    paginator opens at a page past the first, the page of that name. *)
Theorem registry_lookup_by_name (r : gmap string Details) (x : string) :
  let names := sorted_names r in
  let index := registry_index (ArgStr x) names in
  (registry_not_found (ArgStr x) names = true <->
   r !! x = None \/ head names = Some x) /\
  (registry_not_found (ArgStr x) names = false ->
   (0 < index)%Z /\ names !! Z.to_nat index = Some x).
Proof.
  intros names index. subst index.
  unfold registry_not_found, registry_index. rewrite andb_true_r.
  destruct (index_of x names) as [i|] eqn:Hi.
  - pose proof (index_of_lookup _ _ _ Hi) as Hl. split.
    + rewrite Z.eqb_eq. split.
      * intros H0. right. apply index_of_first. rewrite Hi. f_equal. lia.
      * intros [Hn|Hh].
        -- assert (x ∈ names) as Hx by (by eapply list_elem_of_lookup_2).
           apply sorted_names_elem in Hx as [d Hd]. congruence.
        -- apply index_of_first in Hh. rewrite Hi in Hh.
           by injection Hh as ->.
    + rewrite Z.eqb_neq. intros H0. split; [lia|]. by rewrite Nat2Z.id.
  - split; [|done]. split; [|done]. intros _. left.
    apply index_of_none in Hi. apply eq_None_not_Some.
    intros Hs. by apply Hi, sorted_names_elem.
Qed.

(** X21. Asking for a page of a catalog that is not empty: the page
    number is brought into the range of the pages, and numbers inside the
    range open their own page; but page one, like every number below it and
    every number when there is one page only, is answered as a plugin that
    could not be found. *)
Theorem registry_page_number (names : list string) (n : Z) :
  names <> [] ->
  let index := registry_index (ArgInt n) names in
  let len := Z.of_nat (length names) in
  (0 <= index < len)%Z /\
  ((1 <= n <= len)%Z -> index = (n - 1)%Z) /\
  (registry_not_found (ArgInt n) names = true <-> (n <= 1)%Z \/ len = 1%Z).
Proof.
  intros Hne index len. subst index.
  assert (1 <= len)%Z as Hlen.
  { subst len. destruct names; [done|]. simpl. lia. }
  unfold registry_not_found, registry_index. fold len. rewrite andb_true_r.
  rewrite Z.eqb_eq, !Z.geb_leb.
  destruct (Z.ltb_spec (n - 1) 0).
  - destruct (Z.leb_spec len 0); lia.
  - destruct (Z.leb_spec len (n - 1)); lia.
Qed.

(** [parse_user_input] on a name of the catalog, once the start-up pass
    is over. *)
Lemma parse_user_input_registry (n : string) (cv : bool) (s : St)
  (d : Details) :
  ready s = true ->
  registry s !! n = Some d ->
  parse_user_input E n cv s
  = match Str.split_once Str.slash (repository d) with
    | None => (Raise ValueError, s)
    | Some (u, r) =>
        let plugin := Plugina_new u r n (d_branch d) in
        match (if cv
               then match d_bot_version d with
                    | Some v => if String.eqb v "" then None else Some v
                    | None => None
                    end
               else None) with
        | Some v =>
            if version_lt E (bot_version E) (parse_version E v)
            then (Ok None, record (EvSend (MsgVersionTooLow v)) s)
            else (Ok (Some plugin), s)
        | None => (Ok (Some plugin), s)
        end
    end.
Proof.
  intros Hr Hd. unfold parse_user_input, bind, get. rewrite Hr, Hd. simpl.
  destruct (Str.split_once Str.slash (repository d)) as [[u r]|]; [|done].
  destruct (if cv then _ else _) as [v|]; [|done].
  by destruct (version_lt E _ _).
Qed.

(** X22. The footer of a registry page tells what an install of that name
    does, once the start-up pass is over: where the footer says the bot is
    unable to install the plugin, the install answers with the
    version-too-low message for the same version and does nothing else;
    where it says the bot is able to, the name resolves with the version
    check to a reference that is not loaded; and where the page cannot be
    built because the repository holds no ['/'], the install raises the
    same error. *)
Theorem footer_agrees_with_install (s : St) (n : string) (d : Details) :
  ready s = true ->
  registry s !! n = Some d ->
  match registry_footer E s n d with
  | Some (FooterUnable v) =>
      plugins_add E n s = (Ok tt, record (EvSend (MsgVersionTooLow v)) s)
  | Some FooterAble =>
      exists p, parse_user_input E n true s = (Ok (Some p), s) /\
                (p ∉ loaded_plugins s)
  | Some FooterLoaded =>
      exists p, parse_user_input E n false s = (Ok (Some p), s) /\
                p ∈ loaded_plugins s
  | None => plugins_add E n s = (Raise ValueError, s)
  end.
Proof.
  intros Hr Hd.
  pose proof (parse_user_input_registry n true s d Hr Hd) as Ht.
  pose proof (parse_user_input_registry n false s d Hr Hd) as Hf.
  unfold registry_footer.
  destruct (Str.split_once Str.slash (repository d)) as [[u r]|].
  - cbv zeta in Ht, Hf. destruct (bool_decide _) eqn:Hl.
    + apply bool_decide_eq_true in Hl. by eexists.
    + apply bool_decide_eq_false in Hl.
      destruct (d_bot_version d) as [v|]; [destruct (String.eqb v "")|];
        try (by eexists).
      destruct (version_lt E _ _); [|by eexists].
      unfold plugins_add. by rewrite (bind_ok _ _ _ _ _ Ht).
  - unfold plugins_add. by rewrite (bind_raise _ _ _ _ _ Ht).
Qed.

(** ** Reading a run off its result *)

Lemma pair_of_fst {A B} (x : A * B) (a : A) : x.1 = a -> x = (a, x.2).
Proof. destruct x. simpl. by intros ->. Qed.

Lemma parse_user_input_pair (n : string) (cv : bool) (s : St) (p : Plugina) :
  (parse_user_input E n cv s).1 = Ok (Some p) ->
  parse_user_input E n cv s = (Ok (Some p), s).
Proof.
  destruct (parse_user_input E n cv s) as [r s'] eqn:Hp. simpl. intros ->.
  by apply parse_user_input_found in Hp as [-> _].
Qed.

End Properties.

(* ================================================================= *)
(** * The properties on a concrete host *)

Section Concrete.

Import Demo.

(** C1. The invariant holds where a load fails (see
    [load_plugin_raise_keeps_loaded]) and breaks in [update_plugin]: the
    extension is unloaded from the host but the reference stays in
    [loaded_plugins], so that when the load that follows fails (here the
    requirements of the new [B] cannot be installed) the process is left
    with [B] in the loaded set and no extension of [B] in the host. *)
Theorem update_leaves_stale_member :
  reachable E (bot only_B) (started E only_B) /\
  pB ∈ loaded_plugins (started E only_B) /\
  ext_string pB ∈ extensions (started E only_B) /\
  (update_plugin E "u/r/B@master" (started E only_B)).1
  = Raise (InvalidPluginError
             (RequirementsFailed "ERROR: No matching distribution found")) /\
  reachable E (bot only_B) updated_B /\
  pB ∈ loaded_plugins updated_B /\
  (ext_string pB ∉ extensions updated_B) /\
  ~ loaded_invariant updated_B.
Proof.
  assert (reachable E (bot only_B) (started E only_B)) as Hs.
  { apply rtc_once. by apply step_task. }
  assert (pB ∈ loaded_plugins updated_B) as Hin
    by (refine (bool_decide_unpack _ _); by vm_compute).
  assert (ext_string pB ∉ extensions updated_B) as Hout
    by (refine (bool_decide_unpack _ _); by vm_compute).
  split; [done|].
  split; [refine (bool_decide_unpack _ _); by vm_compute|].
  split; [refine (bool_decide_unpack _ _); by vm_compute|].
  split; [by vm_compute|].
  split; [eapply rtc_r; [exact Hs|apply step_command]|].
  split; [done|]. split; [done|].
  intros Hinv. exact (Hout (proj1 (Hinv pB) Hin)).
Qed.

(** C5. Three plugins are configured and loaded; the requirements of the
    second cannot be installed. The bulk update reports the first, raises
    on the second, and never comes to the third: no message is sent for it
    and its install directory is not touched. *)
Theorem bulk_update_stops_at_failure :
  config_plugins (started E three) = three /\
  loaded_plugins (started E three) = {[pA; pB; pC]} /\
  (plugins_update E None (started E three)).1
  = Raise (InvalidPluginError
             (RequirementsFailed "ERROR: No matching distribution found")) /\
  sent (trace updated_all) = [MsgUpdated "A"] /\
  (EvMkdir (abs_path E pC))
    ∉ drop (length (trace (started E three))) (trace updated_all).
Proof.
  split; [by vm_compute|].
  split; [refine (bool_decide_unpack _ _); by vm_compute|].
  split; [by vm_compute|].
  split; [by vm_compute|].
  refine (bool_decide_unpack _ _). by vm_compute.
Qed.

(** C2, as stated, fails before the start-up pass has finished: the
    catalog already lists ["next"], which asks for a newer host, but the
    install is answered with the still-loading message. *)
Lemma version_gate_before_ready :
  reachable E (bot only_B) (loading E only_B) /\
  registry (loading E only_B) !! "next"
  = Some (mkDetails "u/r" (Some "dev") (Some "9.0")) /\
  version_lt E (bot_version E) (parse_version E "9.0") = true /\
  (parse_user_input E "next" true (loading E only_B)).1 = Ok None /\
  sent (trace (plugins_add E "next" (loading E only_B)).2) = [MsgStillLoading] /\
  sent (trace (plugins_add E "next" (loading E only_B)).2)
  <> [MsgVersionTooLow "9.0"].
Proof.
  split; [apply rtc_once; by apply step_task|].
  split; [by vm_compute|]. split; [by vm_compute|].
  split; [by vm_compute|]. split; [by vm_compute|].
  vm_compute. discriminate.
Qed.

Lemma started_reachable (e : Env (list nat)) (plugins : list string) :
  enable_plugins e = true -> reachable e (bot plugins) (started e plugins).
Proof.
  intros He. apply rtc_once. apply step_task.
  unfold boot, Plugin_init, bind, modify, create_task, ret. simpl.
  by rewrite He.
Qed.

Lemma settled_reachable : reachable E (bot only_B) settled.
Proof.
  eapply rtc_r; [by apply started_reachable|]. by apply step_task.
Qed.

Lemma version_gate_witness :
  let d := mkDetails "u/r" (Some "dev") (Some "9.0") in
  (ready settled = true /\
   registry settled !! "next" = Some d /\
   Str.split_once Str.slash (repository d) = Some ("u", "r") /\
   d_bot_version d = Some "9.0" /\
   "9.0" <> "" /\
   version_lt E (bot_version E) (parse_version E "9.0") = true) /\
  plugins_add E "next" settled
  = (Ok tt,
     set_trace (trace settled ++ [EvSend (MsgVersionTooLow "9.0")]) settled).
Proof.
  intros d.
  assert (ready settled = true) as H1 by (by vm_compute).
  assert (registry settled !! "next" = Some d) as H2 by (by vm_compute).
  assert (Str.split_once Str.slash (repository d) = Some ("u", "r")) as H3
    by reflexivity.
  assert (d_bot_version d = Some "9.0") as H4 by reflexivity.
  assert ("9.0" <> "") as H5 by discriminate.
  assert (version_lt E (bot_version E) (parse_version E "9.0") = true) as H6
    by reflexivity.
  split; [exact (conj H1 (conj H2 (conj H3 (conj H4 (conj H5 H6)))))|].
  exact (proj1 (proj2 (version_gate E settled "next" d "u" "r" "9.0"
                         H1 H2 H3 H4 H5 H6))).
Defined.

Lemma download_twice_witness :
  (FS.exists_ (fs settled) (abs_path E pB) = true /\
   (download_plugin E pB false settled).1 = Ok tt) /\
  download_plugin E pB false settled = (Ok tt, settled) /\
  download_plugin E pB false (download_plugin E pB false settled).2
  = (Ok tt, (download_plugin E pB false settled).2).
Proof.
  assert (FS.exists_ (fs settled) (abs_path E pB) = true) as H1
    by (by vm_compute).
  assert ((download_plugin E pB false settled).1 = Ok tt) as H2
    by (by vm_compute).
  split; [exact (conj H1 H2)|].
  destruct (download_twice_fetches_once E pB settled) as (_ & Hnoop & Hnext).
  split; [exact (Hnoop H1)|exact (Hnext H2)].
Defined.






(** C9, as stated, fails with plugin loading disabled: no start-up pass
    is scheduled, so once the two scheduled coroutines have run nothing is
    left to set the event, and it is unset for good; the list of loaded
    plugins is answered with the plugins-disabled message, not the
    still-loading one. *)
Lemma gate_stays_closed_when_disabled :
  enable_plugins E_disabled = false /\
  tasks disabled_boot = [TaskPopulateRegistry; TaskPopulateVRegistry] /\
  reachable E_disabled (bot only_B) disabled_settled /\
  tasks disabled_settled = [] /\
  ready disabled_settled = false /\
  ready_set_count (trace disabled_settled) = 0 /\
  sent (trace (plugins_loaded E_disabled disabled_boot).2)
  = [MsgPluginsDisabled] /\
  sent (trace (plugins_loaded E_disabled disabled_boot).2)
  <> [MsgStillLoading].
Proof.
  split; [done|]. split; [done|].
  split.
  { eapply rtc_l; [by apply (step_task E_disabled TaskPopulateRegistry [])|].
    apply rtc_once. by apply (step_task E_disabled TaskPopulateVRegistry []). }
  split; [by vm_compute|]. split; [by vm_compute|]. split; [by vm_compute|].
  split; [by vm_compute|]. vm_compute. discriminate.
Qed.

Lemma readiness_gate_witness :
  reachable E (bot only_B) (started E only_B) /\
  enable_plugins E = true /\
  ready_set_count (trace (started E only_B))
  = (if ready (started E only_B) then 1 else 0).
Proof.
  assert (reachable E (bot only_B) (started E only_B)) as H1
    by (by apply started_reachable).
  assert (enable_plugins E = true) as H2 by reflexivity.
  split; [exact H1|]. split; [exact H2|].
  exact (proj1 (proj1 (proj2 (readiness_gate E (bot only_B) (started E only_B)
                                H1)) H2)).
Defined.

Lemma refresh_replaces_witness :
  let d := mkDetails "u/r" (Some "dev") (Some "9.0") in
  (http_get E registry_url = Some "official.json" /\
   json_loads E "official.json" = Some official /\
   http_get E vregistry_url = Some "alternate.json" /\
   json_loads E "alternate.json" = Some alternate /\
   registry settled !! "next" = Some d /\
   alternate !! "next" = Some d /\
   official !! "next" = None /\
   ready settled = true) /\
  registry (populate_registry E settled).2 !! "next" = None.
Proof.
  intros d.
  assert (registry settled !! "next" = Some d) as H5 by (by vm_compute).
  assert (alternate !! "next" = Some d) as H6 by (by vm_compute).
  assert (official !! "next" = None) as H7 by (by vm_compute).
  assert (ready settled = true) as H8 by (by vm_compute).
  split; [exact (conj eq_refl (conj eq_refl (conj eq_refl (conj eq_refl
            (conj H5 (conj H6 (conj H7 H8)))))))|].
  exact (proj1 (proj2 (proj2 (proj2 (proj2
           (refresh_replaces_catalog E settled "official.json" "alternate.json"
              official alternate "next" d eq_refl eq_refl eq_refl eq_refl
              H5 H6 H7 H8)))))).
Defined.

(** ** The further properties on the concrete host *)

Lemma from_string_of_str_witness :
  Plugina_plain pA = true /\
  from_string "u/r/A@master" true = Some pA /\
  from_string "u/r/A@master" false = Some pA.
Proof.
  exact (conj eq_refl (conj (from_string_of_str pA true eq_refl)
                            (from_string_of_str pA false eq_refl))).
Defined.

Lemma from_string_legacy_witness :
  from_string "u/r/A" false = Some pA /\ from_string "u/r/A" true = None.
Proof.
  exact (conj (proj1 (from_string_legacy "u" "r" "A" eq_refl eq_refl eq_refl
                                         eq_refl eq_refl eq_refl))
              (proj2 (from_string_legacy "u" "r" "A" eq_refl eq_refl eq_refl
                                         eq_refl eq_refl eq_refl)
                     eq_refl eq_refl)).
Defined.

Lemma name_without_slash_witness :
  Str.contains Str.slash "nosuch" = false /\
  from_string "nosuch" false = None /\
  parse_user_input E "nosuch" true idle
  = (Ok None, set_trace (trace idle ++ [EvSend MsgInvalidName]) idle).
Proof.
  split; [reflexivity|]. split.
  - exact (proj1 (name_without_slash_is_invalid E "nosuch" false true idle
                    eq_refl)).
  - exact (proj2 (name_without_slash_is_invalid E "nosuch" false true idle
                    eq_refl) eq_refl eq_refl).
Defined.

(** The archive of [u/r] is in the cache after the download of [A]: the
    fetch of [C] reads it from there. *)
Lemma cache_hit_witness :
  FS.exists_ (fs cached) (cache_path E pC) = true /\
  fetch_count (trace (download_plugin E pC false cached).2)
  = fetch_count (trace cached).
Proof.
  assert (FS.exists_ (fs cached) (cache_path E pC) = true) as H1
    by (by vm_compute).
  split; [exact H1|].
  exact (proj1 (cache_hit_makes_no_request E pC cached
                  (download_plugin E pC false cached).2
                  (download_plugin E pC false cached).1
                  H1 (surjective_pairing _))).
Defined.

Lemma some_default {A} (d : A) (x : option A) :
  match x with Some _ => true | None => false end = true ->
  x = Some (default d x).
Proof. by destruct x. Qed.

Lemma download_requests_once_witness :
  FS.mkdir true (abs_path E pA) (fs idle) = Some made_A /\
  fetch_count (trace (download_plugin E pA true idle).2)
  = fetch_count (trace idle) + 1 /\
  EvHttpGet (url pA) ∈ trace (download_plugin E pA true idle).2.
Proof.
  assert (FS.exists_ (fs idle) (abs_path E pA) && negb true = false) as H0
    by (by vm_compute).
  assert (FS.mkdir true (abs_path E pA) (fs idle) = Some made_A) as Hm
    by (apply some_default; vm_compute; reflexivity).
  assert (FS.exists_ made_A (cache_path E pA) && negb true = false) as Hc
    by (vm_compute; reflexivity).
  split; [exact Hm|].
  exact (download_requests_once E pA true idle
           (download_plugin E pA true idle).2 made_A
           (download_plugin E pA true idle).1
           H0 Hm Hc (surjective_pairing _)).
Defined.

Lemma extracted_entries_witness :
  let info := mkZipInfo "r-master/A/data/words.txt" "a b c" in
  (info ∈ archive /\ selected pA info = true /\
   target E pA info
   = ["/"; "bot"; "plugins"; "u"; "r"; "A-master"; "data"; "words.txt"]) /\
  FS.exists_ (fs extracted_A) (target E pA info) = true.
Proof.
  intros info.
  assert ((extract_all E pA archive idle).1 = Ok tt) as H0
    by (vm_compute; reflexivity).
  pose proof (pair_of_fst _ _ H0
              : extract_all E pA archive idle = (Ok tt, extracted_A)) as H1.
  assert (info ∈ archive) as H2
    by (refine (bool_decide_unpack _ _); vm_compute; exact I).
  assert (selected pA info = true) as H3 by (vm_compute; reflexivity).
  assert (target E pA info
          = ["/"; "bot"; "plugins"; "u"; "r"; "A-master"; "data"; "words.txt"])
    as H4 by (vm_compute; reflexivity).
  split; [exact (conj H2 (conj H3 H4))|].
  exact (extracted_entries_exist E pA archive idle extracted_A info H1 H2 H3).
Defined.

Lemma fetched_plugin_witness :
  let info := mkZipInfo "r-master/A/A.py" "class A" in
  Path.parts (filename info) = ["r-master"; name pA; name pA +:+ ".py"] /\
  FS.exists_ (fs extracted_A) (entry_file E pA) = true /\
  (load_plugin E pA extracted_A).1
  <> Raise (InvalidPluginError (EntryNotFound (name pA +:+ ".py"))).
Proof.
  intros info.
  assert ((extract_all E pA archive idle).1 = Ok tt) as H0
    by (vm_compute; reflexivity).
  pose proof (pair_of_fst _ _ H0
              : extract_all E pA archive idle = (Ok tt, extracted_A)) as H1.
  assert (info ∈ archive) as H2
    by (refine (bool_decide_unpack _ _); vm_compute; exact I).
  assert (Path.parts (filename info)
          = ["r-master"; name pA; name pA +:+ ".py"]) as H3
    by (vm_compute; reflexivity).
  split; [exact H3|].
  exact (fetched_plugin_has_entry_file E pA archive idle extracted_A
           (load_plugin E pA extracted_A).2 info "r-master"
           (load_plugin E pA extracted_A).1
           H1 H2 H3 (surjective_pairing _)).
Defined.

Lemma load_plugin_all_or_nothing_witness :
  let run := load_plugin E pB (fetched_B E) in
  (run.1 = Ok tt /\
   loaded_plugins run.2 = {[pB]} ∪ loaded_plugins (fetched_B E) /\
   extensions run.2 = {[ext_string pB]} ∪ extensions (fetched_B E) /\
   ext_string pB ∉ extensions (fetched_B E))
  \/ (exists e, run.1 = Raise e /\
                loaded_plugins run.2 = loaded_plugins (fetched_B E) /\
                extensions run.2 = extensions (fetched_B E)).
Proof.
  exact (load_plugin_all_or_nothing E pB (fetched_B E) _ _
           (surjective_pairing _)).
Defined.

(** Installing [A] by its full reference on a host with nothing installed:
    the install is recorded, and a second install is turned down. *)
Lemma install_records_witness :
  (parse_user_input E "u/r/A@master" true idle = (Ok (Some pA), idle) /\
   in_list (Plugina_str pA) (config_plugins idle) = false /\
   (name pA ∉ cogs idle)) /\
  (plugins_add E "u/r/A@master" idle).1 = Ok tt /\
  config_plugins (plugins_add E "u/r/A@master" idle).2
  = config_plugins idle ++ [Plugina_str pA].
Proof.
  assert ((parse_user_input E "u/r/A@master" true idle).1 = Ok (Some pA))
    as H0 by (vm_compute; reflexivity).
  pose proof (parse_user_input_pair E _ _ _ _ H0) as H1.
  assert (in_list (Plugina_str pA) (config_plugins idle) = false) as H2
    by (vm_compute; reflexivity).
  assert (name pA ∉ cogs idle) as H3
    by (refine (bool_decide_unpack _ _); vm_compute; exact I).
  assert ((download_plugin E pA true
             (record (EvSend (MsgStartDownload (link pA))) idle)).1 = Ok tt)
    as Hd by (vm_compute; reflexivity).
  split; [exact (conj H1 (conj H2 H3))|].
  exact (conj
           (proj1 (install_records_before_loading E "u/r/A@master" pA idle
                     H1 H2 H3))
           (proj1 (proj1 (proj2 (install_records_before_loading E
                                   "u/r/A@master" pA idle H1 H2 H3)) Hd))).
Defined.

Lemma second_install_witness :
  plugins_add E "u/r/A@master" (plugins_add E "u/r/A@master" idle).2
  = (Ok tt, record (EvSend MsgAlreadyInstalled)
              (plugins_add E "u/r/A@master" idle).2) /\
  config_plugins
    (plugins_add E "u/r/A@master" (plugins_add E "u/r/A@master" idle).2).2
  = config_plugins idle ++ [Plugina_str pA].
Proof.
  assert ((parse_user_input E "u/r/A@master" true idle).1 = Ok (Some pA))
    as H0 by (vm_compute; reflexivity).
  pose proof (parse_user_input_pair E _ _ _ _ H0) as H1.
  assert (in_list (Plugina_str pA) (config_plugins idle) = false) as H2
    by (vm_compute; reflexivity).
  assert (name pA ∉ cogs idle) as H3
    by (refine (bool_decide_unpack _ _); vm_compute; exact I).
  assert ((download_plugin E pA true
             (record (EvSend (MsgStartDownload (link pA))) idle)).1 = Ok tt)
    as Hd by (vm_compute; reflexivity).
  exact (second_install_is_rejected E "u/r/A@master" pA idle H1 H2 H3 Hd).
Defined.

(** Removing [B] from the host that loaded it at start-up. *)
Lemma remove_uninstalls_witness :
  (parse_user_input E "u/r/B@master" false settled = (Ok (Some pB), settled) /\
   in_list (Plugina_str pB) (config_plugins settled) = true) /\
  (plugins_remove E "u/r/B@master" settled).1 = Ok tt /\
  list_remove (Plugina_str pB) (config_plugins settled)
  = Some (config_plugins (plugins_remove E "u/r/B@master" settled).2) /\
  last (trace (plugins_remove E "u/r/B@master" settled).2)
  = Some (EvSend MsgUninstalled) /\
  (ext_string pB ∉ extensions (plugins_remove E "u/r/B@master" settled).2).
Proof.
  assert ((parse_user_input E "u/r/B@master" false settled).1
          = Ok (Some pB)) as H0 by (vm_compute; reflexivity).
  pose proof (parse_user_input_pair E _ _ _ _ H0) as H1.
  assert (in_list (Plugina_str pB) (config_plugins settled) = true) as H2
    by (vm_compute; reflexivity).
  split; [exact (conj H1 H2)|].
  exact (conj
    (proj1 (remove_uninstalls E "u/r/B@master" pB settled H1 H2))
    (conj
      (proj1 (proj2 (remove_uninstalls E "u/r/B@master" pB settled H1 H2)))
      (conj
        (proj1 (proj2 (proj2
           (remove_uninstalls E "u/r/B@master" pB settled H1 H2))))
        (proj1 (proj2 (proj2 (proj2 (proj2
           (remove_uninstalls E "u/r/B@master" pB settled H1 H2))))
           eq_refl))))).
Defined.

Lemma disabled_settled_reachable :
  reachable E_disabled (bot only_B) disabled_settled.
Proof.
  eapply rtc_l; [by apply (step_task E_disabled TaskPopulateRegistry [])|].
  apply rtc_once. by apply (step_task E_disabled TaskPopulateVRegistry []).
Qed.

Lemma disabled_host_witness :
  (enable_plugins E_disabled = false /\
   reachable E_disabled (bot only_B) disabled_settled) /\
  plugins_add E_disabled "u/r/A@master" disabled_settled
  = (Ok tt, record (EvSend MsgStillLoading) disabled_settled) /\
  plugins_remove E_disabled "u/r/B@master" disabled_settled
  = (Ok tt, record (EvSend MsgStillLoading) disabled_settled).
Proof.
  split; [exact (conj eq_refl disabled_settled_reachable)|].
  exact (conj
    (proj1 (disabled_host_only_answers_loading E_disabled (bot only_B)
              "u/r/A@master" disabled_settled eq_refl
              disabled_settled_reachable))
    (proj1 (proj2 (disabled_host_only_answers_loading E_disabled (bot only_B)
              "u/r/B@master" disabled_settled eq_refl
              disabled_settled_reachable)))).
Defined.

(** Updating [B] where the installer keeps quiet. *)
Lemma update_reloads_witness :
  let run := update_plugin E_silent "u/r/B@master" (started E_silent only_B) in
  run.1 = Ok tt /\
  fetch_count (trace run.2)
  = fetch_count (trace (started E_silent only_B)) + 1 /\
  config_plugins run.2 = config_plugins (started E_silent only_B) /\
  FS.exists_ (fs run.2) (abs_path E_silent pB) = true /\
  last (trace run.2) = Some (EvSend (MsgUpdated (name pB))) /\
  pB ∈ loaded_plugins run.2 /\ ext_string pB ∈ extensions run.2.
Proof.
  intros run.
  assert ((parse_user_input E_silent "u/r/B@master" true
             (started E_silent only_B)).1 = Ok (Some pB)) as H0
    by (vm_compute; reflexivity).
  pose proof (parse_user_input_pair E_silent _ _ _ _ H0) as H1.
  assert (in_list (Plugina_str pB) (config_plugins (started E_silent only_B))
          = true) as H2 by (vm_compute; reflexivity).
  assert (run.1 = Ok tt) as H3 by (vm_compute; reflexivity).
  pose proof (update_reloads E_silent "u/r/B@master" pB
                (started E_silent only_B) run.2 H1 H2 (pair_of_fst _ _ H3))
    as (Ha & Hb & Hc & Hd & He).
  exact (conj H3 (conj Ha (conj Hb (conj Hc (conj Hd (He eq_refl)))))).
Defined.

(** Installing [A] and removing it again. *)
Lemma remove_undoes_install_witness :
  let s1 := (plugins_add E "u/r/A@master" idle).2 in
  config_plugins s1 = config_plugins idle ++ [Plugina_str pA] /\
  (plugins_remove E "u/r/A@master" s1).1 = Ok tt /\
  config_plugins (plugins_remove E "u/r/A@master" s1).2 = config_plugins idle.
Proof.
  intros s1.
  assert ((parse_user_input E "u/r/A@master" true idle).1 = Ok (Some pA))
    as H0 by (vm_compute; reflexivity).
  pose proof (parse_user_input_pair E _ _ _ _ H0) as H1.
  assert (in_list (Plugina_str pA) (config_plugins idle) = false) as H2
    by (vm_compute; reflexivity).
  assert (pA ∉ loaded_plugins idle) as H3
    by (refine (bool_decide_unpack _ _); vm_compute; exact I).
  assert (config_plugins s1 = config_plugins idle ++ [Plugina_str pA]) as H4
    by (vm_compute; reflexivity).
  exact (conj H4 (conj
    (proj1 (remove_undoes_install E "u/r/A@master" pA idle H1 H2 H3 H4))
    (proj1 (proj2
       (remove_undoes_install E "u/r/A@master" pA idle H1 H2 H3 H4))))).
Defined.

Lemma loaded_pages_fit_witness :
  fenced ["u/r/A@master"; "u/r/B@master"]
    ∈ loaded_pages ["u/r/A@master"; "u/r/B@master"] /\
  String.length (fenced ["u/r/A@master"; "u/r/B@master"]) <= 2048.
Proof.
  assert (Forall (fun x => String.length x <= 2040)
                 ["u/r/A@master"; "u/r/B@master"]) as HF.
  { constructor; [apply Nat.leb_le; vm_compute; reflexivity|].
    constructor; [apply Nat.leb_le; vm_compute; reflexivity|].
    constructor. }
  assert (fenced ["u/r/A@master"; "u/r/B@master"]
            ∈ loaded_pages ["u/r/A@master"; "u/r/B@master"]) as H2
    by (refine (bool_decide_unpack _ _); vm_compute; exact I).
  split; [exact H2|].
  exact (loaded_pages_fit ["u/r/A@master"; "u/r/B@master"]
           (fenced ["u/r/A@master"; "u/r/B@master"])
           (proj1 (list.Forall_forall _ _) HF) H2).
Defined.

(** [A] and [C] are plugins of one repository: one cache file, and one
    archive. *)
Lemma cache_file_witness :
  (cache_plain pA = true /\ cache_plain pC = true /\
   cache_path E pA = cache_path E pC) /\
  url pA = url pC.
Proof.
  assert (cache_plain pA = true) as H1 by (vm_compute; reflexivity).
  assert (cache_plain pC = true) as H2 by (vm_compute; reflexivity).
  assert (cache_path E pA = cache_path E pC) as H3
    by (vm_compute; reflexivity).
  split; [exact (conj H1 (conj H2 H3))|].
  exact (proj2 (cache_file_identifies_archive E pA pC H1 H2) H3).
Defined.

Lemma registry_page_witness :
  let names := ["A"; "B"; "next"] in
  registry_index (ArgInt 2) names = (2 - 1)%Z /\
  registry_not_found (ArgInt 1) names = true.
Proof.
  intros names.
  assert (names <> []) as Hne by discriminate.
  assert (1 <= 2 <= Z.of_nat (length names))%Z as H2 by (simpl; lia).
  exact (conj
    (proj1 (proj2 (registry_page_number names 2 Hne)) H2)
    (proj2 (proj2 (proj2 (registry_page_number names 1 Hne)))
           (or_introl (Z.le_refl 1)))).
Defined.

(** The page of [next], which wants version 9.0, and its install. *)
Lemma footer_witness :
  let d := mkDetails "u/r" (Some "dev") (Some "9.0") in
  (ready settled = true /\ registry settled !! "next" = Some d /\
   registry_footer E settled "next" d = Some (FooterUnable "9.0")) /\
  plugins_add E "next" settled
  = (Ok tt, record (EvSend (MsgVersionTooLow "9.0")) settled).
Proof.
  intros d.
  assert (ready settled = true) as H1 by (vm_compute; reflexivity).
  assert (registry settled !! "next" = Some d) as H2
    by (vm_compute; reflexivity).
  assert (registry_footer E settled "next" d = Some (FooterUnable "9.0"))
    as H3 by (vm_compute; reflexivity).
  split; [exact (conj H1 (conj H2 H3))|].
  pose proof (footer_agrees_with_install E settled "next" d H1 H2) as H.
  rewrite H3 in H. exact H.
Defined.

(** Without the condition on ['-'] the cache file does not tell the
    archive: the repositories [a-b/c] and [a/b-c] share one. *)
Example cache_file_of_two_repositories :
  let p := mkPlugina "a-b" "c" "n" "master" in
  let q := mkPlugina "a" "b-c" "n" "master" in
  cache_path E p = cache_path E q /\ url p <> url q.
Proof. split; [by vm_compute|]. vm_compute. discriminate. Qed.

End Concrete.
